(** * goflyway: the obfuscation and header-transform utilities of proxy/util.go

    A shallow embedding of [proxy/util.go] and the properties of its flag
    register, URI and host helpers, delimiter scanner, credential check,
    descriptor codec and header copy engine.

    Conventions of the embedding.
    - A Go [string] is a byte string: Rocq's [string] (a list of [ascii]).
      A Go [[]byte] is a [list ascii].  Go's [int] indices are [Z], so that the
      [-1] of [strings.Index] is the code's own.
    - A run-time panic (slice or index out of range) is the outcome [Panic] of
      the [go] monad; every slice expression goes through [slice], which
      checks the bounds the way the Go run time does.
    - [uint32] values are [Z] with the wrap-around written out ([wrap32]).
    - [http.Header] is a finite map from keys to value lists.  Go leaves the
      order of [range] over a map open: a loop over a map takes the order it
      visits the entries in as an argument, and the theorems hold for every
      order.
    - Of Go's standard library, [strings.Index], [strings.LastIndex],
      [strings.HasSuffix], [strings.Split] on a one-byte separator and
      [textproto.CanonicalMIMEHeaderKey] (behind [http.Header]'s [Add], [Set],
      [Get] and [Del]) are written out on bytes.  [strings.ToLower],
      [strings.TrimSpace], base64, [req.Cookies], and the packages of the
      repository that are not in this file (the Cipher, Base41, the
      descriptor's Marshal and Unmarshal) are parameters; where a property
      needs it, [strings.ToLower] is assumed to lower the bytes of an ASCII
      string. *)

From Stdlib Require Import ZArith Lia List Ascii String Bool.
From stdpp Require Import base tactics option list gmap strings.

Open Scope string_scope.
Open Scope list_scope.
Open Scope Z_scope.

(** ** The Go run time: panics *)

Inductive go (A : Type) : Type :=
| Ret (a : A)
| Panic.
Arguments Ret {A} a.
Arguments Panic {A}.

#[global] Instance go_ret : MRet go := fun A a => Ret a.

#[global] Instance go_bind : MBind go := fun A B k m =>
  match m with
  | Ret a => k a
  | Panic => Panic
  end.

(** ** Go strings *)

Definition len (s : string) : Z := Z.of_nat (String.length s).

Fixpoint str_take (n : nat) (s : string) : string :=
  match n, s with
  | O, _ => EmptyString
  | S _, EmptyString => EmptyString
  | S n', String c s' => String c (str_take n' s')
  end.

Fixpoint str_drop (n : nat) (s : string) : string :=
  match n, s with
  | O, _ => s
  | S _, EmptyString => EmptyString
  | S n', String _ s' => str_drop n' s'
  end.

(** [s[lo:hi]]: panics unless [0 <= lo <= hi <= len(s)]. *)
Definition slice (s : string) (lo hi : Z) : go string :=
  if (0 <=? lo) && (lo <=? hi) && (hi <=? len s)
  then Ret (str_take (Z.to_nat (hi - lo)) (str_drop (Z.to_nat lo) s))
  else Panic.

(** [s[i]]: panics unless [0 <= i < len(s)]. *)
Definition byte_at (s : string) (i : Z) : go ascii :=
  if (0 <=? i) && (i <? len s)
  then match String.get (Z.to_nat i) s with
       | Some c => Ret c
       | None => Panic
       end
  else Panic.

(** [strings.Index(s, sep)]: the first position where [sep] starts, or [-1]. *)
Fixpoint Index (s sep : string) : Z :=
  if String.prefix sep s then 0
  else match s with
       | EmptyString => -1
       | String _ s' => let r := Index s' sep in if r <? 0 then -1 else r + 1
       end.

(** [strings.LastIndex(s, sep)]: the last position where [sep] starts, or [-1]. *)
Fixpoint LastIndex (s sep : string) : Z :=
  match s with
  | EmptyString => if String.prefix sep EmptyString then 0 else -1
  | String _ s' =>
      let r := LastIndex s' sep in
      if 0 <=? r then r + 1
      else if String.prefix sep s then 0 else -1
  end.

(** [strings.HasSuffix(s, suffix)]. *)
Definition HasSuffix (s suffix : string) : bool :=
  let n := String.length s in
  let m := String.length suffix in
  (m <=? n)%nat && String.eqb (str_drop (n - m) s) suffix.

(** [strings.Split(s, sep)] for a one-byte separator: the pieces between the
    occurrences of [sep], one more than there are occurrences. *)
Fixpoint split_byte (sep : ascii) (s : string) : list string :=
  match s with
  | EmptyString => [EmptyString]
  | String c s' =>
      if Ascii.eqb c sep then EmptyString :: split_byte sep s'
      else match split_byte sep s' with
           | p :: ps => String c p :: ps
           | [] => [String c EmptyString]
           end
  end.

(** Whether, and how often, the byte [c] occurs in [s]. *)
Fixpoint has_byte (c : ascii) (s : string) : bool :=
  match s with
  | EmptyString => false
  | String d s' => Ascii.eqb d c || has_byte c s'
  end.

Fixpoint count_byte (c : ascii) (s : string) : nat :=
  match s with
  | EmptyString => O
  | String d s' => (if Ascii.eqb d c then 1 else 0) + count_byte c s'
  end.

(** ["\r\n"] *)
Definition CRLF : string := String "013" (String "010" "").

(** [strings.ToLower] on a string of ASCII bytes: [A-Z] become [a-z]. *)
Definition lower_byte (c : ascii) : ascii :=
  let n := N_of_ascii c in
  if ((65 <=? n) && (n <=? 90))%N then ascii_of_N (n + 32) else c.

Fixpoint lower_ascii (s : string) : string :=
  match s with
  | EmptyString => EmptyString
  | String c s' => String (lower_byte c) (lower_ascii s')
  end.

Definition is_ascii_byte (c : ascii) : bool := (N_of_ascii c <? 128)%N.

Fixpoint is_ascii (s : string) : bool :=
  match s with
  | EmptyString => true
  | String c s' => is_ascii_byte c && is_ascii s'
  end.

(** ** Flag register (lines 82-104) *)

Definition wrap32 (z : Z) : Z := z mod 2 ^ 32.

Definition is_uint32 (z : Z) : Prop := 0 <= z < 2 ^ 32.

(** [type Options uint32] *)
Definition Options : Type := Z.

Definition Options_IsSet (o : Options) (option : Z) : bool :=
  negb (Z.land o option =? 0).

(** The receiver is a pointer; the register after the call is the result. *)
Definition Options_Set (o : Options) (options : list Z) : Options :=
  fold_left (fun o option => Z.lor o option) options o.

Definition Options_SetBool (o : Options) (b : bool) (option : Z) : Options :=
  if b then Options_Set o [option] else o.

Definition Options_UnSet (o : Options) (options : list Z) : Options :=
  fold_left (fun o option => wrap32 (Z.lor o option - option)) options o.

(** ** stripURI (lines 192-209) *)

(** The second component is what the function hands to [proxy.Logger.Warnf]. *)
Definition stripURI (uri : string) : go (string * list string) :=
  if len uri <? 1 then Ret (uri, [])
  else
    c ← byte_at uri 0;
    if negb (Ascii.eqb c "/"%char) then
      t ← slice uri 8 (len uri);
      let idx := Index t "/" in
      if -1 <? idx then
        u ← slice uri (idx + 1 + 8) (len uri);
        Ret (u, [])
      else Ret (uri, ["Unexpected URI: " +:+ uri])
    else
      u ← slice uri 1 (len uri);
      Ret (u, []).

(** ** splitHostPort (lines 342-353) *)

Section SplitHostPort.
Variable ToLower : string -> string.

Definition splitHostPort (host : string) : go (string * string) :=
  let idx := LastIndex host ":" in
  if 0 <? idx then
    let idx2 := LastIndex host "]" in
    if idx2 <? idx then
      h ← slice host 0 idx;
      p ← slice host idx (len host);
      Ret (ToLower h, p)
    else Ret (ToLower host, "")
  else Ret (ToLower host, "").
End SplitHostPort.

(** ** http.Header *)

(** Go's [net/textproto]: the bytes a header field name may hold (RFC 7230
    [tchar]). *)
Definition validHeaderFieldByte (c : ascii) : bool :=
  let n := N_of_ascii c in
  (((48 <=? n) && (n <=? 57)) || ((65 <=? n) && (n <=? 90))
   || ((97 <=? n) && (n <=? 122))
   || existsb (N.eqb n) [33; 35; 36; 37; 38; 39; 42; 43; 45; 46; 94; 95; 96; 124; 126])%N.

Fixpoint str_forallb (f : ascii -> bool) (s : string) : bool :=
  match s with
  | EmptyString => true
  | String c s' => f c && str_forallb f s'
  end.

Definition is_lower_byte (c : ascii) : bool :=
  ((97 <=? N_of_ascii c) && (N_of_ascii c <=? 122))%N.

Definition is_upper_byte (c : ascii) : bool :=
  ((65 <=? N_of_ascii c) && (N_of_ascii c <=? 90))%N.

Definition upper_byte (c : ascii) : ascii :=
  if is_lower_byte c then ascii_of_N (N_of_ascii c - 32) else c.

(** One step of the loop of [canonicalMIMEHeaderKey]: upper case at the start
    and after each dash, lower case elsewhere. *)
Definition canonical_byte (upper : bool) (c : ascii) : ascii :=
  if upper && is_lower_byte c then upper_byte c
  else if negb upper && is_upper_byte c then lower_byte c
  else c.

Fixpoint canonical_loop (upper : bool) (s : string) : string :=
  match s with
  | EmptyString => EmptyString
  | String c s' =>
      let c' := canonical_byte upper c in
      String c' (canonical_loop (Ascii.eqb c' "-"%char) s')
  end.

(** [textproto.CanonicalMIMEHeaderKey]: a key with a byte that is not a field
    byte is returned unchanged. *)
Definition CanonicalMIMEHeaderKey (s : string) : string :=
  if str_forallb validHeaderFieldByte s then canonical_loop true s else s.

(** [type Header map[string][]string] *)
Abbreviation Header := (gmap string (list string)).

Definition Header_values (h : Header) (key : string) : list string :=
  default [] (h !! key).

Definition Header_Add (key value : string) (h : Header) : Header :=
  let key := CanonicalMIMEHeaderKey key in
  <[key := Header_values h key ++ [value]]> h.

Definition Header_Set (key value : string) (h : Header) : Header :=
  <[CanonicalMIMEHeaderKey key := [value]]> h.

Definition Header_Del (key : string) (h : Header) : Header :=
  delete (CanonicalMIMEHeaderKey key) h.

Definition Header_Get (h : Header) (key : string) : string :=
  match h !! CanonicalMIMEHeaderKey key with
  | Some (v :: _) => v
  | _ => ""
  end.

(** [for k := range h]: [order] lists the keys in the order the loop visits
    them; an entry deleted before the loop reaches it is not visited. *)
Definition range_order (order : list string) (h : Header) : Prop :=
  NoDup order /\ forall k, k ∈ order <-> is_Some (h !! k).

(** ** The byte buffer (lines 106-131) *)

(** [buffer.Trunc]: drops the last byte when it is [t]. *)
Fixpoint buffer_Trunc (t : ascii) (b : string) : string :=
  match b with
  | EmptyString => EmptyString
  | String c EmptyString => if Ascii.eqb c t then EmptyString else b
  | String c b' => String c (buffer_Trunc t b')
  end.

(** [buffer.Writes]: appends the strings in turn. *)
Definition buffer_Writes (b : string) (ss : list string) : string :=
  fold_left String.append ss b.

(** ** The Cipher *)

Definition error : Type := string.

(** Modelled from the spec: the constant [ivLen], declared with the Cipher
    outside this file; section 3 gives the IV 16 bytes. *)
Definition ivLen : nat := 16.

(** [[ivLen]byte] *)
Definition IV : Type := list ascii.

Definition zeroIV : IV := repeat zero ivLen.

(** [iv != [ivLen]byte{}] *)
Definition iv_nonzero (iv : IV) : bool := bool_decide (iv <> zeroIV).

(** What [copyHeaders] and [decryptRequest] use of [*Cipher]: [Rand] is the
    state of the generator behind [Jibber]; [Decrypt] returns its string
    together with its error. *)
Record Cipher (Rand : Type) : Type := {
  Alias : string;
  Encrypt : string -> IV -> string;
  Decrypt : string -> IV -> string * option error;
  Jibber : Rand -> string * Rand
}.
Arguments Alias {Rand} _.
Arguments Encrypt {Rand} _ _ _.
Arguments Decrypt {Rand} _ _ _.
Arguments Jibber {Rand} _ _.

(** ** decryptRequest (lines 211-256) *)

(** A request cookie as [req.Cookies()] parses it. *)
Record Cookie : Type := { Cookie_Name : string; Cookie_Value : string }.

Section DecryptRequest.
Context {Rand : Type}.
Variable ToLower : string -> string.
(** [req.Cookies()] and the [String] method of [http.Cookie], of net/http. *)
Variable Cookies : Header -> list Cookie.
Variable Cookie_String : Cookie -> string.
(** The request body and [Cipher.IO.NewReadCloser]. *)
Variable Body : Type.
Variable NewReadCloser : Body -> IV -> Body.

Record Request : Type := { req_Header : Header; req_Body : Body }.

(** The cookie loop (lines 215-222): the buffer, or the first error. *)
Fixpoint decrypt_cookies (gc : Cipher Rand) (iv : IV) (cs : list Cookie)
    (cookies : string) : string + error :=
  match cs with
  | [] => inl cookies
  | c :: cs' =>
      let '(v, err) := Decrypt gc (Cookie_Value c) iv in
      match err with
      | Some e => inr e
      | None =>
          let c := {| Cookie_Name := Cookie_Name c; Cookie_Value := v |} in
          decrypt_cookies gc iv cs' (buffer_Writes cookies [Cookie_String c; ";"])
      end
  end.

(** The condition of line 244, for a key that is long enough to slice. *)
Definition strip_cond (k : string) : bool :=
  String.eqb (str_take 3 k) "Cf-" ||
  ((12 <? len k) && String.eqb (ToLower (str_take 12 k)) "x-forwarded-").

(** The header-stripping pass (lines 243-253). *)
Fixpoint decryptRequest_strip (order : list string) (h : Header) : go Header :=
  match order with
  | [] => Ret h
  | k :: order' =>
      match h !! k with
      | None => decryptRequest_strip order' h
      | Some _ =>
          p ← slice k 0 3;
          drop ← (if String.eqb p "Cf-" then Ret true
                  else if 12 <? len k then
                    q ← slice k 0 12;
                    Ret (String.eqb (ToLower q) "x-forwarded-")
                  else Ret false);
          decryptRequest_strip order' (if drop : bool then Header_Del k h else h)
      end
  end.

(** [order] is the order in which the stripping pass ranges over the header;
    the second component of the result is what was logged. *)
Definition decryptRequest (gc : Cipher Rand) (order : list string)
    (req : Request) (iv : IV) : go (Request * list string) :=
  match decrypt_cookies gc iv (Cookies (req_Header req)) "" with
  | inr e => Ret (req, ["Failed to decrypt cookie: " +:+ e])
  | inl cookies =>
      let h := Header_Set "Cookie" (buffer_Trunc ";" cookies) (req_Header req) in
      let origin := Header_Get h "Origin" in
      '(h, failed) ←
        (if 4 <? len origin then
           o ← slice origin 0 (len origin - 4);
           let '(origin, err) := Decrypt gc o iv in
           match err with
           | Some e => Ret (h, Some ("Failed to decrypt origin: " +:+ e))
           | None => Ret (Header_Set "Origin" origin h, None)
           end
         else Ret (h, None));
      match failed with
      | Some msg => Ret ({| req_Header := h; req_Body := req_Body req |}, [msg])
      | None =>
          let referer := Header_Get h "Referer" in
          let '(h, failed) :=
            if negb (String.eqb referer "") then
              let '(referer, err) := Decrypt gc referer iv in
              match err with
              | Some e => (h, Some ("Failed to decrypt referer: " +:+ e))
              | None => (Header_Set "Referer" referer h, None)
              end
            else (h, None) in
          match failed with
          | Some msg => Ret ({| req_Header := h; req_Body := req_Body req |}, [msg])
          | None =>
              h ← decryptRequest_strip order h;
              Ret ({| req_Header := h; req_Body := NewReadCloser (req_Body req) iv |}, [])
          end
      end
  end.

End DecryptRequest.

(** ** copyHeaders (lines 258-316) *)

(** The cookie value [v[ei+1:di]] of lines 274-279, with [ei], [di] the
    indices of the first '=' and the first ';' (or the length). *)
Definition cookie_payload (v : string) : go string :=
  let ei := Index v "=" in
  let di := Index v ";" in
  let di := if di =? -1 then len v else di in
  slice v (ei + 1) di.

Section CopyHeaders.
Context {Rand : Type}.
Variable ToLower : string -> string.

(** The first loop (lines 259-261). *)
Definition clear_headers (order : list string) (dst : Header) : Header :=
  fold_left (fun d k => match d !! k with Some _ => Header_Del k d | None => d end)
    order dst.

(** The bottom of the loop body (lines 303-305). *)
Definition add_split (k v : string) (dst : Header) : Header :=
  fold_left (fun d vn => Header_Add k vn d) (split_byte "010" v) dst.

(** The body of the inner loop (lines 267-305) for one value [v] of the key
    [k]: the state is [dst] and the [setcookies] buffer. *)
Definition copy_value (gc : Cipher Rand) (enc : bool) (iv : IV) (k v : string)
    (st : Header * string) : go (Header * string) :=
  let '(dst, setcookies) := st in
  let lk := ToLower k in
  if String.eqb lk "set-cookie" then
    if iv_nonzero iv then
      if enc then Ret (dst, buffer_Writes setcookies [v; String "010" ""])
      else
        c ← cookie_payload v;
        let v := fst (Decrypt gc c iv) in
        if negb (HasSuffix v (Alias gc)) then Ret (dst, setcookies)
        else
          v ← slice v 0 (len v - 6);
          Ret (add_split k v dst, setcookies)
    else Ret (add_split k v dst, setcookies)
  else if String.eqb lk "content-encoding" || String.eqb lk "content-type" then
    if enc then Ret (Header_Add ("X-" +:+ k) v dst, setcookies)
    else if iv_nonzero iv then Ret (dst, setcookies)
    else Ret (add_split k v dst, setcookies)
  else if String.eqb lk "x-content-encoding" || String.eqb lk "x-content-type" then
    if negb enc then
      k2 ← slice k 2 (len k);
      Ret (Header_Add k2 v dst, setcookies)
    else Ret (add_split k v dst, setcookies)
  else Ret (add_split k v dst, setcookies).

Fixpoint copy_values (gc : Cipher Rand) (enc : bool) (iv : IV) (k : string)
    (vs : list string) (st : Header * string) : go (Header * string) :=
  match vs with
  | [] => Ret st
  | v :: vs' => st' ← copy_value gc enc iv k v st; copy_values gc enc iv k vs' st'
  end.

(** The loop over [src] (lines 264-307), in the order [src] lists its entries. *)
Fixpoint copy_entries (gc : Cipher Rand) (enc : bool) (iv : IV)
    (src : list (string * list string)) (st : Header * string)
    : go (Header * string) :=
  match src with
  | [] => Ret st
  | (k, vs) :: src' =>
      st' ← copy_values gc enc iv k vs st; copy_entries gc enc iv src' st'
  end.

(** The combined cookie (lines 309-315); the operands of the concatenation
    are evaluated from left to right. *)
Definition emit_setcookies (gc : Cipher Rand) (iv : IV) (st : Header * string)
    (rand : Rand) : Header * Rand :=
  let '(dst, setcookies) := st in
  if (0 <? len setcookies) && iv_nonzero iv then
    let blob := buffer_Trunc "010" setcookies +:+ Alias gc in
    let '(j1, rand) := Jibber gc rand in
    let e := Encrypt gc blob iv in
    let '(j2, rand) := Jibber gc rand in
    (Header_Add "Set-Cookie"
       (j1 +:+ "=" +:+ e +:+ "; Domain=" +:+ j2 +:+ ".com; HttpOnly") dst, rand)
  else (dst, rand).

(** [dst_order] is the order of the range over [dst], [src] lists the entries
    of the source map in the order of the range over it. *)
Definition copyHeaders (dst_order : list string) (dst : Header)
    (src : list (string * list string)) (gc : Cipher Rand) (enc : bool)
    (iv : IV) (rand : Rand) : go (Header * Rand) :=
  let dst := clear_headers dst_order dst in
  st ← copy_entries gc enc iv src (dst, "");
  Ret (emit_setcookies gc iv st rand).

End CopyHeaders.

(** ** basicAuth (lines 318-334) *)

Section BasicAuth.
(** [strings.TrimSpace] and [base64.StdEncoding.DecodeString]; [None] is a
    decoding error. *)
Variable TrimSpace : string -> string.
Variable DecodeString : string -> option string.

Definition basicAuth (UserAuth token : string) : string :=
  match split_byte " " token with
  | [_; p1] =>
      match DecodeString (TrimSpace p1) with
      | None => ""
      | Some pa => if String.eqb pa UserAuth then pa else ""
      end
  | _ => ""
  end.

End BasicAuth.

(** ** readUntil (lines 355-387) *)

(** The errors [readUntil] meets or makes: [io.EOF], the error of
    [fmt.Errorf] at line 383 with the pattern it names, any other error of
    the reader. *)
Inductive read_error : Type :=
| EOF
| ErrNotFound (eoh : string)
| ErrOther (msg : string).

(** An [io.Reader] read through a one-byte buffer: one item per call of
    [Read], the byte it stored (if [n == 1]) and its error; a reader whose
    items are used up answers [0, io.EOF]. *)
Definition Reader : Type := list (option ascii * option read_error).

(** The reader over a byte string, as [bytes.Reader] or [strings.Reader]. *)
Definition reader_of (data : string) : Reader :=
  map (fun b => (Some b, None)) (list_ascii_of_string data).

(** What is left of a string reader. *)
Fixpoint unread (r : Reader) : string :=
  match r with
  | [] => ""
  | (Some b, _) :: r' => String b (unread r')
  | (None, _) :: r' => unread r'
  end.

(** One iteration of the loop (lines 360-379): the new [buf[0]], [respbuf]
    and [eidx], and how the iteration ends: [None] when the loop goes on,
    [Some (inl found)] at a [break], [Some (inr err)] at the [return] of
    line 376. *)
Definition readUntil_step (eoh : string) (item : option ascii * option read_error)
    (buf0 : ascii) (respbuf : list ascii) (eidx : Z)
    : go (ascii * list ascii * Z * option (bool + read_error)) :=
  let '(b, err) := item in
  let buf0 := match b with Some c => c | None => buf0 end in
  let respbuf := match b with Some c => respbuf ++ [c] | None => respbuf end in
  let check_err (eidx : Z) : option (bool + read_error) :=
    match err with
    | None => None
    | Some EOF => Some (inl false)
    | Some e => Some (inr e)
    end in
  e ← byte_at eoh eidx;
  if Ascii.eqb buf0 e then
    let eidx := eidx + 1 in
    if eidx =? len eoh then Ret (buf0, respbuf, eidx, Some (inl true))
    else Ret (buf0, respbuf, eidx, check_err eidx)
  else Ret (buf0, respbuf, 0, check_err 0).

(** How the function ends once the loop is left (lines 382-386). *)
Definition readUntil_end (eoh : string) (respbuf : list ascii)
    (stop : bool + read_error) : list ascii + read_error :=
  match stop with
  | inr e => inr e
  | inl false => inr (ErrNotFound eoh)
  | inl true => inl respbuf
  end.

Fixpoint readUntil_loop (r : Reader) (eoh : string) (buf0 : ascii)
    (respbuf : list ascii) (eidx : Z) : go ((list ascii + read_error) * Reader) :=
  match r with
  | [] =>
      '(_, respbuf, _, stop) ← readUntil_step eoh (None, Some EOF) buf0 respbuf eidx;
      Ret (readUntil_end eoh respbuf (default (inl false) stop), [])
  | item :: r' =>
      '(buf0, respbuf, eidx, stop) ← readUntil_step eoh item buf0 respbuf eidx;
      match stop with
      | Some stop => Ret (readUntil_end eoh respbuf stop, r')
      | None => readUntil_loop r' eoh buf0 respbuf eidx
      end
  end.

(** The result and the reader as the call leaves it. *)
Definition readUntil (r : Reader) (eoh : string)
    : go ((list ascii + read_error) * Reader) :=
  readUntil_loop r eoh zero [] 0.

(** ** The descriptor codec (lines 401-432) *)

(** Modelled from the spec: the type [clientRequest], declared outside this
    file; section 3 gives its fields: auth, real URL, 16-byte IV, options. *)
Record clientRequest : Type := {
  cr_Auth : string;
  cr_Real : string;
  cr_IV : IV;
  cr_Opt : Options
}.

(** [new(clientRequest)] *)
Definition new_clientRequest : clientRequest :=
  {| cr_Auth := ""; cr_Real := ""; cr_IV := zeroIV; cr_Opt := 0 |}.

(** The built-in [copy(dst, src)]. *)
Definition copy_bytes (dst src : list ascii) : list ascii :=
  firstn (length dst) src ++ skipn (length src) dst.

(** The receiver [decryptClientRequest] hands to [Unmarshal]: a fresh
    descriptor with the IV copied in. *)
Definition fresh_with_iv (iv : list ascii) : clientRequest :=
  {| cr_Auth := ""; cr_Real := ""; cr_IV := copy_bytes zeroIV iv; cr_Opt := 0 |}.

Section DescriptorCodec.
(** [msg64.Base41Encode], [msg64.Base41Decode]. *)
Variable Base41Encode : list ascii -> string.
Variable Base41Decode : string -> list ascii * bool.
(** [Cipher.GCM.Seal(nil, nonce, plaintext, nil)] and
    [Cipher.GCM.Open(nil, nonce, ciphertext, nil)]. *)
Variable GCM_Seal : list ascii -> list ascii -> list ascii.
Variable GCM_Open : list ascii -> list ascii -> list ascii * option error.
(** [clientRequest.Marshal]; [clientRequest.Unmarshal] gives the receiver as
    it leaves it and its error. *)
Variable Marshal : clientRequest -> list ascii.
Variable Unmarshal : clientRequest -> list ascii -> clientRequest * option error.

Definition encryptClientRequest (r : clientRequest) : string :=
  let enc := GCM_Seal (firstn 12 (cr_IV r)) (Marshal r) in
  let enc := enc ++ cr_IV r in
  Base41Encode enc.

(** The descriptor ([None] is [nil]) and what was logged. *)
Definition decryptClientRequest (url : string) : option clientRequest * list string :=
  let '(buf, ok) := Base41Decode url in
  if negb ok || (length buf <? ivLen)%nat then (None, [])
  else
    let iv := skipn (length buf - ivLen) buf in
    let buf := firstn (length buf - ivLen) buf in
    let '(buf, err) := GCM_Open (firstn 12 iv) buf in
    match err with
    | Some e => (None, ["Failed to decrypt host: " +:+ url +:+ ", " +:+ e])
    | None =>
        let r := new_clientRequest in
        let r := {| cr_Auth := cr_Auth r; cr_Real := cr_Real r;
                    cr_IV := copy_bytes (cr_IV r) iv; cr_Opt := cr_Opt r |} in
        let '(r, err) := Unmarshal r buf in
        match err with
        | Some e => (None, ["Failed to decrypt host: " +:+ url +:+ ", " +:+ e])
        | None => (Some r, [])
        end
    end.

End DescriptorCodec.

(** ** The option and policy flags (lines 27-54) *)

(** [1 << iota] for the nine options of a request. *)
Definition doConnect : Z := Z.shiftl 1 0.
Definition doHTTPReq : Z := Z.shiftl 1 1.
Definition doWebSocket : Z := Z.shiftl 1 2.
Definition doMuxWS : Z := Z.shiftl 1 3.
Definition doDNS : Z := Z.shiftl 1 4.
Definition doPartialCipher : Z := Z.shiftl 1 5.
Definition doDisableCipher : Z := Z.shiftl 1 6.
Definition doUDPRelay : Z := Z.shiftl 1 7.
Definition doLocalRP : Z := Z.shiftl 1 8.

(** [1 << iota] for the ten policies of a client. *)
Definition PolicyMITM : Z := Z.shiftl 1 0.
Definition PolicyForward : Z := Z.shiftl 1 1.
Definition PolicyAgent : Z := Z.shiftl 1 2.
Definition PolicyGlobal : Z := Z.shiftl 1 3.
Definition PolicyVPN : Z := Z.shiftl 1 4.
Definition PolicyWebSocket : Z := Z.shiftl 1 5.
Definition PolicyHTTPS : Z := Z.shiftl 1 6.
Definition PolicyKCP : Z := Z.shiftl 1 7.
Definition PolicyDisableUDP : Z := Z.shiftl 1 8.
Definition PolicyDisableLRP : Z := Z.shiftl 1 9.

(** The two constant blocks, in the order of their declaration. *)
Definition request_options : list Z :=
  [doConnect; doHTTPReq; doWebSocket; doMuxWS; doDNS; doPartialCipher;
   doDisableCipher; doUDPRelay; doLocalRP].

Definition policies : list Z :=
  [PolicyMITM; PolicyForward; PolicyAgent; PolicyGlobal; PolicyVPN;
   PolicyWebSocket; PolicyHTTPS; PolicyKCP; PolicyDisableUDP; PolicyDisableLRP].

(** ** addToDummies, genHost and encryptRequest (lines 133-190) *)

Definition fwdURLHeader : string := "X-Forwarded-Url".

Definition dummyHeaders : list string :=
  ["Accept-Language"; "Accept-Encoding"; "Cache-Control"; "Connection";
   "Referer"; "User-Agent"].

Section ProxyClient.
Context {Rand : Type}.
(** [proxy.Rand.Intn(n)], of math/rand: a number from 0 up to [n - 1], and
    the generators after the call; [Rand] holds the state of [proxy.Rand]
    and of the generator behind [Jibber]. *)
Variable Intn : Rand -> Z -> Z * Rand.
(** The store behind [proxy.dummies] and its [Add]. *)
Variable Dummies : Type.
Variable dummies_Add : string -> string -> Dummies -> Dummies.
(** The URL of net/url with its [String] method, and [url.Parse]: [None] is
    the nil URL that [Parse] returns beside an error. *)
Variable URL : Type.
Variable URL_String : URL -> string.
Variable url_Parse : string -> option URL.
(** [base64.StdEncoding.EncodeToString] *)
Variable EncodeToString : string -> string.
(** [req.Cookies()] and the [String] method of [http.Cookie]. *)
Variable Cookies : Header -> list Cookie.
Variable Cookie_String : Cookie -> string.
(** The request body and [Cipher.IO.NewReadCloser]. *)
Variable Body : Type.
Variable NewReadCloser : Body -> IV -> Body.
(** What [encryptClientRequest] is made of. *)
Variable Base41Encode : list ascii -> string.
Variable GCM_Seal : list ascii -> list ascii -> list ascii.
Variable Marshal : clientRequest -> list ascii.

(** What this file reads of [*ProxyClient]. *)
Record ProxyClient : Type := {
  pc_UserAuth : string;
  pc_Policy : Options;
  pc_Upstream : string;
  pc_ProxyAuth : string;
  pc_DummyDomain : string;
  pc_Cipher : Cipher Rand
}.

(** What [encryptRequest] reads and writes of [*http.Request]; a nil [URL] is
    [None]. *)
Record HTTPRequest : Type := {
  hr_Header : Header;
  hr_Host : string;
  hr_URL : option URL;
  hr_Body : Body
}.

(** [addToDummies] (lines 133-139): the store after the call. *)
Definition addToDummies (h : Header) (d : Dummies) : Dummies :=
  fold_left
    (fun d field =>
       let x := Header_Get h field in
       if negb (String.eqb x "") then dummies_Add field x d else d)
    dummyHeaders d.

(** [genHost] (lines 141-149): the host name and the generator after the
    call. *)
Definition genHost (proxy : ProxyClient) (rand : Rand) : go (string * Rand) :=
  let tlds := ".com.net.org" in
  if String.eqb (pc_DummyDomain proxy) "" then
    let '(n, rand) := Intn rand 3 in
    let i := n * 4 in
    let '(j, rand) := Jibber (pc_Cipher proxy) rand in
    t ← slice tlds i (i + 4);
    Ret (j +:+ t, rand)
  else Ret (pc_DummyDomain proxy, rand).

(** [req.URL.String()]: a nil URL is dereferenced. *)
Definition URL_text (u : option URL) : go string :=
  match u with
  | Some u => Ret (URL_String u)
  | None => Panic
  end.

(** The cookie loop of [encryptRequest] (lines 174-177): the buffer after it. *)
Definition encrypt_cookies (gc : Cipher Rand) (iv : IV) (cs : list Cookie)
    (cookies : string) : string :=
  fold_left
    (fun cookies c =>
       let c := {| Cookie_Name := Cookie_Name c;
                   Cookie_Value := Encrypt gc (Cookie_Value c) iv |} in
       buffer_Writes cookies [Cookie_String c; ";"])
    cs cookies.

(** The credentials of the man-in-the-middle policy (lines 167-171). *)
Definition add_credentials (proxy : ProxyClient) (h : Header) : Header :=
  if Options_IsSet (pc_Policy proxy) PolicyMITM
     && negb (String.eqb (pc_ProxyAuth proxy) "")
  then
    let x := "Basic " +:+ EncodeToString (pc_ProxyAuth proxy) in
    Header_Add "Authorization" x (Header_Add "Proxy-Authorization" x h)
  else h.

(** The cookies, the Origin and the Referer (lines 173-186). *)
Definition encrypt_fields (gc : Cipher Rand) (iv : IV) (h : Header) : Header :=
  let cookies := encrypt_cookies gc iv (Cookies h) "" in
  let h := Header_Set "Cookie" (buffer_Trunc ";" cookies) h in
  let origin := Header_Get h "Origin" in
  let h :=
    if negb (String.eqb origin "")
    then Header_Set "Origin" (Encrypt gc origin iv +:+ ".com") h
    else h in
  let referer := Header_Get h "Referer" in
  if negb (String.eqb referer "")
  then Header_Set "Referer" (Encrypt gc referer iv) h
  else h.

(** [encryptRequest] (lines 151-190): the request and the descriptor as the
    call leaves them, the generator and the store of dummies after it, and
    the IV it returns. *)
Definition encryptRequest (proxy : ProxyClient) (req : HTTPRequest)
    (r : clientRequest) (rand : Rand) (dummies : Dummies)
    : go (HTTPRequest * clientRequest * Rand * Dummies * IV) :=
  let r := {| cr_Auth := pc_UserAuth proxy; cr_Real := cr_Real r;
              cr_IV := cr_IV r; cr_Opt := cr_Opt r |} in
  let dummies := addToDummies (hr_Header req) dummies in
  '(req, r, rand) ←
    (if Options_IsSet (pc_Policy proxy) PolicyForward then
       real ← URL_text (hr_URL req);
       let r := {| cr_Auth := cr_Auth r; cr_Real := real;
                   cr_IV := cr_IV r; cr_Opt := cr_Opt r |} in
       '(host, rand) ← genHost proxy rand;
       let urlBuf :=
         buffer_Writes ""
           ["http://"; host; "/"; encryptClientRequest Base41Encode GCM_Seal Marshal r] in
       let h := Header_Add fwdURLHeader urlBuf (hr_Header req) in
       let urlBuf := buffer_Writes "" ["http://"; pc_Upstream proxy] in
       Ret ({| hr_Header := h; hr_Host := pc_Upstream proxy;
               hr_URL := url_Parse urlBuf; hr_Body := hr_Body req |}, r, rand)
     else
       '(host, rand) ← genHost proxy rand;
       real ← URL_text (hr_URL req);
       let r := {| cr_Auth := cr_Auth r; cr_Real := real;
                   cr_IV := cr_IV r; cr_Opt := cr_Opt r |} in
       let urlBuf :=
         buffer_Writes ""
           ["http://"; host; "/"; encryptClientRequest Base41Encode GCM_Seal Marshal r] in
       Ret ({| hr_Header := hr_Header req; hr_Host := host;
               hr_URL := url_Parse urlBuf; hr_Body := hr_Body req |}, r, rand));
  let h := add_credentials proxy (hr_Header req) in
  let h := encrypt_fields (pc_Cipher proxy) (cr_IV r) h in
  Ret ({| hr_Header := h; hr_Host := hr_Host req; hr_URL := hr_URL req;
          hr_Body := NewReadCloser (hr_Body req) (cr_IV r) |},
       r, rand, dummies, cr_IV r).

End ProxyClient.

(** ** Terms of the properties *)

(** *** http.Header as a multimap *)

(** A run of [Header.Add] calls. *)
Definition adds (l : list (string * string)) (h : Header) : Header :=
  fold_left (fun d kv => Header_Add (fst kv) (snd kv) d) l h.

(** The values a run of [Add] calls files under the key [K]. *)
Definition picks (K : string) (l : list (string * string)) : list string :=
  flat_map (fun kv => if String.eqb (CanonicalMIMEHeaderKey (fst kv)) K
                      then [snd kv] else []) l.

(** *** The combined cookie as text *)

(** What [setcookies.Writes(v, "\n")] leaves in the buffer for the values
    [vs], and the values joined by newlines. *)
Fixpoint cookie_lines (vs : list string) : string :=
  match vs with
  | [] => ""
  | v :: vs' => v +:+ String "010" (cookie_lines vs')
  end.

Fixpoint join_lines (vs : list string) : string :=
  match vs with
  | [] => ""
  | [v] => v
  | v :: vs' => v +:+ String "010" (join_lines vs')
  end.

(** [lc] is one of the two content headers, [K] its canonical name and [XK]
    the name it travels under. *)
Inductive content_header : string -> string -> string -> Prop :=
| content_type : content_header "content-type" "Content-Type" "X-Content-Type"
| content_encoding :
    content_header "content-encoding" "Content-Encoding" "X-Content-Encoding".

(** *** The two directions of copyHeaders as runs of Add *)

Section CopyHeadersTerms.
Context {Rand : Type}.
Variable ToLower : string -> string.
Variable gc : Cipher Rand.
Variable iv : IV.

(** The values the source holds under the keys that lower-case to [lk], in
    the order of the range over it. *)
Definition source_values (lk : string) (items : list (string * list string))
    : list string :=
  flat_map (fun e => if String.eqb (ToLower (fst e)) lk then snd e else []) items.

(** The [Add] calls of the encrypting direction for one value. *)
Definition emit_enc (k v : string) : list (string * string) :=
  let lk := ToLower k in
  if String.eqb lk "set-cookie" then []
  else if String.eqb lk "content-encoding" || String.eqb lk "content-type"
  then [("X-" +:+ k, v)]
  else map (pair k) (split_byte "010" v).

Definition emits_enc (items : list (string * list string)) : list (string * string) :=
  flat_map (fun e => flat_map (emit_enc (fst e)) (snd e)) items.

(** The [Add] calls of the decrypting direction for one value of a key that
    is not a Set-Cookie. *)
Definition emit_dec (k v : string) : list (string * string) :=
  let lk := ToLower k in
  if String.eqb lk "content-encoding" || String.eqb lk "content-type" then []
  else if String.eqb lk "x-content-encoding" || String.eqb lk "x-content-type"
  then [(str_drop 2 k, v)]
  else map (pair k) (split_byte "010" v).

(** The header value of line 314 for the joined cookies [body]. *)
Definition combined_cookie (j1 j2 body : string) : string :=
  j1 +:+ "=" +:+ Encrypt gc (body +:+ Alias gc) iv +:+ "; Domain=" +:+ j2
     +:+ ".com; HttpOnly".

(** The first and second token of [Jibber] from the generator state [rand],
    and the state after both. *)
Definition jibber1 (rand : Rand) : string := fst (Jibber gc rand).
Definition jibber2 (rand : Rand) : string := fst (Jibber gc (snd (Jibber gc rand))).
Definition jibbered (rand : Rand) : Rand := snd (Jibber gc (snd (Jibber gc rand))).

(** The [Add] calls of the decrypting direction for one entry, the combined
    cookie holding [body]. *)
Definition emit_dec_entry (body : string) (e : string * list string)
    : list (string * string) :=
  if String.eqb (ToLower (fst e)) "set-cookie"
  then map (pair (fst e)) (split_byte "010" body)
  else flat_map (emit_dec (fst e)) (snd e).

(** [items] are the entries of the source. *)
Variable items : list (string * list string).

(** The combined cookie the encrypting direction makes of them. *)
Definition sent_cookie (rand : Rand) : string :=
  combined_cookie (jibber1 rand) (jibber2 rand)
    (join_lines (source_values "set-cookie" items)).

(** The [Add] calls of the encrypting direction. *)
Definition sent_adds (rand : Rand) : list (string * string) :=
  emits_enc items ++
  (if bool_decide (source_values "set-cookie" items = []) then []
   else [("Set-Cookie", sent_cookie rand)]).

(** The [Add] calls of the decrypting direction over the entries [items2]. *)
Definition received_adds (items2 : list (string * list string))
    : list (string * string) :=
  flat_map (emit_dec_entry (join_lines (source_values "set-cookie" items))) items2.

End CopyHeadersTerms.

(** *** A codec and a cipher to run the code with *)

Module CodecModel.

Definition Base41Encode (bs : list ascii) : string := string_of_list_ascii bs.

Definition Base41Decode (s : string) : list ascii * bool :=
  (list_ascii_of_string s, true).

(** The sealed text carries the nonce as its tag. *)
Definition GCM_Seal (nonce pt : list ascii) : list ascii := nonce ++ pt.

Definition GCM_Open (nonce ct : list ascii) : list ascii * option error :=
  if decide (firstn (length nonce) ct = nonce)
  then (skipn (length nonce) ct, None)
  else ([], Some "cipher: message authentication failed").

Fixpoint bytes_of_pos (p : positive) : list ascii :=
  match p with
  | xH => []
  | xO p' => "0"%char :: bytes_of_pos p'
  | xI p' => "1"%char :: bytes_of_pos p'
  end.

Fixpoint pos_of_bytes (bs : list ascii) : positive :=
  match bs with
  | [] => xH
  | b :: bs' => if Ascii.eqb b "1" then xI (pos_of_bytes bs') else xO (pos_of_bytes bs')
  end.

Definition Marshal (r : clientRequest) : list ascii :=
  bytes_of_pos (encode (cr_Auth r, cr_Real r, cr_Opt r)).

Definition Unmarshal (r : clientRequest) (buf : list ascii)
    : clientRequest * option error :=
  match decode (pos_of_bytes buf) with
  | Some (a, u, o) =>
      ({| cr_Auth := a; cr_Real := u; cr_IV := cr_IV r; cr_Opt := o |}, None)
  | None => (r, Some "unmarshal: malformed buffer")
  end.

Definition sample : clientRequest :=
  {| cr_Auth := "secret"; cr_Real := "http://example.com/index.html";
     cr_IV := list_ascii_of_string "0123456789abcdef"; cr_Opt := 2 |}.

End CodecModel.

Module CipherModel.

(** The 16 "digits" 'a' .. 'p'. *)
Definition digit (n : N) : ascii := ascii_of_N (97 + n).

Definition digit_value (c : ascii) : option N :=
  let n := N_of_ascii c in
  if ((97 <=? n) && (n <? 113))%N then Some (n - 97)%N else None.

Fixpoint encode_digits (s : string) : string :=
  match s with
  | EmptyString => EmptyString
  | String c s' =>
      String (digit (N_of_ascii c / 16))
        (String (digit (N_of_ascii c mod 16)) (encode_digits s'))
  end.

Fixpoint decode_digits (s : string) : option string :=
  match s with
  | EmptyString => Some EmptyString
  | String a (String b s') =>
      match digit_value a, digit_value b, decode_digits s' with
      | Some x, Some y, Some t => Some (String (ascii_of_N (16 * x + y)) t)
      | _, _, _ => None
      end
  | String _ EmptyString => None
  end.

(** A cipher whose text is written in digits; the generator state counts the
    words made so far. *)
Definition cipher (alias : string) : Cipher nat :=
  {| Alias := alias;
     Encrypt := fun s _ => encode_digits s;
     Decrypt := fun s _ =>
       match decode_digits s with
       | Some t => (t, None)
       | None => ("", Some "cipher: malformed text")
       end;
     Jibber := fun r => (if Nat.even r then "lorem" else "ipsum", S r) |}.

Definition iv : IV := list_ascii_of_string "0123456789abcdef".

(** The cipher that leaves the text as it is: [Decrypt] inverts [Encrypt],
    and the text may hold any byte. *)
Definition plain (alias : string) : Cipher nat :=
  {| Alias := alias;
     Encrypt := fun s _ => s;
     Decrypt := fun s _ => (s, None);
     Jibber := fun r => (if Nat.even r then "lorem" else "ipsum", S r) |}.

(** A response header. *)
Definition response : list (string * list string) :=
  [("Content-Encoding", ["gzip"]);
   ("Content-Type", ["text/html"]);
   ("Server", ["nginx"]);
   ("Set-Cookie", ["a=1; Path=/"; "b=2; HttpOnly"])].

End CipherModel.

(** *** The flag register on lists of flags *)

(** The flags of a list, or-ed into one word. *)
Definition flags_union (fs : list Z) : Z := fold_right Z.lor 0 fs.

(** *** Text joined by a separator *)

(** The strings [vs] with the byte [sep] between them. *)
Fixpoint join_with (sep : ascii) (vs : list string) : string :=
  match vs with
  | [] => ""
  | [v] => v
  | v :: vs' => v +:+ String sep (join_with sep vs')
  end.

(** A buffer that [Writes(v, sep)] filled for each of [vs] in turn, as the
    cookie loops do. *)
Definition written_with (sep : ascii) (vs : list string) (b : string) : string :=
  fold_left (fun b v => buffer_Writes b [v; String sep ""]) vs b.

(** *** The request on its way from the client to the server *)

(** The descriptor [encryptRequest] seals for a request whose URL reads
    [real]. *)
Definition sent_descriptor {Rand : Type} (proxy : @ProxyClient Rand)
    (real : string) (r : clientRequest) : clientRequest :=
  {| cr_Auth := pc_UserAuth proxy; cr_Real := real;
     cr_IV := cr_IV r; cr_Opt := cr_Opt r |}.

(** The URL that carries the sealed descriptor behind the dummy host. *)
Definition carrier_URL (host sealed : string) : string :=
  "http://" +:+ host +:+ "/" +:+ sealed.

(** A cookie with its value encrypted, and the line of a Cookie header. *)
Definition encrypt_cookie {Rand : Type} (gc : Cipher Rand) (iv : IV) (c : Cookie)
    : Cookie :=
  {| Cookie_Name := Cookie_Name c; Cookie_Value := Encrypt gc (Cookie_Value c) iv |}.

Definition cookie_line (Cookie_String : Cookie -> string) (cs : list Cookie)
    : string :=
  join_with ";" (map Cookie_String cs).

(** What [decryptRequest] reads and writes of the request the client sent. *)
Definition received {URL Body : Type} (req : HTTPRequest URL Body) : Request Body :=
  {| req_Header := hr_Header URL Body req; req_Body := hr_Body URL Body req |}.

(** *** A client and a request to run the code with *)

Module RequestModel.

(** A cookie is written [name=value]; the cookies of a request are the
    pieces of its Cookie lines between semicolons. *)
Definition Cookie_String (c : Cookie) : string :=
  Cookie_Name c +:+ "=" +:+ Cookie_Value c.

Definition parse_cookie (s : string) : Cookie :=
  let i := Index s "=" in
  if i <? 0 then {| Cookie_Name := s; Cookie_Value := "" |}
  else {| Cookie_Name := str_take (Z.to_nat i) s;
          Cookie_Value := str_drop (Z.to_nat (i + 1)) s |}.

Definition Cookies (h : Header) : list Cookie :=
  flat_map (fun line => if String.eqb line "" then []
                        else map parse_cookie (split_byte ";" line))
    (Header_values h "Cookie").

(** The generator counts its calls. *)
Definition Intn (r : nat) (n : Z) : Z * nat := (Z.of_nat r mod n, S r).

(** A client that sends straight to the server, with no dummy domain. *)
Definition proxy : @ProxyClient nat :=
  {| pc_UserAuth := "secret"; pc_Policy := 0; pc_Upstream := "";
     pc_ProxyAuth := ""; pc_DummyDomain := "";
     pc_Cipher := CipherModel.cipher "a1b2c3" |}.

(** A request; URLs are kept as their text, the body is not looked at. *)
Definition request : HTTPRequest string unit :=
  {| hr_Header :=
       <["Cookie" := ["sid=abc;theme=dark"]]>
         (<["Origin" := ["https://example.com"]]>
            (<["Referer" := ["https://example.com/page"]]> ∅));
     hr_Host := "example.com";
     hr_URL := Some "http://example.com/index.html";
     hr_Body := tt |}.

(** The descriptor the caller hands to [encryptRequest]. *)
Definition descriptor : clientRequest :=
  {| cr_Auth := ""; cr_Real := ""; cr_IV := CipherModel.iv; cr_Opt := doHTTPReq |}.

(** The dummies are kept in a list. *)
Definition Dummies : Type := list (string * string).

Definition dummies_Add (k v : string) (d : Dummies) : Dummies := d ++ [(k, v)].

(** The client obfuscates the request; the server restores a request it
    received, ranging over the header in the order [order]. *)
Definition send
    : go (HTTPRequest string unit * clientRequest * nat * Dummies * IV) :=
  encryptRequest Intn Dummies dummies_Add string (fun u => u) Some (fun s => s)
    Cookies Cookie_String unit (fun b _ => b)
    CodecModel.Base41Encode CodecModel.GCM_Seal CodecModel.Marshal
    proxy request descriptor 0%nat [].

Definition receive (order : list string) (req : HTTPRequest string unit) (iv : IV)
    : go (Request unit * list string) :=
  decryptRequest lower_ascii Cookies Cookie_String unit (fun b _ => b)
    (pc_Cipher proxy) order (received req) iv.

(** The descriptor that travels, and its sealed text. *)
Definition sent : clientRequest :=
  sent_descriptor proxy "http://example.com/index.html" descriptor.

Definition sealed : string :=
  encryptClientRequest CodecModel.Base41Encode CodecModel.GCM_Seal
    CodecModel.Marshal sent.

End RequestModel.

(** * Properties *)

(** ** Go strings *)

Lemma bind_Ret {A B : Type} (a : A) (k : A -> go B) : Ret a ≫= k = k a.
Proof. reflexivity. Qed.

Lemma bind_Panic {A B : Type} (k : A -> go B) : Panic ≫= k = Panic.
Proof. reflexivity. Qed.

Lemma len_nonneg (s : string) : 0 <= len s.
Proof. unfold len. lia. Qed.

Lemma len_String (c : ascii) (s : string) : len (String c s) = len s + 1.
Proof. unfold len. cbn [String.length]. lia. Qed.

Lemma app_String (c : ascii) (s t : string) :
  String c s +:+ t = String c (s +:+ t).
Proof. reflexivity. Qed.

Lemma app_empty_l (t : string) : "" +:+ t = t.
Proof. reflexivity. Qed.

Lemma app_empty_r (s : string) : s +:+ "" = s.
Proof. induction s as [|c s IH]; [reflexivity|]. now rewrite app_String, IH. Qed.

Lemma app_assoc_s (s t u : string) : (s +:+ t) +:+ u = s +:+ t +:+ u.
Proof.
  induction s as [|c s IH]; [reflexivity|]. now rewrite !app_String, IH.
Qed.

Lemma len_app (s t : string) : len (s +:+ t) = len s + len t.
Proof.
  induction s as [|c s IH].
  - change ("" +:+ t) with t. unfold len at 2. cbn [String.length]. lia.
  - change (String c s +:+ t) with (String c (s +:+ t)).
    rewrite !len_String. lia.
Qed.

Lemma str_take_drop (n : nat) (s : string) : str_take n s +:+ str_drop n s = s.
Proof.
  revert s. induction n as [|n IH]; intros [|c s]; simpl; try reflexivity.
  now rewrite app_String, IH.
Qed.

Lemma str_drop_all (s : string) : str_drop (String.length s) s = "".
Proof. induction s; simpl; auto. Qed.

Lemma str_take_all (s : string) : str_take (String.length s) s = s.
Proof. induction s; simpl; congruence. Qed.

Lemma str_take_app (s t : string) : str_take (String.length s) (s +:+ t) = s.
Proof.
  induction s as [|c s IH]; [destruct t; reflexivity|].
  rewrite app_String. simpl. now rewrite IH.
Qed.

Lemma str_drop_app (s t : string) : str_drop (String.length s) (s +:+ t) = t.
Proof. induction s as [|c s IH]; [reflexivity|]. rewrite app_String. apply IH. Qed.

Lemma length_str_drop (n : nat) (s : string) :
  String.length (str_drop n s) = (String.length s - n)%nat.
Proof.
  revert s. induction n as [|n IH]; intros [|c s]; simpl; try lia. apply IH.
Qed.

Lemma length_str_take (n : nat) (s : string) :
  String.length (str_take n s) = Nat.min n (String.length s).
Proof.
  revert s. induction n as [|n IH]; intros [|c s]; simpl; try lia.
  now rewrite IH.
Qed.

Lemma slice_from_start (s : string) (hi : Z) :
  0 <= hi <= len s -> slice s 0 hi = Ret (str_take (Z.to_nat hi) s).
Proof.
  intros H. unfold slice.
  replace ((0 <=? 0) && (0 <=? hi) && (hi <=? len s)) with true
    by (symmetry; rewrite !andb_true_iff, !Z.leb_le; lia).
  simpl. now rewrite Z.sub_0_r.
Qed.

Lemma slice_to_end (s : string) (lo : Z) :
  0 <= lo <= len s -> slice s lo (len s) = Ret (str_drop (Z.to_nat lo) s).
Proof.
  intros H. unfold slice.
  replace ((0 <=? lo) && (lo <=? len s) && (len s <=? len s)) with true
    by (symmetry; rewrite !andb_true_iff, !Z.leb_le; lia).
  f_equal.
  assert (E : String.length (str_drop (Z.to_nat lo) s) = Z.to_nat (len s - lo)).
  { rewrite length_str_drop. unfold len in *. lia. }
  rewrite <- E. apply str_take_all.
Qed.

Lemma slice_inverted (s : string) (lo hi : Z) :
  hi < lo -> slice s lo hi = Panic.
Proof.
  intros H. unfold slice.
  replace (lo <=? hi) with false by (symmetry; apply Z.leb_gt; lia).
  now rewrite andb_false_r.
Qed.

Lemma byte_at_0 (c : ascii) (s : string) : byte_at (String c s) 0 = Ret c.
Proof.
  unfold byte_at. rewrite len_String. pose proof (len_nonneg s).
  replace (0 <? len s + 1) with true by (symmetry; apply Z.ltb_lt; lia).
  reflexivity.
Qed.

Lemma slice_panics (s : string) (lo hi : Z) :
  len s < hi -> slice s lo hi = Panic.
Proof.
  intros H. unfold slice.
  replace (hi <=? len s) with false by (symmetry; apply Z.leb_gt; lia).
  now rewrite andb_false_r.
Qed.

Lemma LastIndex_range (s sep : string) : -1 <= LastIndex s sep <= len s.
Proof.
  induction s as [|c s IH].
  - destruct sep; simpl; unfold len; simpl; lia.
  - cbn [LastIndex]. rewrite len_String.
    destruct (Z.leb_spec 0 (LastIndex s sep)); [lia|].
    pose proof (len_nonneg s). destruct (String.prefix sep (String c s)); lia.
Qed.

(** For a one-byte separator the index found holds that byte and none
    follows it. *)
Lemma LastIndex_byte_spec (c : ascii) (s : string) (i : Z) :
  LastIndex s (String c "") = i -> 0 <= i ->
  String.get (Z.to_nat i) s = Some c /\
  LastIndex (str_drop (S (Z.to_nat i)) s) (String c "") = -1.
Proof.
  revert i. induction s as [|d s IH]; intros i E Hi.
  - simpl in E. lia.
  - cbn [LastIndex] in E.
    destruct (Z.leb_spec 0 (LastIndex s (String c ""))) as [H|H].
    + destruct (IH (LastIndex s (String c "")) eq_refl H) as [G L].
      subst i. replace (Z.to_nat (LastIndex s (String c "") + 1))
        with (S (Z.to_nat (LastIndex s (String c "")))) by lia.
      simpl. split; [exact G | exact L].
    + destruct (String.prefix (String c "") (String d s)) eqn:P; [|lia].
      subst i. simpl. simpl in P.
      destruct (ascii_dec c d) as [->|]; [|discriminate].
      split; [reflexivity|].
      pose proof (LastIndex_range s (String d "")). lia.
Qed.

(** ** Flag register *)

Lemma ldiff_land_disjoint (r f : Z) : Z.land (Z.ldiff r f) f = 0.
Proof.
  apply Z.bits_inj'. intros n Hn.
  rewrite Z.land_spec, Z.ldiff_spec, Z.bits_0.
  destruct (Z.testbit r n), (Z.testbit f n); reflexivity.
Qed.

Lemma lor_sub_ldiff (r f : Z) : Z.lor r f - f = Z.ldiff r f.
Proof.
  assert (U : Z.lor (Z.ldiff r f) f = Z.lor r f).
  { apply Z.bits_inj'. intros n Hn.
    rewrite !Z.lor_spec, Z.ldiff_spec.
    destruct (Z.testbit r n), (Z.testbit f n); reflexivity. }
  rewrite <- U, <- Z.lxor_lor by apply ldiff_land_disjoint.
  rewrite <- Z.add_nocarry_lxor by apply ldiff_land_disjoint. lia.
Qed.

Lemma ldiff_plus_land (r f : Z) : Z.ldiff r f + Z.land r f = r.
Proof.
  assert (D : Z.land (Z.ldiff r f) (Z.land r f) = 0).
  { apply Z.bits_inj'. intros n Hn.
    rewrite !Z.land_spec, Z.ldiff_spec, Z.bits_0.
    destruct (Z.testbit r n), (Z.testbit f n); reflexivity. }
  rewrite Z.add_nocarry_lxor, Z.lxor_lor by exact D.
  apply Z.bits_inj'. intros n Hn.
  rewrite Z.lor_spec, Z.land_spec, Z.ldiff_spec.
  destruct (Z.testbit r n), (Z.testbit f n); reflexivity.
Qed.

Lemma ldiff_uint32 (r f : Z) : is_uint32 r -> 0 <= f -> is_uint32 (Z.ldiff r f).
Proof.
  unfold is_uint32. intros Hr Hf.
  assert (0 <= Z.ldiff r f) by (apply Z.ldiff_nonneg; lia).
  assert (0 <= Z.land r f) by (apply Z.land_nonneg; lia).
  pose proof (ldiff_plus_land r f). lia.
Qed.

Lemma Options_UnSet_one (o f : Z) :
  is_uint32 o -> is_uint32 f -> Options_UnSet o [f] = Z.ldiff o f.
Proof.
  intros Ho Hf. unfold Options_UnSet, wrap32. cbn [fold_left].
  rewrite lor_sub_ldiff. apply Z.mod_small.
  apply ldiff_uint32; [exact Ho | apply Hf].
Qed.

(** C5, as the code has it: [Set(f)] then [UnSet(f)] leaves the register with
    the bits of [f] cleared and every other bit as it was, [r AND NOT f], so
    that [IsSet(f)] is false; the result is 0 exactly when [r] had no bit
    outside [f] (so for [r = 0]). *)
Theorem Options_Set_UnSet_clears (r f : Z) :
  is_uint32 r -> is_uint32 f ->
  Options_UnSet (Options_Set r [f]) [f] = Z.ldiff r f /\
  Options_IsSet (Options_UnSet (Options_Set r [f]) [f]) f = false /\
  (Options_UnSet (Options_Set r [f]) [f] = 0 <-> Z.land r f = r).
Proof.
  intros Hr Hf.
  assert (E : Options_UnSet (Options_Set r [f]) [f] = Z.ldiff r f).
  { unfold Options_Set, Options_UnSet, wrap32. cbn [fold_left].
    rewrite <- Z.lor_assoc, Z.lor_diag, lor_sub_ldiff.
    apply Z.mod_small. apply ldiff_uint32; [exact Hr | apply Hf]. }
  split; [exact E|]. rewrite E. split.
  - unfold Options_IsSet. now rewrite ldiff_land_disjoint.
  - pose proof (ldiff_plus_land r f). lia.
Qed.

Lemma Options_Set_UnSet_clears_witness :
  Options_UnSet (Options_Set 5 [4]) [4] = Z.ldiff 5 4 /\
  Options_IsSet (Options_UnSet (Options_Set 5 [4]) [4]) 4 = false /\
  (Options_UnSet (Options_Set 5 [4]) [4] = 0 <-> Z.land 5 4 = 5).
Proof.
  apply (Options_Set_UnSet_clears 5 4); unfold is_uint32; lia.
Defined.

(** C5 as stated fails: from the register 1, setting and clearing the flag 2
    leaves 1, not 0. *)
Lemma Options_Set_UnSet_not_zero :
  ~ (forall r f : Z, is_uint32 r -> is_uint32 f ->
       Options_UnSet (Options_Set r [f]) [f] = 0).
Proof.
  intros H. specialize (H 1 2). unfold is_uint32 in H.
  assert (E : Options_UnSet (Options_Set 1 [2]) [2] = 1) by reflexivity.
  rewrite E in H. lia.
Qed.

Lemma Options_IsSet_after_Set (r f : Z) :
  f <> 0 -> Options_IsSet (Options_Set r [f]) f = true.
Proof.
  intros Hf. unfold Options_IsSet, Options_Set. cbn [fold_left].
  rewrite Z.land_comm, Z.land_lor_distr_r, Z.land_diag.
  replace (Z.lor (Z.land f r) f) with f.
  - apply negb_true_iff, Z.eqb_neq, Hf.
  - apply Z.bits_inj'. intros n Hn. rewrite Z.lor_spec, Z.land_spec.
    destruct (Z.testbit r n), (Z.testbit f n); reflexivity.
Qed.

(** ** stripURI *)

(** C10: a non-empty URI that does not start with '/' and is shorter than 8
    bytes makes [uri[8:]] panic; a URI that starts with '/' comes back
    without that byte, with nothing logged. *)
Theorem stripURI_partial (uri : string) :
  (uri <> "" /\ String.get 0 uri <> Some "/"%char /\ len uri < 8 ->
   stripURI uri = Panic) /\
  (forall rest : string, uri = String "/" rest -> stripURI uri = Ret (rest, [])).
Proof.
  split.
  - intros (Hne & Hc & Hlen). destruct uri as [|c s]; [congruence|].
    unfold stripURI. pose proof (len_nonneg s) as Hs.
    rewrite len_String in Hlen |- *.
    replace (len s + 1 <? 1) with false by (symmetry; apply Z.ltb_ge; lia).
    rewrite byte_at_0, bind_Ret.
    destruct (Ascii.eqb_spec c "/"%char) as [->|Hn]; [now elim Hc|].
    cbn [negb]. now rewrite slice_inverted by lia.
  - intros rest ->. unfold stripURI. pose proof (len_nonneg rest) as Hs.
    replace (len (String "/" rest) <? 1) with false
      by (symmetry; apply Z.ltb_ge; rewrite len_String; lia).
    rewrite byte_at_0, bind_Ret, Ascii.eqb_refl. cbn [negb].
    now rewrite slice_to_end by (rewrite len_String; lia).
Qed.

Example stripURI_short : stripURI "abc" = Panic.
Proof. reflexivity. Qed.

Example stripURI_absolute :
  stripURI "http://a.b/xyz" = Ret ("xyz", []) /\ stripURI "/xyz" = Ret ("xyz", []).
Proof. split; reflexivity. Qed.

(** ** splitHostPort *)

Section SplitHostPortProps.
Variable ToLower : string -> string.
(** On ASCII strings [strings.ToLower] maps bytes. *)
Hypothesis ToLower_ascii :
  forall s : string, is_ascii s = true -> ToLower s = lower_ascii s.

Lemma splitHostPort_split (host : string) :
  0 < LastIndex host ":" -> LastIndex host "]" < LastIndex host ":" ->
  splitHostPort ToLower host =
    Ret (ToLower (str_take (Z.to_nat (LastIndex host ":")) host),
         str_drop (Z.to_nat (LastIndex host ":")) host).
Proof.
  intros H1 H2. unfold splitHostPort.
  pose proof (LastIndex_range host ":") as R.
  rewrite (proj2 (Z.ltb_lt _ _) H1), (proj2 (Z.ltb_lt _ _) H2).
  rewrite slice_from_start, bind_Ret by lia.
  now rewrite slice_to_end, bind_Ret by lia.
Qed.

Lemma splitHostPort_whole (host : string) :
  LastIndex host ":" <= 0 \/ LastIndex host ":" <= LastIndex host "]" ->
  splitHostPort ToLower host = Ret (ToLower host, "").
Proof.
  intros H. unfold splitHostPort.
  destruct (Z.ltb_spec 0 (LastIndex host ":")); [|reflexivity].
  destruct (Z.ltb_spec (LastIndex host "]") (LastIndex host ":")); [lia|reflexivity].
Qed.

(** C9, as the code has it: the host is split at its last ':' into the
    lower-cased part before it and the suffix from it on (which holds no
    other ':') when that colon is not the first byte and no ']' follows it;
    a host with no colon, with its last colon as first byte, or with a ']'
    after the last colon comes back whole, lower-cased, with an empty
    suffix.  The two examples of the spec hold. *)
Theorem splitHostPort_spec (host : string) :
  let idx := LastIndex host ":" in
  (0 < idx -> LastIndex host "]" < idx ->
   splitHostPort ToLower host =
     Ret (ToLower (str_take (Z.to_nat idx) host), str_drop (Z.to_nat idx) host) /\
   String.get (Z.to_nat idx) host = Some ":"%char /\
   LastIndex (str_drop (S (Z.to_nat idx)) host) ":" = -1) /\
  (idx <= 0 \/ idx <= LastIndex host "]" ->
   splitHostPort ToLower host = Ret (ToLower host, "")) /\
  splitHostPort ToLower "Example.COM:8080" = Ret ("example.com", ":8080") /\
  splitHostPort ToLower "[::1]" = Ret ("[::1]", "").
Proof.
  cbv zeta. split; [|split; [|split]].
  - intros H1 H2. split; [now apply splitHostPort_split|].
    apply LastIndex_byte_spec; [reflexivity | lia].
  - apply splitHostPort_whole.
  - rewrite splitHostPort_split by (vm_compute; reflexivity).
    change (str_take _ _) with "Example.COM". now rewrite ToLower_ascii.
  - rewrite splitHostPort_whole by (right; vm_compute; discriminate).
    now rewrite ToLower_ascii.
Qed.

End SplitHostPortProps.

Lemma splitHostPort_spec_witness :
  splitHostPort lower_ascii "Example.COM:8080" = Ret ("example.com", ":8080").
Proof.
  pose proof (splitHostPort_spec lower_ascii (fun s _ => eq_refl)
                "Example.COM:8080") as H.
  exact (proj1 (proj2 (proj2 H))).
Defined.

(** C9 as stated fails: the last colon of ":8080" is its first byte and no
    ']' follows it, yet the host comes back whole. *)
Lemma splitHostPort_leading_colon :
  ~ (forall host : string,
       0 <= LastIndex host ":" -> LastIndex host "]" < LastIndex host ":" ->
       splitHostPort lower_ascii host =
         Ret (lower_ascii (str_take (Z.to_nat (LastIndex host ":")) host),
              str_drop (Z.to_nat (LastIndex host ":")) host)).
Proof.
  intros H. specialize (H ":8080").
  assert (E : splitHostPort lower_ascii ":8080" = Ret (":8080", "")) by reflexivity.
  rewrite E in H. discriminate H; vm_compute; [discriminate | reflexivity].
Qed.

(** ** strings.Split on one byte *)

Lemma split_byte_nonempty (c : ascii) (s : string) : split_byte c s <> [].
Proof.
  induction s as [|d s IH]; simpl; [discriminate|].
  destruct (Ascii.eqb d c); [discriminate|].
  destruct (split_byte c s); [congruence | discriminate].
Qed.

Lemma split_byte_length (c : ascii) (s : string) :
  length (split_byte c s) = S (count_byte c s).
Proof.
  induction s as [|d s IH]; simpl; [reflexivity|].
  destruct (Ascii.eqb d c); simpl; [now rewrite IH|].
  destruct (split_byte c s) eqn:E; simpl in *; [discriminate | exact IH].
Qed.

Lemma split_byte_none (c : ascii) (s : string) :
  has_byte c s = false -> split_byte c s = [s].
Proof.
  induction s as [|d s IH]; simpl; [reflexivity|].
  intros H. apply orb_false_iff in H as [-> H]. now rewrite (IH H).
Qed.

Lemma split_byte_app (c : ascii) (s t : string) :
  has_byte c s = false ->
  split_byte c (s +:+ String c t) = s :: split_byte c t.
Proof.
  induction s as [|d s IH]; intros H.
  - rewrite app_empty_l. simpl. now rewrite Ascii.eqb_refl.
  - simpl in H. apply orb_false_iff in H as [Hd H].
    rewrite app_String. simpl. rewrite Hd, (IH H). reflexivity.
Qed.

(** ** basicAuth *)

Section BasicAuthProps.
Variable TrimSpace : string -> string.
Variable DecodeString : string -> option string.

Lemma basicAuth_accepts (S token p0 p1 : string) :
  split_byte " " token = [p0; p1] ->
  DecodeString (TrimSpace p1) = Some S ->
  basicAuth TrimSpace DecodeString S token = S.
Proof.
  intros E D. unfold basicAuth. rewrite E, D. now rewrite String.eqb_refl.
Qed.

(** C7: with the secret [S], [basicAuth] returns [S] when the credential
    splits on spaces into exactly two parts (it holds exactly one space) and
    the trimmed second part decodes to [S]; it returns the empty string when
    the split does not give two parts, when decoding fails, and when the
    decoded string is not [S].  For a non-empty [S] these are the only
    credentials that return [S]. *)
Theorem basicAuth_spec (S token : string) :
  (forall p0 p1 : string,
     split_byte " " token = [p0; p1] ->
     DecodeString (TrimSpace p1) = Some S ->
     basicAuth TrimSpace DecodeString S token = S) /\
  (length (split_byte " " token) <> 2%nat ->
     basicAuth TrimSpace DecodeString S token = "") /\
  (count_byte " " token <> 1%nat ->
     basicAuth TrimSpace DecodeString S token = "") /\
  (forall p0 p1 : string,
     split_byte " " token = [p0; p1] ->
     DecodeString (TrimSpace p1) = None ->
     basicAuth TrimSpace DecodeString S token = "") /\
  (forall p0 p1 s : string,
     split_byte " " token = [p0; p1] ->
     DecodeString (TrimSpace p1) = Some s -> s <> S ->
     basicAuth TrimSpace DecodeString S token = "") /\
  (S <> "" ->
     (basicAuth TrimSpace DecodeString S token = S <->
      exists p0 p1 : string,
        split_byte " " token = [p0; p1] /\
        DecodeString (TrimSpace p1) = Some S)).
Proof.
  assert (Two : length (split_byte " " token) <> 2%nat ->
                basicAuth TrimSpace DecodeString S token = "").
  { intros H. unfold basicAuth.
    destruct (split_byte " " token) as [|p0 [|p1 [|p2 ps]]]; try reflexivity.
    now elim H. }
  split; [apply basicAuth_accepts|]. split; [exact Two|]. split; [|split; [|split]].
  - intros H. apply Two. rewrite split_byte_length. lia.
  - intros p0 p1 E D. unfold basicAuth. now rewrite E, D.
  - intros p0 p1 s E D N. unfold basicAuth. rewrite E, D.
    destruct (String.eqb_spec s S); [contradiction | reflexivity].
  - intros Hne. split.
    + intros H. unfold basicAuth in H.
      destruct (split_byte " " token) as [|p0 [|p1 [|p2 ps]]];
        try (now elim Hne).
      exists p0, p1. split; [reflexivity|].
      destruct (DecodeString (TrimSpace p1)) as [pa|]; [|now elim Hne].
      destruct (String.eqb_spec pa S) as [Heq|Hneq];
        [now rewrite Heq | now elim Hne].
    + intros (p0 & p1 & E & D). now apply (basicAuth_accepts S token p0 p1).
Qed.

(** The spec's example: the credential ["Basic " + base64(S)]. *)
Lemma basicAuth_Basic (EncodeToString : string -> string) (S : string) :
  has_byte " " (EncodeToString S) = false ->
  DecodeString (TrimSpace (EncodeToString S)) = Some S ->
  basicAuth TrimSpace DecodeString S ("Basic " +:+ EncodeToString S) = S.
Proof.
  intros Hsp Hdec.
  apply (basicAuth_accepts S _ "Basic" (EncodeToString S)); [|exact Hdec].
  change ("Basic " +:+ EncodeToString S)
    with ("Basic" +:+ String " " (EncodeToString S)).
  rewrite split_byte_app by reflexivity. now rewrite split_byte_none.
Qed.

End BasicAuthProps.

Example basicAuth_runs :
  basicAuth (fun s => s) Some "secret" "Basic secret" = "secret" /\
  basicAuth (fun s => s) Some "secret" "Basic other" = "" /\
  basicAuth (fun s => s) Some "secret" "Basic  secret" = "" /\
  basicAuth (fun s => s) (fun _ => None) "secret" "Basic secret" = "".
Proof. repeat split; reflexivity. Qed.

(** ** The descriptor codec *)

Section DescriptorCodecProps.
Variable Base41Encode : list ascii -> string.
Variable Base41Decode : string -> list ascii * bool.
Variable GCM_Seal : list ascii -> list ascii -> list ascii.
Variable GCM_Open : list ascii -> list ascii -> list ascii * option error.
Variable Marshal : clientRequest -> list ascii.
Variable Unmarshal : clientRequest -> list ascii -> clientRequest * option error.

Local Abbreviation Seal := (encryptClientRequest Base41Encode GCM_Seal Marshal).
Local Abbreviation Open := (decryptClientRequest Base41Decode GCM_Open Unmarshal).

(** C3: [decryptClientRequest] returns nil when the Base41 text does not
    decode, when the decoded bytes are fewer than the 16 of the IV, when the
    GCM open fails and when [Unmarshal] fails; these are the only ways it
    returns nil, and in each of them the caller gets nil and no descriptor. *)
Theorem decryptClientRequest_invalid (url : string) :
  let buf := fst (Base41Decode url) in
  let iv := skipn (length buf - ivLen) buf in
  let opened := GCM_Open (firstn 12 iv) (firstn (length buf - ivLen) buf) in
  (snd (Base41Decode url) = false \/
   (length buf < ivLen)%nat \/
   snd opened <> None \/
   snd (Unmarshal (fresh_with_iv iv) (fst opened)) <> None)
  <-> fst (Open url) = None.
Proof.
  cbv zeta. unfold decryptClientRequest, fresh_with_iv.
  destruct (Base41Decode url) as [buf ok]. cbn [fst snd].
  destruct ok; cbn [negb orb].
  2: { split; [reflexivity | now left]. }
  destruct (Nat.ltb_spec (length buf) ivLen) as [Hl|Hl].
  { split; [reflexivity | now right; left]. }
  destruct (GCM_Open _ _) as [pt [e|]]; cbn [fst snd].
  { split; [reflexivity | intros _; right; right; left; discriminate]. }
  cbn [new_clientRequest cr_Auth cr_Real cr_IV cr_Opt].
  destruct (Unmarshal _ pt) as [r [e|]]; cbn [fst snd].
  { split; [reflexivity | intros _; right; right; right; discriminate]. }
  split; [|discriminate].
  intros [H|[H|[H|H]]]; try discriminate; try lia; now elim H.
Qed.

Hypothesis Base41_inverse :
  forall bs : list ascii, Base41Decode (Base41Encode bs) = (bs, true).
Hypothesis GCM_inverse :
  forall nonce pt : list ascii,
    length nonce = 12%nat -> GCM_Open nonce (GCM_Seal nonce pt) = (pt, None).
(** [Unmarshal] into a receiver that already holds the IV restores the
    descriptor that was marshalled. *)
Hypothesis Marshal_inverse :
  forall D r0 : clientRequest,
    cr_IV r0 = cr_IV D -> Unmarshal r0 (Marshal D) = (D, None).

(** C1: sealing a descriptor with a 16-byte IV and opening the text gives a
    non-nil descriptor equal to the one sealed, IV included, and logs
    nothing. *)
Theorem decrypt_encrypt_ClientRequest (D : clientRequest) :
  length (cr_IV D) = ivLen ->
  Open (Seal D) = (Some D, []).
Proof.
  intros HIV. unfold decryptClientRequest, encryptClientRequest.
  rewrite Base41_inverse. cbn [negb orb].
  set (ct := GCM_Seal (firstn 12 (cr_IV D)) (Marshal D)).
  assert (L : (length (ct ++ cr_IV D) - ivLen = length ct)%nat)
    by (rewrite length_app, HIV; lia).
  replace (length (ct ++ cr_IV D) <? ivLen)%nat with false
    by (symmetry; apply Nat.ltb_ge; rewrite length_app, HIV; lia).
  rewrite L, drop_app_length, take_app_length.
  unfold ct. rewrite GCM_inverse
    by (rewrite length_firstn, HIV; unfold ivLen; lia).
  rewrite (Marshal_inverse D); [reflexivity|].
  cbn [cr_IV new_clientRequest]. unfold copy_bytes.
  assert (Z0 : length zeroIV = ivLen) by apply repeat_length.
  rewrite Z0, <- HIV, firstn_all, HIV, <- Z0, skipn_all. apply app_nil_r.
Qed.

End DescriptorCodecProps.

(** *** A codec that meets the hypotheses: the codec of the examples *)

Module CodecFacts.
Import CodecModel.

Lemma pos_of_bytes_of_pos (p : positive) : pos_of_bytes (bytes_of_pos p) = p.
Proof. induction p; simpl; congruence. Qed.

Lemma Base41_inverse (bs : list ascii) : Base41Decode (Base41Encode bs) = (bs, true).
Proof.
  unfold Base41Decode, Base41Encode. now rewrite list_ascii_of_string_of_list_ascii.
Qed.

Lemma GCM_inverse (nonce pt : list ascii) :
  length nonce = 12%nat -> GCM_Open nonce (GCM_Seal nonce pt) = (pt, None).
Proof.
  intros _. unfold GCM_Open, GCM_Seal.
  rewrite take_app_length, drop_app_length. now rewrite decide_True.
Qed.

Lemma Marshal_inverse (D r0 : clientRequest) :
  cr_IV r0 = cr_IV D -> Unmarshal r0 (Marshal D) = (D, None).
Proof.
  intros E. unfold Unmarshal, Marshal.
  rewrite pos_of_bytes_of_pos, decode_encode, E. now destruct D.
Qed.

End CodecFacts.

Lemma decrypt_encrypt_ClientRequest_witness :
  decryptClientRequest CodecModel.Base41Decode CodecModel.GCM_Open
    CodecModel.Unmarshal
    (encryptClientRequest CodecModel.Base41Encode CodecModel.GCM_Seal
       CodecModel.Marshal CodecModel.sample)
  = (Some CodecModel.sample, []).
Proof.
  apply (decrypt_encrypt_ClientRequest _ _ _ _ _ _ CodecFacts.Base41_inverse
           CodecFacts.GCM_inverse CodecFacts.Marshal_inverse CodecModel.sample).
  reflexivity.
Defined.

(** A tampered text does not open in this codec. *)
Example decryptClientRequest_tampered :
  fst (decryptClientRequest CodecModel.Base41Decode CodecModel.GCM_Open
         CodecModel.Unmarshal "not-a-sealed-descriptor-0123456789abcdef") = None /\
  fst (decryptClientRequest CodecModel.Base41Decode CodecModel.GCM_Open
         CodecModel.Unmarshal "short") = None.
Proof. split; reflexivity. Qed.

(** ** readUntil *)

(** The spec's example: the header block is returned with its marker and the
    body stays in the reader. *)
Example readUntil_header_block :
  readUntil (reader_of ("X: 1" +:+ CRLF +:+ CRLF +:+ "BODY")) (CRLF +:+ CRLF)
  = Ret (inl (list_ascii_of_string ("X: 1" +:+ CRLF +:+ CRLF)), reader_of "BODY") /\
  unread (reader_of "BODY") = "BODY".
Proof. split; reflexivity. Qed.

Example readUntil_not_found :
  readUntil (reader_of "X: 1") (CRLF +:+ CRLF)
  = Ret (inr (ErrNotFound (CRLF +:+ CRLF)), []).
Proof. reflexivity. Qed.

(** C8 at its failing input: the stream "ab" ends without holding the marker
    "bb".  The third [Read] returns [0, io.EOF] and leaves [buf[0] = 'b'] from
    the second; line 365 compares that stale byte with [eoh[1]] and takes it
    for the end of the marker, so the call returns "ab" and no error instead
    of the not-found error. *)
Theorem readUntil_stale_byte :
  readUntil (reader_of "ab") "bb" = Ret (inl (list_ascii_of_string "ab"), []) /\
  Index "ab" "bb" = -1.
Proof. split; reflexivity. Qed.

(** The same comparison takes the zero byte the buffer starts with for a
    byte of the stream, and an empty marker makes [eoh[eidx]] panic. *)
Example readUntil_initial_byte :
  readUntil [] (String zero "") = Ret (inl [], []) /\
  readUntil (reader_of "abc") "" = Panic.
Proof. split; reflexivity. Qed.

(** Whatever the marker, no byte is lost: the bytes returned and the bytes
    left in the reader are the bytes the reader held. *)
Lemma readUntil_loop_consumed (r : Reader) (eoh : string) (buf0 : ascii)
    (respbuf : list ascii) (eidx : Z) (bs : list ascii) (r' : Reader) :
  readUntil_loop r eoh buf0 respbuf eidx = Ret (inl bs, r') ->
  bs ++ list_ascii_of_string (unread r')
  = respbuf ++ list_ascii_of_string (unread r).
Proof.
  revert buf0 respbuf eidx.
  induction r as [|[b err] r IH]; intros buf0 respbuf eidx H.
  - cbn [readUntil_loop readUntil_step] in H.
    destruct (byte_at eoh eidx) as [e|]; [|discriminate H].
    rewrite bind_Ret in H.
    destruct (Ascii.eqb buf0 e); [destruct (eidx + 1 =? len eoh)|];
      rewrite bind_Ret in H; cbn in H; congruence.
  - cbn [readUntil_loop readUntil_step] in H.
    destruct (byte_at eoh eidx) as [e|]; [|discriminate H].
    rewrite bind_Ret in H.
    assert (Next : forall c rb,
              rb ++ list_ascii_of_string (unread r)
              = respbuf ++ list_ascii_of_string (unread ((b, err) :: r)) ->
              forall i, readUntil_loop r eoh c rb i = Ret (inl bs, r') ->
              bs ++ list_ascii_of_string (unread r')
              = respbuf ++ list_ascii_of_string (unread ((b, err) :: r))).
    { intros c rb E i Hi. rewrite <- E. now apply (IH c rb i). }
    destruct b as [c|]; cbn [unread list_ascii_of_string] in *.
    + assert (E : (respbuf ++ [c]) ++ list_ascii_of_string (unread r)
                  = respbuf ++ c :: list_ascii_of_string (unread r))
        by now rewrite <- app_assoc.
      destruct (Ascii.eqb c e); [destruct (eidx + 1 =? len eoh)|];
        rewrite bind_Ret in H; destruct err as [[]|]; cbn in H;
        try discriminate H; try (injection H as <- <-; exact E);
        apply (Next _ _ E _ H).
    + destruct (Ascii.eqb buf0 e); [destruct (eidx + 1 =? len eoh)|];
        rewrite bind_Ret in H; destruct err as [[]|]; cbn in H;
        try discriminate H; try (injection H as <- <-; reflexivity);
        apply (Next _ _ eq_refl _ H).
Qed.

Lemma unread_reader_of (data : string) : unread (reader_of data) = data.
Proof.
  unfold reader_of. induction data as [|c data IH]; [reflexivity|].
  cbn [list_ascii_of_string map unread]. now rewrite IH.
Qed.

Lemma string_of_list_ascii_app (a b : list ascii) :
  string_of_list_ascii (a ++ b) = string_of_list_ascii a +:+ string_of_list_ascii b.
Proof.
  induction a as [|c a IH]; [reflexivity|].
  cbn [string_of_list_ascii app]. now rewrite app_String, IH.
Qed.

Lemma readUntil_consumed (data eoh : string) (bs : list ascii) (r' : Reader) :
  readUntil (reader_of data) eoh = Ret (inl bs, r') ->
  string_of_list_ascii bs +:+ unread r' = data.
Proof.
  intros H. apply readUntil_loop_consumed in H. cbn [app] in H.
  rewrite unread_reader_of in H.
  rewrite <- (string_of_list_ascii_of_string data), <- H.
  now rewrite string_of_list_ascii_app, string_of_list_ascii_of_string.
Qed.

(** ** http.Header keys *)

Lemma canonical_loop_length (s : string) (upper : bool) :
  String.length (canonical_loop upper s) = String.length s.
Proof.
  revert upper. induction s as [|c s IH]; intros upper; simpl; [reflexivity|].
  now rewrite IH.
Qed.

Lemma CanonicalMIMEHeaderKey_len (k : string) : len (CanonicalMIMEHeaderKey k) = len k.
Proof.
  unfold CanonicalMIMEHeaderKey, len.
  destruct (str_forallb validHeaderFieldByte k); [|reflexivity].
  now rewrite canonical_loop_length.
Qed.

(** ** The header-stripping pass of decryptRequest *)

Section DecryptRequestProps.
Variable ToLower : string -> string.
Local Abbreviation strip_cond := (strip_cond ToLower).

Lemma decryptRequest_strip_step (k : string) (order : list string) (h : Header) :
  is_Some (h !! k) -> 3 <= len k ->
  decryptRequest_strip ToLower (k :: order) h =
  decryptRequest_strip ToLower order (if strip_cond k then Header_Del k h else h).
Proof.
  intros [vs E] L. cbn [decryptRequest_strip]. rewrite E.
  rewrite (slice_from_start k 3), bind_Ret by lia. unfold strip_cond.
  change (Z.to_nat 3) with 3%nat.
  destruct (String.eqb (str_take 3 k) "Cf-"); [reflexivity|]. cbn [orb].
  destruct (Z.ltb_spec 12 (len k)); [|reflexivity].
  now rewrite (slice_from_start k 12), bind_Ret by lia.
Qed.

Lemma decryptRequest_strip_short (k : string) (order : list string) (h : Header) :
  is_Some (h !! k) -> len k < 3 -> decryptRequest_strip ToLower (k :: order) h = Panic.
Proof.
  intros [vs E] L. cbn [decryptRequest_strip]. rewrite E.
  rewrite (slice_panics k 0 3) by lia. reflexivity.
Qed.

Lemma decryptRequest_strip_panics (order : list string) (h : Header) (k : string) :
  k ∈ order -> is_Some (h !! k) -> len k < 3 ->
  decryptRequest_strip ToLower order h = Panic.
Proof.
  revert h. induction order as [|k0 order IH]; intros h Hin Hk L.
  - now apply elem_of_nil in Hin.
  - destruct (decide (k0 = k)) as [->|Hne].
    { now apply decryptRequest_strip_short. }
    apply elem_of_cons in Hin as [Heq|Hin]; [congruence|].
    destruct (h !! k0) as [vs0|] eqn:E0.
    2: { cbn [decryptRequest_strip]. rewrite E0. now apply IH. }
    destruct (Z.lt_ge_cases (len k0) 3) as [L0|L0].
    { apply decryptRequest_strip_short; [now rewrite E0 | exact L0]. }
    rewrite decryptRequest_strip_step by (rewrite ?E0; eauto || lia).
    apply IH; [exact Hin| |exact L].
    destruct (strip_cond k0); [|exact Hk].
    unfold Header_Del. rewrite lookup_delete_ne; [exact Hk|].
    intros Heq. pose proof (CanonicalMIMEHeaderKey_len k0) as Hl.
    rewrite Heq in Hl. lia.
Qed.

Lemma decryptRequest_strip_returns (order : list string) (h : Header) :
  (forall k, is_Some (h !! k) -> 3 <= len k) ->
  exists h', decryptRequest_strip ToLower order h = Ret h'.
Proof.
  revert h. induction order as [|k order IH]; intros h Hall.
  - now exists h.
  - destruct (h !! k) as [vs|] eqn:E.
    2: { cbn [decryptRequest_strip]. rewrite E. now apply IH. }
    rewrite decryptRequest_strip_step by (rewrite ?E; eauto).
    apply IH. intros k' Hk'. apply Hall.
    destruct (strip_cond k); [|exact Hk'].
    unfold Header_Del in Hk'.
    destruct (decide (CanonicalMIMEHeaderKey k = k')) as [<-|Hne].
    + rewrite lookup_delete_eq in Hk'. now destruct Hk'.
    + now rewrite lookup_delete_ne in Hk'.
Qed.

(** C6: the stripping pass panics exactly when the header holds a key shorter
    than 3 bytes, whatever the order of the range over the map: [k[:3]] is
    evaluated for every key the loop reaches, and no deletion removes a short
    key before it is reached. *)
Theorem decryptRequest_strip_partial (order : list string) (h : Header) :
  range_order order h ->
  (decryptRequest_strip ToLower order h = Panic <->
   exists k : string, is_Some (h !! k) /\ len k < 3).
Proof.
  intros [_ Hord]. split.
  - intros HP.
    destruct (decide (Exists (fun k => len k < 3) order)) as [Hex|Hno].
    + apply Exists_exists in Hex as (k & Hin & L). exists k. split; [|exact L].
      now apply Hord.
    + destruct (decryptRequest_strip_returns order h) as [h' Hh']; [|congruence].
      intros k Hk. destruct (Z.lt_ge_cases (len k) 3) as [L|L]; [|exact L].
      elim Hno. apply Exists_exists. exists k. split; [|exact L].
      now apply Hord.
  - intros (k & Hk & L). apply (decryptRequest_strip_panics order h k); auto.
    now apply Hord.
Qed.

End DecryptRequestProps.

Lemma decryptRequest_strip_partial_witness :
  decryptRequest_strip lower_ascii ["Te"] {["Te" := ["trailers"]]} = Panic <->
  exists k : string,
    is_Some (({["Te" := ["trailers"]]} : Header) !! k) /\ len k < 3.
Proof.
  apply (decryptRequest_strip_partial lower_ascii ["Te"] {["Te" := ["trailers"]]}).
  split; [apply NoDup_singleton|].
  intros k. rewrite list_elem_of_singleton.
  destruct (decide (k = "Te")) as [->|Hne].
  - rewrite lookup_singleton_eq. split; eauto.
  - rewrite lookup_singleton_ne by congruence. split; [congruence|].
    intros [? ?]; discriminate.
Defined.

(** The whole function on a request that carries the header [TE]. *)
Example decryptRequest_panics_on_Te :
  decryptRequest (Rand := unit) lower_ascii (fun _ => []) Cookie_Value unit
    (fun b _ => b)
    {| Alias := "abcdef"; Encrypt := fun s _ => s;
       Decrypt := fun s _ => (s, None); Jibber := fun r => ("word", r) |}
    ["Cookie"; "Te"]
    {| req_Header := {["Te" := ["trailers"]]}; req_Body := tt |}
    (list_ascii_of_string "0123456789abcdef")
  = Panic.
Proof. vm_compute. reflexivity. Qed.

(** ** copyHeaders: one Set-Cookie value in the decrypting direction *)

Lemma Index_range (s sep : string) : -1 <= Index s sep <= len s.
Proof.
  induction s as [|c s IH]; cbn [Index].
  - destruct (String.prefix sep ""); unfold len; simpl; lia.
  - rewrite len_String. destruct (String.prefix sep (String c s)); [lia|].
    destruct (Z.ltb_spec (Index s sep) 0); lia.
Qed.

Lemma HasSuffix_split (s suffix : string) :
  HasSuffix s suffix = true ->
  (String.length suffix <= String.length s)%nat /\
  s = str_take (String.length s - String.length suffix) s +:+ suffix.
Proof.
  unfold HasSuffix. intros H. apply andb_true_iff in H as [L E].
  apply Nat.leb_le in L. apply String.eqb_eq in E. split; [exact L|].
  rewrite <- (str_take_drop (String.length s - String.length suffix) s) at 1.
  now rewrite E.
Qed.

Lemma HasSuffix_app (s suffix : string) : HasSuffix (s +:+ suffix) suffix = true.
Proof.
  unfold HasSuffix. apply andb_true_iff. split.
  - apply Nat.leb_le. pose proof (len_app s suffix) as H. unfold len in H. lia.
  - apply String.eqb_eq.
    replace (String.length (s +:+ suffix) - String.length suffix)%nat
      with (String.length s)
      by (pose proof (len_app s suffix) as H; unfold len in H; lia).
    apply str_drop_app.
Qed.

Section CopyValueProps.
Context {Rand : Type}.
Variable ToLower : string -> string.
Variable gc : Cipher Rand.
Variable iv : IV.
Hypothesis iv_set : iv_nonzero iv = true.

Lemma copy_value_setcookie_dec (k v : string) (dst : Header) (buf : string) :
  ToLower k = "set-cookie" ->
  copy_value ToLower gc false iv k v (dst, buf) =
    (c ← cookie_payload v;
     let d := fst (Decrypt gc c iv) in
     if negb (HasSuffix d (Alias gc)) then Ret (dst, buf)
     else d' ← slice d 0 (len d - 6); Ret (add_split k d' dst, buf)).
Proof.
  intros Hk. unfold copy_value, cookie_payload. rewrite Hk, iv_set. reflexivity.
Qed.

(** The decrypting branch on one Set-Cookie value whose first ';' (or end)
    is not before the byte after its first '=': the bytes between them are
    decrypted; a decrypted string that does not end with the alias marker is
    discarded; one that does and is at least 6 bytes long loses its last 6
    bytes, which is the alias marker when the marker is 6 bytes long, and
    the rest is added as a normal value. *)
Theorem copy_value_decrypt_setcookie (k v c : string) (dst : Header) (buf : string) :
  ToLower k = "set-cookie" ->
  cookie_payload v = Ret c ->
  let d := fst (Decrypt gc c iv) in
  (Index v "=" + 1 <= (if Index v ";" =? -1 then len v else Index v ";") /\
   c = str_take (Z.to_nat ((if Index v ";" =? -1 then len v else Index v ";")
                           - (Index v "=" + 1)))
         (str_drop (Z.to_nat (Index v "=" + 1)) v)) /\
  (HasSuffix d (Alias gc) = false ->
   copy_value ToLower gc false iv k v (dst, buf) = Ret (dst, buf)) /\
  (HasSuffix d (Alias gc) = true -> 6 <= len d ->
   copy_value ToLower gc false iv k v (dst, buf) =
     Ret (add_split k (str_take (Z.to_nat (len d - 6)) d) dst, buf)) /\
  (HasSuffix d (Alias gc) = true -> len (Alias gc) = 6 ->
   exists rest : string,
     d = rest +:+ Alias gc /\
     copy_value ToLower gc false iv k v (dst, buf) = Ret (add_split k rest dst, buf)).
Proof.
  intros Hk Hc d.
  assert (Strip : HasSuffix d (Alias gc) = true -> 6 <= len d ->
            copy_value ToLower gc false iv k v (dst, buf) =
              Ret (add_split k (str_take (Z.to_nat (len d - 6)) d) dst, buf)).
  { intros Hs Hl. rewrite copy_value_setcookie_dec, Hc, bind_Ret by exact Hk.
    cbv zeta. fold d. rewrite Hs. cbn [negb].
    now rewrite slice_from_start, bind_Ret by lia. }
  split; [|split; [|split; [exact Strip|]]].
  - unfold cookie_payload, slice in Hc.
    destruct ((0 <=? Index v "=" + 1)
              && (Index v "=" + 1 <=? (if Index v ";" =? -1 then len v else Index v ";"))
              && ((if Index v ";" =? -1 then len v else Index v ";") <=? len v))
      eqn:B; [|discriminate].
    apply andb_true_iff in B as [B _]. apply andb_true_iff in B as [_ B].
    apply Z.leb_le in B. split; [exact B | congruence].
  - intros Hs. rewrite copy_value_setcookie_dec, Hc, bind_Ret by exact Hk.
    cbv zeta. fold d. now rewrite Hs.
  - intros Hs Ha. destruct (HasSuffix_split _ _ Hs) as [L E].
    assert (L6 : String.length (Alias gc) = 6%nat) by (unfold len in Ha; lia).
    exists (str_take (String.length d - String.length (Alias gc)) d).
    split; [exact E|]. rewrite Strip; [|exact Hs|unfold len; lia].
    repeat f_equal. unfold len. lia.
Qed.

(** With a decrypted string of fewer than 6 bytes that ends with the marker
    (a marker shorter than 6 bytes), [v[:len(v)-6]] panics. *)
Lemma copy_value_decrypt_short (k v c : string) (dst : Header) (buf : string) :
  ToLower k = "set-cookie" ->
  cookie_payload v = Ret c ->
  HasSuffix (fst (Decrypt gc c iv)) (Alias gc) = true ->
  len (fst (Decrypt gc c iv)) < 6 ->
  copy_value ToLower gc false iv k v (dst, buf) = Panic.
Proof.
  intros Hk Hc Hs Hl. rewrite copy_value_setcookie_dec, Hc, bind_Ret by exact Hk.
  cbv zeta. rewrite Hs. cbn [negb]. now rewrite slice_inverted by lia.
Qed.

(** A value whose first ';' comes before the byte after its first '=' makes
    [v[ei+1:di]] panic. *)
Lemma copy_value_decrypt_inverted (k v : string) (dst : Header) (buf : string) :
  ToLower k = "set-cookie" ->
  (if Index v ";" =? -1 then len v else Index v ";") < Index v "=" + 1 ->
  copy_value ToLower gc false iv k v (dst, buf) = Panic.
Proof.
  intros Hk H. rewrite copy_value_setcookie_dec by exact Hk.
  unfold cookie_payload. now rewrite slice_inverted by exact H.
Qed.

End CopyValueProps.

(** *** The cipher of the examples *)

Module CipherFacts.
Import CipherModel.

Lemma decode_encode_byte (c : ascii) :
  digit_value (digit (N_of_ascii c / 16)) = Some (N_of_ascii c / 16)%N /\
  digit_value (digit (N_of_ascii c mod 16)) = Some (N_of_ascii c mod 16)%N /\
  ascii_of_N (16 * (N_of_ascii c / 16) + N_of_ascii c mod 16) = c.
Proof. destruct c as [[] [] [] [] [] [] [] []]; repeat split; reflexivity. Qed.

Lemma decode_encode_digits (s : string) : decode_digits (encode_digits s) = Some s.
Proof.
  induction s as [|c s IH]; [reflexivity|].
  cbn [encode_digits decode_digits].
  destruct (decode_encode_byte c) as (-> & -> & E). now rewrite IH, E.
Qed.

Lemma digit_plain (c : ascii) (n : N) :
  (n < 16)%N -> (N_of_ascii c < 97)%N -> Ascii.eqb (digit n) c = false.
Proof.
  intros Hn Hc. apply Ascii.eqb_neq. intros E.
  apply (f_equal N_of_ascii) in E. unfold digit in E.
  rewrite N_ascii_embedding in E by lia. lia.
Qed.

Lemma encode_digits_plain (c : ascii) (s : string) :
  (N_of_ascii c < 97)%N -> has_byte c (encode_digits s) = false.
Proof.
  intros Hc. induction s as [|d s IH]; [reflexivity|].
  cbn [encode_digits has_byte].
  rewrite !digit_plain, IH; try exact Hc; try reflexivity.
  - apply N.mod_lt. discriminate.
  - apply N.Div0.div_lt_upper_bound. pose proof (N_ascii_bounded d). lia.
Qed.

Lemma Decrypt_Encrypt (alias s : string) :
  fst (Decrypt (cipher alias) (Encrypt (cipher alias) s iv) iv) = s.
Proof. cbn [Decrypt Encrypt cipher]. now rewrite decode_encode_digits. Qed.

Lemma Encrypt_text (alias s : string) :
  has_byte "=" (Encrypt (cipher alias) s iv) = false /\
  has_byte ";" (Encrypt (cipher alias) s iv) = false.
Proof. split; apply encode_digits_plain; reflexivity. Qed.

Lemma Jibber_text (alias : string) (r : nat) :
  has_byte "=" (fst (Jibber (cipher alias) r)) = false /\
  has_byte ";" (fst (Jibber (cipher alias) r)) = false.
Proof. cbn [Jibber cipher fst]. destruct (Nat.even r); split; reflexivity. Qed.

End CipherFacts.

Lemma copy_value_decrypt_setcookie_witness :
  exists rest : string,
    fst (Decrypt (CipherModel.cipher "a1b2c3")
           (CipherModel.encode_digits "n=1; Path=/a1b2c3") CipherModel.iv)
      = rest +:+ "a1b2c3" /\
    copy_value lower_ascii (CipherModel.cipher "a1b2c3") false CipherModel.iv
      "Set-Cookie"
      ("word=" +:+ CipherModel.encode_digits "n=1; Path=/a1b2c3" +:+ "; HttpOnly")
      (∅, "")
    = Ret (add_split "Set-Cookie" rest ∅, "").
Proof.
  apply (copy_value_decrypt_setcookie lower_ascii (CipherModel.cipher "a1b2c3")
           CipherModel.iv eq_refl "Set-Cookie"
           ("word=" +:+ CipherModel.encode_digits "n=1; Path=/a1b2c3" +:+ "; HttpOnly")
           (CipherModel.encode_digits "n=1; Path=/a1b2c3") ∅ "" eq_refl eq_refl);
    reflexivity.
Defined.

(** Stripping the marker, whatever its length, is not what the branch does:
    with the 2-byte marker "AB" the decrypted value "cookieAB" ends with the
    marker, and the code adds "co" (six bytes shorter), not "cookie". *)
Lemma copy_value_strips_six_bytes :
  ~ (forall (gc : Cipher nat) (iv : IV) (k v c rest : string),
       lower_ascii k = "set-cookie" -> iv_nonzero iv = true ->
       cookie_payload v = Ret c ->
       fst (Decrypt gc c iv) = rest +:+ Alias gc ->
       copy_value lower_ascii gc false iv k v (∅, "")
         = Ret (add_split k rest ∅, "")).
Proof.
  intros H.
  specialize (H (CipherModel.cipher "AB") CipherModel.iv "Set-Cookie"
                ("n=" +:+ CipherModel.encode_digits "cookieAB")
                (CipherModel.encode_digits "cookieAB") "cookie"
                eq_refl eq_refl eq_refl eq_refl).
  apply (f_equal (fun r => match r with
                           | Ret (d, _) => d !! "Set-Cookie"
                           | Panic => None
                           end)) in H.
  vm_compute in H. discriminate H.
Qed.

(** C4: a bug of the code.  The decrypting branch tests at line 280 that the
    decrypted value ends with [gc.Alias], and the encrypting direction
    appends [gc.Alias] at line 313, whatever its length; line 283 then
    strips a literal 6 bytes instead of the marker.  With the 2-byte marker
    "AB" the encrypting direction sends the cookie "cookie" as a combined
    cookie whose payload decrypts to "cookieAB"; the decrypting direction
    finds the marker at its end and adds "co", not "cookie".  And a foreign
    value whose first ';' comes before its first '=', as "foo; Path=/", is
    not discarded: the slice [v[ei+1:di]] of line 279 panics. *)
Theorem copy_value_alias_literal_six :
  let gc := CipherModel.cipher "AB" in
  let sent := "lorem=" +:+ CipherModel.encode_digits "cookieAB"
                +:+ "; Domain=ipsum.com; HttpOnly" in
  copyHeaders lower_ascii [] ∅ [("Set-Cookie", ["cookie"])] gc true CipherModel.iv 0%nat
    = Ret ({["Set-Cookie" := [sent]]}, 2%nat) /\
  cookie_payload sent = Ret (CipherModel.encode_digits "cookieAB") /\
  fst (Decrypt gc (CipherModel.encode_digits "cookieAB") CipherModel.iv)
    = "cookie" +:+ Alias gc /\
  HasSuffix ("cookie" +:+ Alias gc) (Alias gc) = true /\
  copy_value lower_ascii gc false CipherModel.iv "Set-Cookie" sent (∅, "")
    = Ret (add_split "Set-Cookie" "co" ∅, "") /\
  copyHeaders lower_ascii [] ∅ [("Set-Cookie", [sent])] gc false CipherModel.iv 2%nat
    = Ret ({["Set-Cookie" := ["co"]]}, 2%nat) /\
  copy_value lower_ascii gc false CipherModel.iv "Set-Cookie" "foo; Path=/" (∅, "")
    = Panic.
Proof. cbv zeta. repeat split; vm_compute; reflexivity. Qed.

(** ** Keys: lower case and canonical form *)

Lemma canonical_loop_String (upper : bool) (c : ascii) (s : string) :
  canonical_loop upper (String c s) =
  String (canonical_byte upper c)
    (canonical_loop (Ascii.eqb (canonical_byte upper c) "-") s).
Proof. reflexivity. Qed.

Lemma canonical_byte_lower (upper : bool) (c : ascii) :
  canonical_byte upper (lower_byte c) = canonical_byte upper c /\
  lower_byte (canonical_byte upper c) = lower_byte c /\
  Ascii.eqb (canonical_byte upper c) "-" = Ascii.eqb (lower_byte c) "-" /\
  is_ascii_byte (canonical_byte upper c) = is_ascii_byte c.
Proof.
  destruct upper; destruct c as [[] [] [] [] [] [] [] []];
    repeat split; reflexivity.
Qed.

Lemma lower_byte_facts (c : ascii) :
  validHeaderFieldByte (lower_byte c) = validHeaderFieldByte c /\
  lower_byte (lower_byte c) = lower_byte c /\
  is_ascii_byte (lower_byte c) = is_ascii_byte c.
Proof. destruct c as [[] [] [] [] [] [] [] []]; repeat split; reflexivity. Qed.

Lemma canonical_loop_lower (s : string) (upper : bool) :
  canonical_loop upper (lower_ascii s) = canonical_loop upper s.
Proof.
  revert upper. induction s as [|c s IH]; intros upper; [reflexivity|].
  cbn [lower_ascii]. rewrite !canonical_loop_String.
  destruct (canonical_byte_lower upper c) as (E1 & _ & E3 & _).
  destruct (canonical_byte_lower upper (lower_byte c)) as (_ & _ & E3' & _).
  rewrite E3', E1, E3, IH. now rewrite (proj1 (proj2 (lower_byte_facts c))).
Qed.

Lemma lower_canonical_loop (s : string) (upper : bool) :
  lower_ascii (canonical_loop upper s) = lower_ascii s.
Proof.
  revert upper. induction s as [|c s IH]; intros upper; [reflexivity|].
  rewrite canonical_loop_String. cbn [lower_ascii].
  now rewrite IH, (proj1 (proj2 (canonical_byte_lower upper c))).
Qed.

Lemma valid_lower (s : string) :
  str_forallb validHeaderFieldByte (lower_ascii s) = str_forallb validHeaderFieldByte s.
Proof.
  induction s as [|c s IH]; [reflexivity|]. cbn [lower_ascii str_forallb].
  now rewrite IH, (proj1 (lower_byte_facts c)).
Qed.

(** Keys with the same lower case have the same canonical form, when they
    are field names at all. *)
Lemma Canonical_of_lower (k K : string) :
  lower_ascii k = lower_ascii K ->
  str_forallb validHeaderFieldByte K = true ->
  CanonicalMIMEHeaderKey k = CanonicalMIMEHeaderKey K.
Proof.
  intros E V. unfold CanonicalMIMEHeaderKey.
  rewrite <- (valid_lower k), E, valid_lower, V.
  now rewrite <- (canonical_loop_lower k), E, canonical_loop_lower.
Qed.

Lemma lower_Canonical (k : string) :
  lower_ascii (CanonicalMIMEHeaderKey k) = lower_ascii k.
Proof.
  unfold CanonicalMIMEHeaderKey.
  destruct (str_forallb validHeaderFieldByte k); [|reflexivity].
  apply lower_canonical_loop.
Qed.

Lemma is_ascii_canonical_loop (s : string) (upper : bool) :
  is_ascii (canonical_loop upper s) = is_ascii s.
Proof.
  revert upper. induction s as [|c s IH]; intros upper; [reflexivity|].
  rewrite canonical_loop_String. cbn [is_ascii].
  now rewrite IH, (proj2 (proj2 (proj2 (canonical_byte_lower upper c)))).
Qed.

Lemma is_ascii_Canonical (k : string) :
  is_ascii (CanonicalMIMEHeaderKey k) = is_ascii k.
Proof.
  unfold CanonicalMIMEHeaderKey.
  destruct (str_forallb validHeaderFieldByte k); [|reflexivity].
  apply is_ascii_canonical_loop.
Qed.

(** For a canonical field name [K], the keys that [http.Header] files under
    [K] are those that lower-case to the same string. *)
Lemma Canonical_iff_lower (K k : string) :
  str_forallb validHeaderFieldByte K = true ->
  CanonicalMIMEHeaderKey K = K ->
  (CanonicalMIMEHeaderKey k = K <-> lower_ascii k = lower_ascii K).
Proof.
  intros V C. split.
  - intros <-. symmetry. apply lower_Canonical.
  - intros E. rewrite <- C. now apply Canonical_of_lower.
Qed.

Lemma lower_ascii_app (s t : string) :
  lower_ascii (s +:+ t) = lower_ascii s +:+ lower_ascii t.
Proof.
  induction s as [|c s IH]; [reflexivity|].
  rewrite app_String. cbn [lower_ascii]. now rewrite IH, app_String.
Qed.

Lemma lower_ascii_length (s : string) :
  String.length (lower_ascii s) = String.length s.
Proof. induction s as [|c s IH]; simpl; congruence. Qed.

Lemma lower_ascii_drop (n : nat) (s : string) :
  lower_ascii (str_drop n s) = str_drop n (lower_ascii s).
Proof. revert s. induction n as [|n IH]; intros [|c s]; simpl; auto. Qed.

Lemma is_ascii_app (s t : string) : is_ascii (s +:+ t) = is_ascii s && is_ascii t.
Proof.
  induction s as [|c s IH]; [reflexivity|].
  rewrite app_String. cbn [is_ascii]. now rewrite IH, andb_assoc.
Qed.

(** ** http.Header as a multimap *)

Lemma values_lookup (h : Header) (K : string) (vs : list string) :
  h !! K = Some vs -> Header_values h K = vs.
Proof. intros E. unfold Header_values. now rewrite E. Qed.

Lemma values_Add (k v K : string) (h : Header) :
  Header_values (Header_Add k v h) K =
  Header_values h K ++
    (if String.eqb (CanonicalMIMEHeaderKey k) K then [v] else []).
Proof.
  unfold Header_Add, Header_values.
  destruct (String.eqb_spec (CanonicalMIMEHeaderKey k) K) as [->|Hne].
  - now rewrite lookup_insert_eq.
  - rewrite lookup_insert_ne by exact Hne. now rewrite app_nil_r.
Qed.

Lemma adds_app (l1 l2 : list (string * string)) (h : Header) :
  adds (l1 ++ l2) h = adds l2 (adds l1 h).
Proof. apply fold_left_app. Qed.

Lemma values_adds (l : list (string * string)) (h : Header) (K : string) :
  Header_values (adds l h) K = Header_values h K ++ picks K l.
Proof.
  revert h. induction l as [|[k v] l IH]; intros h.
  - now rewrite app_nil_r.
  - cbn [adds fold_left]. fold (adds l (Header_Add k v h)).
    rewrite IH, values_Add, <- app_assoc. reflexivity.
Qed.

Lemma keys_adds (l : list (string * string)) (h : Header) (K : string) :
  is_Some (adds l h !! K) ->
  is_Some (h !! K) \/ exists kv, kv ∈ l /\ CanonicalMIMEHeaderKey (fst kv) = K.
Proof.
  revert h. induction l as [|[k v] l IH]; intros h H; [now left|].
  cbn [adds fold_left] in H. fold (adds l (Header_Add k v h)) in H.
  destruct (IH _ H) as [H1|(kv & Hin & E)].
  - unfold Header_Add in H1.
    destruct (decide (CanonicalMIMEHeaderKey k = K)) as [E|Hne].
    + right. exists (k, v). split; [apply elem_of_cons; now left | exact E].
    + left. now rewrite lookup_insert_ne in H1.
  - right. exists kv. split; [apply elem_of_cons; now right | exact E].
Qed.

Lemma picks_app (K : string) (l1 l2 : list (string * string)) :
  picks K (l1 ++ l2) = picks K l1 ++ picks K l2.
Proof. apply flat_map_app. Qed.

Lemma picks_flat_map {A : Type} (K : string) (f : A -> list (string * string))
    (l : list A) :
  picks K (flat_map f l) = flat_map (fun a => picks K (f a)) l.
Proof.
  induction l as [|a l IH]; [reflexivity|].
  cbn [flat_map]. now rewrite picks_app, IH.
Qed.

Lemma picks_none (K : string) (l : list (string * string)) :
  (forall kv, kv ∈ l -> CanonicalMIMEHeaderKey (fst kv) <> K) -> picks K l = [].
Proof.
  induction l as [|kv l IH]; intros H; [reflexivity|].
  cbn [picks flat_map]. fold (picks K l).
  destruct (String.eqb_spec (CanonicalMIMEHeaderKey (fst kv)) K) as [E|_].
  - exfalso. apply (H kv); [apply elem_of_cons; now left | exact E].
  - apply IH. intros kv' Hin. apply H, elem_of_cons. now right.
Qed.

Lemma picks_all (K k : string) (vs : list string) :
  CanonicalMIMEHeaderKey k = K -> picks K (map (pair k) vs) = vs.
Proof.
  intros E. induction vs as [|v vs IH]; [reflexivity|].
  cbn [map picks flat_map fst snd]. fold (picks K (map (pair k) vs)).
  rewrite IH, E, String.eqb_refl. reflexivity.
Qed.

Lemma add_split_adds (k v : string) (dst : Header) :
  add_split k v dst = adds (map (pair k) (split_byte "010" v)) dst.
Proof.
  unfold add_split, adds. generalize (split_byte "010" v) as l.
  intros l. revert dst. induction l as [|x l IH]; intros dst; [reflexivity|].
  cbn [map fold_left fst snd]. apply IH.
Qed.

(** *** The clearing loop *)

Lemma clear_headers_cons (k : string) (order : list string) (d : Header) :
  clear_headers (k :: order) d =
  clear_headers order (match d !! k with Some _ => Header_Del k d | None => d end).
Proof. reflexivity. Qed.

Lemma clear_headers_subset (order : list string) (d : Header) (K : string) :
  is_Some (clear_headers order d !! K) -> is_Some (d !! K).
Proof.
  revert d. induction order as [|k order IH]; intros d H; [exact H|].
  rewrite clear_headers_cons in H. apply IH in H.
  destruct (d !! k); [|exact H]. unfold Header_Del in H.
  destruct (decide (CanonicalMIMEHeaderKey k = K)) as [<-|Hne].
  - rewrite lookup_delete_eq in H. now destruct H.
  - now rewrite lookup_delete_ne in H.
Qed.

(** No canonical key outlives the loop. *)
Lemma clear_headers_canonical (order : list string) (d : Header) (K : string) :
  CanonicalMIMEHeaderKey K = K ->
  K ∈ order \/ d !! K = None ->
  clear_headers order d !! K = None.
Proof.
  intros C. revert d. induction order as [|k order IH]; intros d H.
  - destruct H as [H|H]; [now apply elem_of_nil in H | exact H].
  - rewrite clear_headers_cons. apply IH.
    destruct (d !! K) as [vs|] eqn:EK.
    2: { right. destruct (d !! k); [|exact EK]. unfold Header_Del.
         destruct (decide (CanonicalMIMEHeaderKey k = K)) as [<-|Hne].
         - apply lookup_delete_eq.
         - now rewrite lookup_delete_ne. }
    destruct H as [H|H]; [|discriminate].
    apply elem_of_cons in H as [->|H]; [|now left].
    right. rewrite EK. unfold Header_Del. rewrite C. apply lookup_delete_eq.
Qed.

Lemma values_clear_headers (order : list string) (d : Header) (K : string) :
  range_order order d -> CanonicalMIMEHeaderKey K = K ->
  Header_values (clear_headers order d) K = [].
Proof.
  intros [_ Hord] C. unfold Header_values.
  rewrite clear_headers_canonical; [reflexivity | exact C|].
  destruct (d !! K) eqn:E; [left|now right]. apply Hord. now rewrite E.
Qed.

Lemma clear_headers_empty (order : list string) (d : Header) :
  range_order order d ->
  (forall k, is_Some (d !! k) -> CanonicalMIMEHeaderKey k = k) ->
  clear_headers order d = ∅.
Proof.
  intros [Hnd Hord] Hc. apply map_eq. intros K. rewrite lookup_empty.
  destruct (clear_headers order d !! K) as [vs|] eqn:E; [|reflexivity].
  assert (HK : is_Some (d !! K)) by (apply (clear_headers_subset order); now rewrite E).
  rewrite clear_headers_canonical in E; [discriminate | now apply Hc|].
  left. now apply Hord.
Qed.

(** ** The combined cookie as text *)

Lemma buffer_Trunc_last (t : ascii) (s : string) :
  buffer_Trunc t (s +:+ String t "") = s.
Proof.
  induction s as [|c s IH].
  - rewrite app_empty_l. simpl. now rewrite Ascii.eqb_refl.
  - rewrite app_String. cbn [buffer_Trunc].
    destruct (s +:+ String t "") eqn:E.
    + destruct s; discriminate.
    + now rewrite IH.
Qed.

Lemma buffer_Trunc_app (t : ascii) (s r : string) :
  r <> "" -> buffer_Trunc t (s +:+ r) = s +:+ buffer_Trunc t r.
Proof.
  intros Hr. induction s as [|c s IH]; [reflexivity|].
  rewrite !app_String. cbn [buffer_Trunc].
  destruct (s +:+ r) eqn:E.
  - destruct s; [now elim Hr | discriminate].
  - now rewrite IH.
Qed.

Lemma buffer_Trunc_cookie_lines (vs : list string) :
  buffer_Trunc "010" (cookie_lines vs) = join_lines vs.
Proof.
  induction vs as [|v vs IH]; [reflexivity|].
  cbn [cookie_lines]. destruct vs as [|v' vs].
  - apply buffer_Trunc_last.
  - change (String "010" (cookie_lines (v' :: vs)))
      with (String "010" "" +:+ cookie_lines (v' :: vs)).
    rewrite <- app_assoc_s, buffer_Trunc_app, IH.
    + now rewrite app_assoc_s.
    + cbn [cookie_lines]. destruct v'; discriminate.
Qed.

Lemma cookie_lines_len (vs : list string) :
  (0 <? len (cookie_lines vs)) = negb (bool_decide (vs = [])).
Proof.
  destruct vs as [|v vs]; [reflexivity|]. cbn [cookie_lines].
  rewrite len_app, len_String.
  pose proof (len_nonneg v). pose proof (len_nonneg (cookie_lines vs)).
  rewrite bool_decide_eq_false_2 by discriminate.
  apply Z.ltb_lt. lia.
Qed.

Lemma split_byte_sep (c : ascii) (s t : string) :
  split_byte c (s +:+ String c t) = split_byte c s ++ split_byte c t.
Proof.
  induction s as [|d s IH].
  - rewrite app_empty_l. simpl. now rewrite Ascii.eqb_refl.
  - rewrite app_String. cbn [split_byte]. rewrite IH.
    destruct (Ascii.eqb d c); [reflexivity|].
    pose proof (split_byte_nonempty c s).
    destruct (split_byte c s); [congruence | reflexivity].
Qed.

Lemma split_join_lines (vs : list string) :
  vs <> [] ->
  split_byte "010" (join_lines vs) = flat_map (split_byte "010") vs.
Proof.
  induction vs as [|v vs IH]; intros H; [congruence|].
  destruct vs as [|v' vs].
  - cbn [join_lines flat_map]. now rewrite app_nil_r.
  - change (join_lines (v :: v' :: vs))
      with (v +:+ String "010" (join_lines (v' :: vs))).
    rewrite split_byte_sep, IH by discriminate. reflexivity.
Qed.

Lemma flat_map_split_plain (vs : list string) :
  (forall v, v ∈ vs -> has_byte "010" v = false) ->
  flat_map (split_byte "010") vs = vs.
Proof.
  induction vs as [|v vs IH]; intros H; [reflexivity|].
  cbn [flat_map]. rewrite split_byte_none by (apply H, elem_of_cons; now left).
  rewrite IH; [reflexivity|]. intros v' Hin. apply H, elem_of_cons. now right.
Qed.

Lemma prefix_byte (c d : ascii) (t : string) :
  String.prefix (String c "") (String d t) = Ascii.eqb d c.
Proof.
  cbn [String.prefix]. destruct (ascii_dec c d) as [->|Hne].
  - rewrite Ascii.eqb_refl. now destruct t.
  - symmetry. apply Ascii.eqb_neq. congruence.
Qed.

Lemma Index_String (c d : ascii) (t : string) :
  Index (String d t) (String c "") =
  if Ascii.eqb d c then 0
  else if Index t (String c "") <? 0 then -1 else Index t (String c "") + 1.
Proof.
  change (Index (String d t) (String c ""))
    with (if String.prefix (String c "") (String d t) then 0
          else if Index t (String c "") <? 0 then -1 else Index t (String c "") + 1).
  now rewrite prefix_byte.
Qed.

Lemma Index_byte_app (c : ascii) (s t : string) :
  has_byte c s = false -> Index (s +:+ String c t) (String c "") = len s.
Proof.
  induction s as [|d s IH]; intros H.
  - rewrite app_empty_l, Index_String, Ascii.eqb_refl. reflexivity.
  - cbn [has_byte] in H. apply orb_false_iff in H as [Hd H].
    rewrite app_String, len_String, Index_String, Hd.
    rewrite (IH H). pose proof (len_nonneg s).
    destruct (Z.ltb_spec (len s) 0); lia.
Qed.

Lemma has_byte_app (c : ascii) (s t : string) :
  has_byte c (s +:+ t) = has_byte c s || has_byte c t.
Proof.
  induction s as [|d s IH]; [reflexivity|].
  rewrite app_String. cbn [has_byte]. now rewrite IH, orb_assoc.
Qed.

(** The payload of the cookie that the encrypting direction makes is the
    encrypted text, when neither the token nor the text holds '=' or ';'. *)
Lemma cookie_payload_combined (j1 e tail : string) :
  has_byte "=" j1 = false -> has_byte ";" j1 = false ->
  has_byte "=" e = false -> has_byte ";" e = false ->
  cookie_payload (j1 +:+ "=" +:+ e +:+ String ";" tail) = Ret e.
Proof.
  intros J1 J2 E1 E2.
  set (v := j1 +:+ "=" +:+ e +:+ String ";" tail).
  assert (V1 : v = j1 +:+ String "=" (e +:+ String ";" tail)) by reflexivity.
  assert (V2 : v = (j1 +:+ String "=" e) +:+ String ";" tail).
  { unfold v. change (String "=" e) with ("=" +:+ e). now rewrite !app_assoc_s. }
  assert (V3 : v = (j1 +:+ "=") +:+ e +:+ String ";" tail).
  { unfold v. now rewrite !app_assoc_s. }
  assert (I1 : Index v "=" = len j1) by (rewrite V1; now apply Index_byte_app).
  assert (Lmid : len (j1 +:+ String "=" e) = len j1 + 1 + len e)
    by (rewrite len_app, len_String; lia).
  assert (I2 : Index v ";" = len j1 + 1 + len e).
  { rewrite V2, <- Lmid. apply Index_byte_app.
    rewrite has_byte_app. cbn [has_byte]. now rewrite J2, E2. }
  assert (Lv : len v = len j1 + 1 + len e + (len tail + 1)).
  { rewrite V2, len_app, Lmid, len_String. lia. }
  pose proof (len_nonneg j1) as L1. pose proof (len_nonneg e) as Le.
  pose proof (len_nonneg tail) as Lt.
  unfold cookie_payload. rewrite I1, I2.
  replace (len j1 + 1 + len e =? -1) with false by (symmetry; apply Z.eqb_neq; lia).
  unfold slice. rewrite Lv.
  replace ((0 <=? len j1 + 1) && (len j1 + 1 <=? len j1 + 1 + len e)
           && (len j1 + 1 + len e <=? len j1 + 1 + len e + (len tail + 1)))
    with true by (symmetry; rewrite !andb_true_iff, !Z.leb_le; lia).
  f_equal.
  replace (Z.to_nat (len j1 + 1)) with (String.length (j1 +:+ "="))
    by (pose proof (len_app j1 "=") as H; unfold len in *;
        cbn [String.length] in *; lia).
  replace (Z.to_nat (len j1 + 1 + len e - (len j1 + 1))) with (String.length e)
    by (unfold len; lia).
  rewrite V3, str_drop_app. apply str_take_app.
Qed.

(** ** copyHeaders: the two directions as runs of Add *)

Lemma cookie_lines_app (a b : list string) :
  cookie_lines (a ++ b) = cookie_lines a +:+ cookie_lines b.
Proof.
  induction a as [|v a IH]; [reflexivity|].
  cbn [app cookie_lines]. rewrite IH.
  change (String "010" (cookie_lines a +:+ cookie_lines b))
    with (String "010" (cookie_lines a) +:+ cookie_lines b).
  now rewrite app_assoc_s.
Qed.

Lemma elem_of_flat_map {A B : Type} (f : A -> list B) (l : list A) (x : B) :
  x ∈ flat_map f l <-> exists a, a ∈ l /\ x ∈ f a.
Proof.
  rewrite list_elem_of_In, in_flat_map. split.
  - intros (a & Ha & Hx). exists a. now rewrite !list_elem_of_In.
  - intros (a & Ha & Hx). exists a. now rewrite <- !list_elem_of_In.
Qed.

Lemma flat_map_nil_all {A B : Type} (f : A -> list B) (l : list A) :
  (forall a, a ∈ l -> f a = []) -> flat_map f l = [].
Proof.
  induction l as [|a l IH]; intros H; [reflexivity|].
  cbn [flat_map]. rewrite (H a) by (apply elem_of_cons; now left).
  apply IH. intros a' Hin. apply H, elem_of_cons. now right.
Qed.

(** In a list of map entries only one entry has a given key. *)
Lemma flat_map_at_key_list {B : Type} (items : list (string * list string))
    (f : string * list string -> list B) (k0 : string) (vs : list string) :
  NoDup (items.*1) ->
  (forall e, e ∈ items -> fst e <> k0 -> f e = []) ->
  (k0, vs) ∈ items -> flat_map f items = f (k0, vs).
Proof.
  induction items as [|e items IH]; intros Hnd Hf Hin.
  - now apply elem_of_nil in Hin.
  - cbn [fmap list_fmap] in Hnd. apply NoDup_cons in Hnd as [Hnotin Hnd].
    cbn [flat_map]. apply elem_of_cons in Hin as [<-|Hin].
    + rewrite flat_map_nil_all; [apply app_nil_r|].
      intros e' Hin'. apply Hf; [apply elem_of_cons; now right|].
      intros E. apply Hnotin. cbn [fst]. rewrite <- E.
      apply list_elem_of_fmap. now exists e'.
    + rewrite (Hf e); [|apply elem_of_cons; now left|].
      * apply IH; [exact Hnd| |exact Hin].
        intros e' Hin'. apply Hf, elem_of_cons. now right.
      * intros E. apply Hnotin. rewrite E.
        apply list_elem_of_fmap. now exists (k0, vs).
Qed.

Lemma flat_map_at_key {B : Type} (m : Header) (items : list (string * list string))
    (f : string * list string -> list B) (k0 : string) :
  items ≡ₚ map_to_list m ->
  (forall e, e ∈ items -> fst e <> k0 -> f e = []) ->
  flat_map f items = match m !! k0 with Some vs => f (k0, vs) | None => [] end.
Proof.
  intros Hp Hf.
  assert (Hnd : NoDup (items.*1)) by (rewrite Hp; apply NoDup_fst_map_to_list).
  destruct (m !! k0) as [vs|] eqn:E.
  - apply flat_map_at_key_list; [exact Hnd | exact Hf|].
    rewrite Hp. now apply elem_of_map_to_list.
  - apply flat_map_nil_all. intros [k vs] Hin. apply Hf; [exact Hin|].
    cbn [fst]. intros ->. rewrite Hp in Hin.
    apply elem_of_map_to_list in Hin. congruence.
Qed.

Section RoundTrip.
Context {Rand : Type}.
Variable ToLower : string -> string.
Hypothesis ToLower_ascii :
  forall s : string, is_ascii s = true -> ToLower s = lower_ascii s.
Variable gc : Cipher Rand.
Variable iv : IV.
Hypothesis iv_set : iv_nonzero iv = true.

Local Abbreviation source_values := (source_values ToLower).
Local Abbreviation emit_enc := (emit_enc ToLower).
Local Abbreviation emits_enc := (emits_enc ToLower).
Local Abbreviation emit_dec := (emit_dec ToLower).
Local Abbreviation emit_dec_entry := (emit_dec_entry ToLower).
Local Abbreviation combined_cookie := (combined_cookie gc iv).
Local Abbreviation jibber1 := (jibber1 gc).
Local Abbreviation jibber2 := (jibber2 gc).
Local Abbreviation jibbered := (jibbered gc).

(** *** Encrypting *)

Lemma copy_value_enc (k v : string) (dst : Header) (buf : string) :
  copy_value ToLower gc true iv k v (dst, buf) =
  Ret (adds (emit_enc k v) dst,
       buf +:+ (if String.eqb (ToLower k) "set-cookie"
                then v +:+ String "010" "" else "")).
Proof.
  unfold copy_value, emit_enc. rewrite iv_set. cbv zeta.
  destruct (String.eqb (ToLower k) "set-cookie").
  - cbn [buffer_Writes fold_left adds]. now rewrite app_assoc_s.
  - rewrite app_empty_r.
    destruct (String.eqb (ToLower k) "content-encoding" ||
              String.eqb (ToLower k) "content-type"); [reflexivity|].
    cbn [negb].
    destruct (String.eqb (ToLower k) "x-content-encoding" ||
              String.eqb (ToLower k) "x-content-type");
      now rewrite add_split_adds.
Qed.

Lemma copy_values_enc (k : string) (vs : list string) (dst : Header) (buf : string) :
  copy_values ToLower gc true iv k vs (dst, buf) =
  Ret (adds (flat_map (emit_enc k) vs) dst,
       buf +:+ (if String.eqb (ToLower k) "set-cookie" then cookie_lines vs else "")).
Proof.
  revert dst buf. induction vs as [|v vs IH]; intros dst buf.
  - cbn [copy_values flat_map adds fold_left cookie_lines].
    destruct (String.eqb (ToLower k) "set-cookie"); now rewrite app_empty_r.
  - cbn [copy_values flat_map]. rewrite copy_value_enc, bind_Ret, IH, adds_app.
    rewrite app_assoc_s. repeat f_equal.
    destruct (String.eqb (ToLower k) "set-cookie"); [|reflexivity].
    cbn [cookie_lines]. now rewrite app_assoc_s.
Qed.

Lemma copy_entries_enc (items : list (string * list string)) (dst : Header)
    (buf : string) :
  copy_entries ToLower gc true iv items (dst, buf) =
  Ret (adds (emits_enc items) dst,
       buf +:+ cookie_lines (source_values "set-cookie" items)).
Proof.
  revert dst buf. induction items as [|[k vs] items IH]; intros dst buf.
  - cbn [copy_entries]. now rewrite app_empty_r.
  - cbn [copy_entries]. rewrite copy_values_enc, bind_Ret, IH.
    unfold emits_enc, source_values. cbn [flat_map fst snd].
    rewrite adds_app, cookie_lines_app, app_assoc_s. repeat f_equal.
    now destruct (String.eqb (ToLower k) "set-cookie").
Qed.

(** *** Decrypting *)

Lemma copy_value_dec (k v : string) (dst : Header) (buf : string) :
  is_ascii k = true ->
  String.eqb (ToLower k) "set-cookie" = false ->
  copy_value ToLower gc false iv k v (dst, buf) = Ret (adds (emit_dec k v) dst, buf).
Proof.
  intros Ha Hk. unfold copy_value, emit_dec. rewrite Hk, iv_set. cbv zeta.
  destruct (String.eqb (ToLower k) "content-encoding" ||
            String.eqb (ToLower k) "content-type"); [reflexivity|].
  destruct (String.eqb (ToLower k) "x-content-encoding" ||
            String.eqb (ToLower k) "x-content-type") eqn:X.
  - cbn [negb]. rewrite slice_to_end; [reflexivity|].
    rewrite (ToLower_ascii k Ha) in X.
    pose proof (lower_ascii_length k) as L. unfold len.
    apply orb_true_iff in X as [X|X]; apply String.eqb_eq in X;
      rewrite X in L; cbn [String.length] in L; lia.
  - now rewrite add_split_adds.
Qed.

Lemma copy_values_dec (k : string) (vs : list string) (dst : Header) (buf : string) :
  is_ascii k = true ->
  String.eqb (ToLower k) "set-cookie" = false ->
  copy_values ToLower gc false iv k vs (dst, buf) =
  Ret (adds (flat_map (emit_dec k) vs) dst, buf).
Proof.
  intros Ha Hk. revert dst. induction vs as [|v vs IH]; intros dst; [reflexivity|].
  cbn [copy_values flat_map].
  now rewrite copy_value_dec, bind_Ret, IH, adds_app.
Qed.

Hypothesis Alias_len : len (Alias gc) = 6.
Hypothesis Decrypt_Encrypt :
  forall s : string, fst (Decrypt gc (Encrypt gc s iv) iv) = s.
Hypothesis Encrypt_text :
  forall s : string,
    has_byte "=" (Encrypt gc s iv) = false /\ has_byte ";" (Encrypt gc s iv) = false.
Hypothesis Jibber_text :
  forall r : Rand,
    has_byte "=" (fst (Jibber gc r)) = false /\ has_byte ";" (fst (Jibber gc r)) = false.

Lemma copy_value_dec_combined (k j1 j2 body : string) (dst : Header) (buf : string) :
  ToLower k = "set-cookie" ->
  has_byte "=" j1 = false -> has_byte ";" j1 = false ->
  copy_value ToLower gc false iv k (combined_cookie j1 j2 body) (dst, buf) =
  Ret (adds (map (pair k) (split_byte "010" body)) dst, buf).
Proof.
  intros Hk J1 J2.
  rewrite (copy_value_setcookie_dec ToLower gc iv iv_set) by exact Hk.
  unfold combined_cookie.
  change ("; Domain=" +:+ j2 +:+ ".com; HttpOnly")
    with (String ";" (" Domain=" +:+ j2 +:+ ".com; HttpOnly")).
  rewrite cookie_payload_combined; try exact J1; try exact J2;
    try apply Encrypt_text.
  rewrite bind_Ret. cbv zeta. rewrite Decrypt_Encrypt, HasSuffix_app. cbn [negb].
  pose proof (len_nonneg body).
  rewrite slice_from_start by (rewrite len_app; lia). rewrite bind_Ret.
  rewrite add_split_adds. repeat f_equal.
  replace (Z.to_nat (len (body +:+ Alias gc) - 6)) with (String.length body)
    by (rewrite len_app, Alias_len; unfold len; lia).
  apply str_take_app.
Qed.

(** *** The keys of the two passes *)

Lemma lower_X (k : string) : lower_ascii ("X-" +:+ k) = "x-" +:+ lower_ascii k.
Proof. reflexivity. Qed.

Lemma Canonical_SetCookie (k : string) :
  CanonicalMIMEHeaderKey k = "Set-Cookie" <-> lower_ascii k = "set-cookie".
Proof. apply (Canonical_iff_lower "Set-Cookie"); reflexivity. Qed.

Lemma content_header_facts (lc K XK : string) :
  content_header lc K XK ->
  (forall k, CanonicalMIMEHeaderKey k = K <-> lower_ascii k = lc) /\
  (forall k, CanonicalMIMEHeaderKey k = XK <-> lower_ascii k = "x-" +:+ lc) /\
  String.eqb lc "content-encoding" || String.eqb lc "content-type" = true /\
  String.eqb lc "set-cookie" = false /\
  (forall l, String.eqb l "content-encoding" || String.eqb l "content-type" = true ->
             l <> lc -> "x-" +:+ l <> "x-" +:+ lc).
Proof.
  intros H. destruct H; (split; [|split; [|split; [|split]]]);
    try reflexivity;
    try (intros k; apply Canonical_iff_lower; reflexivity);
    intros l _ Hl E; apply Hl; now inversion E.
Qed.

Section Pass.
Variable items : list (string * list string).
Local Abbreviation sent_cookie := (sent_cookie ToLower gc iv items).
Local Abbreviation sent_adds := (sent_adds ToLower gc iv items).
Local Abbreviation received_adds := (received_adds ToLower items).
Hypothesis items_ascii : forall e, e ∈ items -> is_ascii (fst e) = true.
Hypothesis items_no_X :
  forall e, e ∈ items ->
    ToLower (fst e) <> "x-content-type" /\ ToLower (fst e) <> "x-content-encoding".

Lemma picks_emit_enc_cookie (k v : string) :
  is_ascii k = true -> picks "Set-Cookie" (emit_enc k v) = [].
Proof.
  intros Ha. unfold emit_enc. rewrite (ToLower_ascii k Ha). cbv zeta.
  destruct (String.eqb_spec (lower_ascii k) "set-cookie") as [E|NE]; [reflexivity|].
  destruct (String.eqb (lower_ascii k) "content-encoding" ||
            String.eqb (lower_ascii k) "content-type") eqn:C.
  - apply picks_none. intros kv Hin. apply list_elem_of_singleton in Hin as ->.
    cbn [fst]. rewrite Canonical_SetCookie, lower_X. discriminate.
  - apply picks_none. intros kv Hin.
    apply list_elem_of_fmap in Hin as (vn & -> & _). cbn [fst].
    now rewrite Canonical_SetCookie.
Qed.

Lemma picks_emit_enc_content (lc K XK k v : string) :
  content_header lc K XK ->
  is_ascii k = true ->
  ToLower k <> "x-content-type" /\ ToLower k <> "x-content-encoding" ->
  picks XK (emit_enc k v) = if String.eqb (ToLower k) lc then [v] else [].
Proof.
  intros HC Ha [Hx1 Hx2].
  destruct (content_header_facts lc K XK HC) as (_ & HXK & Hcl & Hsc & Hinj).
  unfold emit_enc. rewrite (ToLower_ascii k Ha) in *. cbv zeta.
  destruct (String.eqb_spec (lower_ascii k) "set-cookie") as [E|NE].
  { rewrite E, String.eqb_sym, Hsc. reflexivity. }
  destruct (String.eqb (lower_ascii k) "content-encoding" ||
            String.eqb (lower_ascii k) "content-type") eqn:C.
  - cbn [picks flat_map fst snd]. rewrite app_nil_r.
    destruct (String.eqb_spec (lower_ascii k) lc) as [E|NE'].
    + rewrite (proj2 (HXK ("X-" +:+ k))), String.eqb_refl; [reflexivity|].
      now rewrite lower_X, E.
    + destruct (String.eqb_spec (CanonicalMIMEHeaderKey ("X-" +:+ k)) XK)
        as [E|_]; [|reflexivity].
      apply HXK in E. rewrite lower_X in E. now apply Hinj in E.
  - assert (NC : lower_ascii k <> lc).
    { intros E. rewrite E, Hcl in C. discriminate. }
    destruct (String.eqb_spec (lower_ascii k) lc) as [E|_]; [contradiction|].
    apply picks_none. intros kv Hin.
    apply list_elem_of_fmap in Hin as (vn & -> & _). cbn [fst].
    rewrite HXK. destruct HC; assumption.
Qed.

Lemma picks_emits_enc_cookie : picks "Set-Cookie" (emits_enc items) = [].
Proof.
  unfold emits_enc. rewrite picks_flat_map. apply flat_map_nil_all.
  intros e He. rewrite picks_flat_map. apply flat_map_nil_all.
  intros v _. apply picks_emit_enc_cookie. now apply items_ascii.
Qed.

Lemma picks_emits_enc_content (lc K XK : string) :
  content_header lc K XK ->
  picks XK (emits_enc items) = source_values lc items.
Proof.
  intros HC. unfold emits_enc, source_values. rewrite picks_flat_map.
  assert (G : forall l : list (string * list string),
            (forall e, e ∈ l -> e ∈ items) ->
            flat_map (fun a => picks XK (flat_map (emit_enc (fst a)) (snd a))) l =
            flat_map (fun e => if String.eqb (ToLower (fst e)) lc then snd e else []) l).
  { induction l as [|e l IH]; intros Hsub; [reflexivity|].
    cbn [flat_map]. rewrite IH by (intros e' He'; apply Hsub, elem_of_cons; now right).
    f_equal. rewrite picks_flat_map.
    assert (He : e ∈ items) by (apply Hsub, elem_of_cons; now left).
    transitivity (flat_map (fun v => if String.eqb (ToLower (fst e)) lc
                                     then [v] else []) (snd e)).
    - apply flat_map_ext. intros v.
      apply (picks_emit_enc_content lc K XK); auto.
    - destruct (String.eqb (ToLower (fst e)) lc).
      + induction (snd e) as [|v vs IHv]; [reflexivity|].
        cbn [flat_map app]. now rewrite IHv.
      + now apply flat_map_nil_all. }
  now apply G.
Qed.

(** *** The destination of the encrypting direction *)

Hypothesis items_plain :
  forall v, v ∈ source_values "set-cookie" items -> has_byte "010" v = false.

Lemma copyHeaders_enc (order : list string) (dst : Header) (rand : Rand) :
  range_order order dst ->
  (forall k, is_Some (dst !! k) -> CanonicalMIMEHeaderKey k = k) ->
  copyHeaders ToLower order dst items gc true iv rand =
  Ret (adds (sent_adds rand) ∅,
       if bool_decide (source_values "set-cookie" items = []) then rand
       else jibbered rand).
Proof.
  intros Hord Hcan. unfold copyHeaders.
  rewrite clear_headers_empty by assumption.
  rewrite copy_entries_enc, bind_Ret, app_empty_l. unfold emit_setcookies.
  rewrite cookie_lines_len, iv_set. unfold sent_adds.
  destruct (bool_decide (source_values "set-cookie" items = [])); cbn [negb andb].
  - now rewrite app_nil_r.
  - unfold sent_cookie, jibber1, jibber2, jibbered, combined_cookie.
    destruct (Jibber gc rand) as [j1 r1]. cbn [fst snd].
    destruct (Jibber gc r1) as [j2 r2]. cbn [fst snd].
    rewrite buffer_Trunc_cookie_lines, adds_app. reflexivity.
Qed.

Lemma emit_enc_elements (k v : string) (kv : string * string) :
  is_ascii k = true -> kv ∈ emit_enc k v ->
  is_ascii (fst kv) = true /\ lower_ascii (fst kv) <> "set-cookie".
Proof.
  intros Ha. unfold emit_enc. rewrite (ToLower_ascii k Ha). cbv zeta.
  destruct (String.eqb_spec (lower_ascii k) "set-cookie") as [E|NE].
  { intros H. now apply elem_of_nil in H. }
  destruct (String.eqb (lower_ascii k) "content-encoding" ||
            String.eqb (lower_ascii k) "content-type").
  - intros H. apply list_elem_of_singleton in H as ->. cbn [fst]. split.
    + rewrite is_ascii_app, Ha. reflexivity.
    + rewrite lower_X. discriminate.
  - intros H. apply list_elem_of_fmap in H as (vn & -> & _). now split.
Qed.

Lemma sent_adds_elements (rand : Rand) (kv : string * string) :
  kv ∈ sent_adds rand ->
  is_ascii (fst kv) = true /\
  (lower_ascii (fst kv) = "set-cookie" ->
   source_values "set-cookie" items <> [] /\ kv = ("Set-Cookie", sent_cookie rand)).
Proof.
  unfold sent_adds. intros H. apply elem_of_app in H as [H|H].
  - unfold emits_enc in H. apply elem_of_flat_map in H as (e & He & H).
    apply elem_of_flat_map in H as (v & _ & H).
    destruct (emit_enc_elements (fst e) v kv (items_ascii e He) H) as [A N].
    split; [exact A | contradiction].
  - destruct (bool_decide_reflect (source_values "set-cookie" items = [])) as [E|NE].
    + now apply elem_of_nil in H.
    + apply list_elem_of_singleton in H as ->. now split.
Qed.

Lemma picks_sent_cookie (rand : Rand) :
  picks "Set-Cookie" (sent_adds rand) =
  if bool_decide (source_values "set-cookie" items = []) then []
  else [sent_cookie rand].
Proof.
  unfold sent_adds. rewrite picks_app, picks_emits_enc_cookie.
  now destruct (bool_decide (source_values "set-cookie" items = [])).
Qed.

Lemma picks_sent_content (lc K XK : string) (rand : Rand) :
  content_header lc K XK -> picks XK (sent_adds rand) = source_values lc items.
Proof.
  intros HC. unfold sent_adds.
  rewrite picks_app, (picks_emits_enc_content lc K XK HC).
  destruct (bool_decide (source_values "set-cookie" items = []));
    [apply app_nil_r|].
  rewrite picks_none; [apply app_nil_r|].
  intros kv H. apply list_elem_of_singleton in H as ->. cbn [fst].
  destruct HC; discriminate.
Qed.

(** What an entry of the destination of the encrypting direction is. *)
Lemma sent_entry (rand : Rand) (k : string) (vs : list string) :
  adds (sent_adds rand) ∅ !! k = Some vs ->
  is_ascii k = true /\
  (lower_ascii k = "set-cookie" ->
   source_values "set-cookie" items <> [] /\
   k = "Set-Cookie" /\ vs = [sent_cookie rand]) /\
  (forall lc K XK, content_header lc K XK ->
     lower_ascii k = "x-" +:+ lc -> k = XK).
Proof.
  intros E.
  destruct (keys_adds (sent_adds rand) ∅ k) as [H|(kv & Hin & C)].
  { now rewrite E. }
  { rewrite lookup_empty in H. now destruct H. }
  destruct (sent_adds_elements rand kv Hin) as [A S].
  assert (L : lower_ascii k = lower_ascii (fst kv))
    by (rewrite <- C; apply lower_Canonical).
  split; [|split].
  - rewrite <- C, is_ascii_Canonical. exact A.
  - intros Hk. rewrite L in Hk. destruct (S Hk) as [NE ->].
    split; [exact NE|]. cbn [fst] in C.
    assert (Ek : k = "Set-Cookie") by (rewrite <- C; reflexivity).
    split; [exact Ek|]. subst k.
    rewrite <- (values_lookup _ _ _ E), values_adds, picks_sent_cookie.
    now rewrite bool_decide_eq_false_2.
  - intros lc K XK HC Hk. rewrite L in Hk.
    destruct (content_header_facts lc K XK HC) as (_ & HXK & _).
    rewrite <- C. now apply HXK.
Qed.

Lemma values_sent_content (lc K XK : string) (rand : Rand) :
  content_header lc K XK ->
  Header_values (adds (sent_adds rand) ∅) XK = source_values lc items.
Proof.
  intros HC. rewrite values_adds. now apply (picks_sent_content lc K XK).
Qed.

(** *** The decrypting direction over that destination *)

Lemma copy_entries_dec (rand : Rand) (items2 : list (string * list string))
    (dst : Header) (buf : string) :
  (forall e, e ∈ items2 -> adds (sent_adds rand) ∅ !! fst e = Some (snd e)) ->
  copy_entries ToLower gc false iv items2 (dst, buf) =
  Ret (adds (received_adds items2) dst, buf).
Proof.
  revert dst. induction items2 as [|[k vs] items2 IH]; intros dst H; [reflexivity|].
  assert (Hk : adds (sent_adds rand) ∅ !! k = Some vs)
    by (apply (H (k, vs)), elem_of_cons; now left).
  destruct (sent_entry rand k vs Hk) as (A & S & _).
  cbn [copy_entries]. unfold received_adds. cbn [flat_map]. rewrite adds_app.
  fold (received_adds items2).
  rewrite <- IH by (intros e He; apply H, elem_of_cons; now right).
  unfold emit_dec_entry. cbn [fst snd].
  destruct (String.eqb_spec (ToLower k) "set-cookie") as [E|NE].
  - rewrite (ToLower_ascii k A) in E. destruct (S E) as (_ & -> & ->).
    cbn [copy_values]. unfold sent_cookie.
    rewrite copy_value_dec_combined, !bind_Ret; try reflexivity.
    + now rewrite ToLower_ascii.
    + apply Jibber_text.
    + apply Jibber_text.
  - rewrite copy_values_dec, bind_Ret; try reflexivity; [exact A|].
    now apply String.eqb_neq.
Qed.

Lemma copyHeaders_dec (rand rand' : Rand) (order : list string) (dst : Header)
    (items2 : list (string * list string)) :
  items2 ≡ₚ map_to_list (adds (sent_adds rand) ∅) ->
  copyHeaders ToLower order dst items2 gc false iv rand' =
  Ret (adds (received_adds items2) (clear_headers order dst), rand').
Proof.
  intros Hp. unfold copyHeaders.
  rewrite (copy_entries_dec rand), bind_Ret; [reflexivity|].
  intros [k vs] He. rewrite Hp in He. now apply elem_of_map_to_list in He.
Qed.

Lemma emit_dec_cases (k v : string) (kv : string * string) :
  is_ascii k = true -> kv ∈ emit_dec k v ->
  (fst kv = str_drop 2 k /\
   (lower_ascii k = "x-content-encoding" \/ lower_ascii k = "x-content-type")) \/
  (fst kv = k /\ lower_ascii k <> "content-encoding" /\
   lower_ascii k <> "content-type").
Proof.
  intros Ha. unfold emit_dec. rewrite (ToLower_ascii k Ha). cbv zeta.
  destruct (String.eqb_spec (lower_ascii k) "content-encoding") as [E1|N1].
  { intros H. now apply elem_of_nil in H. }
  destruct (String.eqb_spec (lower_ascii k) "content-type") as [E2|N2].
  { intros H. now apply elem_of_nil in H. }
  cbn [orb].
  destruct (String.eqb_spec (lower_ascii k) "x-content-encoding") as [E3|N3].
  { intros H. apply list_elem_of_singleton in H as ->. left. split; auto. }
  destruct (String.eqb_spec (lower_ascii k) "x-content-type") as [E4|N4].
  { intros H. apply list_elem_of_singleton in H as ->. left. split; auto. }
  cbn [orb]. intros H. apply list_elem_of_fmap in H as (vn & -> & _).
  right. now repeat split.
Qed.

Lemma picks_received_cookie_other (rand : Rand) (e : string * list string) :
  adds (sent_adds rand) ∅ !! fst e = Some (snd e) ->
  fst e <> "Set-Cookie" ->
  picks "Set-Cookie"
    (emit_dec_entry (join_lines (source_values "set-cookie" items)) e) = [].
Proof.
  destruct e as [k vs]. cbn [fst snd]. intros Hk Hne.
  destruct (sent_entry rand k vs Hk) as (A & S & _).
  unfold emit_dec_entry. cbn [fst snd]. rewrite (ToLower_ascii k A).
  destruct (String.eqb_spec (lower_ascii k) "set-cookie") as [E|NE].
  { destruct (S E) as (_ & -> & _). contradiction. }
  rewrite picks_flat_map. apply flat_map_nil_all. intros v _.
  apply picks_none. intros kv Hin. rewrite Canonical_SetCookie.
  destruct (emit_dec_cases k v kv A Hin) as [[-> X]|[-> _]]; [|exact NE].
  rewrite lower_ascii_drop. destruct X as [-> | ->]; discriminate.
Qed.

Lemma picks_received_content_other (lc K XK : string) (rand : Rand)
    (e : string * list string) :
  content_header lc K XK ->
  adds (sent_adds rand) ∅ !! fst e = Some (snd e) ->
  fst e <> XK ->
  picks K (emit_dec_entry (join_lines (source_values "set-cookie" items)) e) = [].
Proof.
  destruct e as [k vs]. cbn [fst snd]. intros HC Hk Hne.
  destruct (sent_entry rand k vs Hk) as (A & S & X).
  destruct (content_header_facts lc K XK HC) as (HK & _ & Hcl & Hsc & _).
  unfold emit_dec_entry. cbn [fst snd]. rewrite (ToLower_ascii k A).
  destruct (String.eqb_spec (lower_ascii k) "set-cookie") as [E|NE].
  { apply picks_none. intros kv Hin.
    apply list_elem_of_fmap in Hin as (vn & -> & _). cbn [fst].
    rewrite HK, E. intros <-. discriminate. }
  rewrite picks_flat_map. apply flat_map_nil_all. intros v _.
  apply picks_none. intros kv Hin. rewrite HK.
  destruct (emit_dec_cases k v kv A Hin) as [[-> Hx]|[-> [N1 N2]]].
  - rewrite lower_ascii_drop. intros E. apply Hne, (X lc K XK HC).
    destruct Hx as [Hx|Hx]; rewrite Hx in E |- *; cbn in E; now rewrite <- E.
  - destruct HC; assumption.
Qed.

Lemma picks_received_cookie_at (vs : list string) :
  picks "Set-Cookie"
    (emit_dec_entry (join_lines (source_values "set-cookie" items))
       ("Set-Cookie", vs))
  = split_byte "010" (join_lines (source_values "set-cookie" items)).
Proof.
  unfold emit_dec_entry. cbn [fst snd]. rewrite ToLower_ascii by reflexivity.
  cbn [lower_ascii lower_byte]. now apply picks_all.
Qed.

Lemma picks_received_content_at (lc K XK : string) (vs : list string) :
  content_header lc K XK ->
  picks K (emit_dec_entry (join_lines (source_values "set-cookie" items)) (XK, vs))
  = vs.
Proof.
  intros HC. unfold emit_dec_entry. cbn [fst snd].
  assert (E : forall v, emit_dec XK v = [(K, v)]).
  { intros v. unfold emit_dec.
    destruct HC; rewrite ToLower_ascii by reflexivity; reflexivity. }
  assert (N : String.eqb (ToLower XK) "set-cookie" = false).
  { destruct HC; rewrite ToLower_ascii by reflexivity; reflexivity. }
  assert (P : forall v, picks K [(K, v)] = [v]).
  { intros v. destruct HC; reflexivity. }
  rewrite N. induction vs as [|v vs IH]; [reflexivity|].
  cbn [flat_map]. now rewrite picks_app, IH, E, P.
Qed.

(** C2, as the code has it.  [items] are the entries of the source map in
    the order the first call ranges over it: keys of ASCII bytes, none of
    them an X-Content-Type or X-Content-Encoding, Set-Cookie values without
    a newline.  The cipher's marker is 6 bytes long, [Decrypt] inverts
    [Encrypt] for the IV, and neither the encrypted text nor a [Jibber]
    token holds '=' or ';'.  The first destination holds canonical keys
    only.  Then the encrypting call returns, and for every order in which
    the decrypting call ranges over its result (and whatever its own
    destination held) that call returns a destination whose Set-Cookie,
    Content-Type and Content-Encoding values are the source's, with their
    multiplicity and in the order of the first range. *)
Theorem copyHeaders_round_trip (order : list string) (dst : Header) (rand : Rand) :
  range_order order dst ->
  (forall k, is_Some (dst !! k) -> CanonicalMIMEHeaderKey k = k) ->
  exists (dst1 : Header) (rand1 : Rand),
    copyHeaders ToLower order dst items gc true iv rand = Ret (dst1, rand1) /\
    forall (items2 : list (string * list string)) (order' : list string)
           (dst' : Header) (rand' : Rand),
      items2 ≡ₚ map_to_list dst1 -> range_order order' dst' ->
      exists final : Header,
        copyHeaders ToLower order' dst' items2 gc false iv rand' = Ret (final, rand') /\
        Header_values final "Set-Cookie" = source_values "set-cookie" items /\
        Header_values final "Content-Type" = source_values "content-type" items /\
        Header_values final "Content-Encoding" = source_values "content-encoding" items.
Proof.
  intros Hord Hcan. eexists _, _. split; [now apply copyHeaders_enc|].
  intros items2 order' dst' rand' Hp Hord'.
  eexists. split; [now apply (copyHeaders_dec rand)|].
  assert (Hin : forall e, e ∈ items2 ->
            adds (sent_adds rand) ∅ !! fst e = Some (snd e)).
  { intros [k vs] He. rewrite Hp in He. now apply elem_of_map_to_list in He. }
  assert (Content : forall lc K XK, content_header lc K XK ->
            CanonicalMIMEHeaderKey K = K ->
            Header_values (adds (received_adds items2) (clear_headers order' dst')) K
            = source_values lc items).
  { intros lc K XK HC CK.
    rewrite values_adds, values_clear_headers, app_nil_l by assumption.
    unfold received_adds. rewrite picks_flat_map.
    rewrite (flat_map_at_key (adds (sent_adds rand) ∅) items2 _ XK Hp).
    2: { intros e He Hne. apply (picks_received_content_other lc K XK rand); auto. }
    rewrite <- (values_sent_content lc K XK rand HC). unfold Header_values.
    destruct (adds (sent_adds rand) ∅ !! XK) as [vs|]; [|reflexivity].
    now apply (picks_received_content_at lc K XK). }
  split; [|split].
  - rewrite values_adds, values_clear_headers, app_nil_l by (auto; reflexivity).
    unfold received_adds. rewrite picks_flat_map.
    rewrite (flat_map_at_key (adds (sent_adds rand) ∅) items2 _ "Set-Cookie" Hp).
    2: { intros e He Hne. apply (picks_received_cookie_other rand); auto. }
    destruct (adds (sent_adds rand) ∅ !! "Set-Cookie") as [vs|] eqn:E.
    + rewrite picks_received_cookie_at.
      destruct (sent_entry rand _ _ E) as (_ & S & _).
      destruct (S eq_refl) as (NE & _ & _).
      rewrite split_join_lines by exact NE.
      apply flat_map_split_plain, items_plain.
    + pose proof (values_adds (sent_adds rand) ∅ "Set-Cookie") as V.
      unfold Header_values at 1 in V. rewrite E, picks_sent_cookie in V.
      unfold Header_values in V. rewrite lookup_empty in V. cbn in V.
      destruct (bool_decide_reflect (source_values "set-cookie" items = []))
        as [->|_]; [reflexivity | discriminate].
  - apply (Content _ _ _ content_type). reflexivity.
  - apply (Content _ _ _ content_encoding). reflexivity.
Qed.

End Pass.

End RoundTrip.

Lemma range_order_empty : range_order [] ∅.
Proof.
  split; [apply NoDup_nil_2|]. intros k. rewrite lookup_empty. split.
  - intros H. now apply elem_of_nil in H.
  - intros [? ?]. discriminate.
Qed.

Lemma copyHeaders_round_trip_witness :
  exists (dst1 : Header) (rand1 : nat),
    copyHeaders lower_ascii [] ∅ CipherModel.response
      (CipherModel.cipher "a1b2c3") true CipherModel.iv 0%nat = Ret (dst1, rand1) /\
    forall (items2 : list (string * list string)) (order' : list string)
           (dst' : Header) (rand' : nat),
      items2 ≡ₚ map_to_list dst1 -> range_order order' dst' ->
      exists final : Header,
        copyHeaders lower_ascii order' dst' items2
          (CipherModel.cipher "a1b2c3") false CipherModel.iv rand'
          = Ret (final, rand') /\
        Header_values final "Set-Cookie" = ["a=1; Path=/"; "b=2; HttpOnly"] /\
        Header_values final "Content-Type" = ["text/html"] /\
        Header_values final "Content-Encoding" = ["gzip"].
Proof.
  apply (copyHeaders_round_trip lower_ascii (fun s _ => eq_refl)
           (CipherModel.cipher "a1b2c3") CipherModel.iv eq_refl eq_refl
           (CipherFacts.Decrypt_Encrypt "a1b2c3")
           (CipherFacts.Encrypt_text "a1b2c3")
           (CipherFacts.Jibber_text "a1b2c3")
           CipherModel.response).
  - intros e He. unfold CipherModel.response in He.
    repeat (apply elem_of_cons in He as [->|He]; [reflexivity|]).
    now apply elem_of_nil in He.
  - intros e He. unfold CipherModel.response in He.
    repeat (apply elem_of_cons in He as [->|He]; [split; discriminate|]).
    now apply elem_of_nil in He.
  - intros v Hv.
    change (source_values lower_ascii "set-cookie" CipherModel.response)
      with ["a=1; Path=/"; "b=2; HttpOnly"] in Hv.
    repeat (apply elem_of_cons in Hv as [->|Hv]; [reflexivity|]).
    now apply elem_of_nil in Hv.
  - apply range_order_empty.
  - intros k [? H]. now rewrite lookup_empty in H.
Defined.

(** C2 as stated fails with a cipher that meets all of the hypotheses above:
    a source with an X-Content-Type entry beside its Content-Type gets both
    values under Content-Type, here with the X- value first. *)
Lemma copyHeaders_X_Content_Type_joins :
  ~ (forall (gc : Cipher nat) (iv : IV) (items : list (string * list string))
            (rand rand1 rand2 : nat) (dst1 final : Header),
       iv_nonzero iv = true ->
       (forall s : string, fst (Decrypt gc (Encrypt gc s iv) iv) = s) ->
       NoDup (items.*1) ->
       copyHeaders lower_ascii [] ∅ items gc true iv rand = Ret (dst1, rand1) ->
       copyHeaders lower_ascii [] ∅ (map_to_list dst1) gc false iv rand1
         = Ret (final, rand2) ->
       Header_values final "Content-Type" = source_values lower_ascii "content-type" items).
Proof.
  intros H.
  specialize (H (CipherModel.cipher "a1b2c3") CipherModel.iv
                [("X-Content-Type", ["text/plain"]); ("Content-Type", ["text/html"])]
                0%nat 0%nat 0%nat
                {["X-Content-Type" := ["text/plain"; "text/html"]]}
                {["Content-Type" := ["text/plain"; "text/html"]]}
                eq_refl (CipherFacts.Decrypt_Encrypt "a1b2c3")).
  assert (ND : NoDup ([("X-Content-Type", ["text/plain"]);
                       ("Content-Type", ["text/html"])].*1)).
  { cbn. apply NoDup_cons. split; [|apply NoDup_singleton].
    intros Hin. apply list_elem_of_singleton in Hin. discriminate. }
  specialize (H ND).
  assert (E1 : copyHeaders lower_ascii [] ∅
                 [("X-Content-Type", ["text/plain"]); ("Content-Type", ["text/html"])]
                 (CipherModel.cipher "a1b2c3") true CipherModel.iv 0%nat
               = Ret ({["X-Content-Type" := ["text/plain"; "text/html"]]}, 0%nat))
    by (vm_compute; reflexivity).
  assert (E2 : copyHeaders lower_ascii [] ∅
                 (map_to_list ({["X-Content-Type" := ["text/plain"; "text/html"]]} : Header))
                 (CipherModel.cipher "a1b2c3") false CipherModel.iv 0%nat
               = Ret ({["Content-Type" := ["text/plain"; "text/html"]]}, 0%nat))
    by (vm_compute; reflexivity).
  specialize (H E1 E2). vm_compute in H. discriminate H.
Qed.

(** The other hypotheses of the round trip are needed as well. *)

(** A Set-Cookie value with a newline comes back as two values. *)
Example copyHeaders_round_trip_newline :
  copyHeaders lower_ascii [] ∅ [("Set-Cookie", ["a=1" +:+ String "010" "b=2"])]
    (CipherModel.cipher "a1b2c3") true CipherModel.iv 0%nat
  = Ret ({["Set-Cookie" :=
            ["lorem=gbdndbakgcdndcgbdbgcdcgddd; Domain=ipsum.com; HttpOnly"]]}, 2%nat) /\
  copyHeaders lower_ascii [] ∅
    [("Set-Cookie", ["lorem=gbdndbakgcdndcgbdbgcdcgddd; Domain=ipsum.com; HttpOnly"])]
    (CipherModel.cipher "a1b2c3") false CipherModel.iv 2%nat
  = Ret ({["Set-Cookie" := ["a=1"; "b=2"]]}, 2%nat).
Proof. split; vm_compute; reflexivity. Qed.

(** With the 2-byte marker "AB" the cookie "a=1; Path=/" comes back as
    "a=1; Pa", and the cookie "a=1" makes the decrypting call panic. *)
Example copyHeaders_round_trip_short_alias :
  copyHeaders lower_ascii [] ∅
    [("Set-Cookie", ["lorem=" +:+ CipherModel.encode_digits "a=1; Path=/AB"
                       +:+ "; Domain=ipsum.com; HttpOnly"])]
    (CipherModel.cipher "AB") false CipherModel.iv 2%nat
  = Ret ({["Set-Cookie" := ["a=1; Pa"]]}, 2%nat) /\
  copyHeaders lower_ascii [] ∅
    [("Set-Cookie", ["lorem=" +:+ CipherModel.encode_digits "a=1AB"
                       +:+ "; Domain=ipsum.com; HttpOnly"])]
    (CipherModel.cipher "AB") false CipherModel.iv 2%nat
  = Panic.
Proof. split; vm_compute; reflexivity. Qed.

(** With a cipher whose text holds ';' the payload is cut short and the
    cookie is dropped. *)
Example copyHeaders_round_trip_plain_text :
  copyHeaders lower_ascii [] ∅ [("Set-Cookie", ["a=1; Path=/"])]
    (CipherModel.plain "a1b2c3") true CipherModel.iv 0%nat
  = Ret ({["Set-Cookie" :=
            ["lorem=a=1; Path=/a1b2c3; Domain=ipsum.com; HttpOnly"]]}, 2%nat) /\
  copyHeaders lower_ascii [] ∅
    [("Set-Cookie", ["lorem=a=1; Path=/a1b2c3; Domain=ipsum.com; HttpOnly"])]
    (CipherModel.plain "a1b2c3") false CipherModel.iv 2%nat
  = Ret (∅, 2%nat).
Proof. split; vm_compute; reflexivity. Qed.

(** A key that is not canonical outlives the clearing loop, and the
    decrypting call takes it for a header of the source. *)
Example copyHeaders_round_trip_stale_key :
  copyHeaders lower_ascii ["x-content-type"] {["x-content-type" := ["text/plain"]]}
    [("Content-Type", ["text/html"])]
    (CipherModel.cipher "a1b2c3") true CipherModel.iv 0%nat
  = Ret ({["x-content-type" := ["text/plain"]; "X-Content-Type" := ["text/html"]]},
         0%nat) /\
  copyHeaders lower_ascii [] ∅
    (map_to_list ({["x-content-type" := ["text/plain"];
                    "X-Content-Type" := ["text/html"]]} : Header))
    (CipherModel.cipher "a1b2c3") false CipherModel.iv 0%nat
  = Ret ({["Content-Type" := ["text/plain"; "text/html"]]}, 0%nat).
Proof. split; vm_compute; reflexivity. Qed.

(** * Further properties *)

(** ** Flag register: lists of flags and the declared constants *)

Lemma Options_Set_union (r : Z) (fs : list Z) :
  Options_Set r fs = Z.lor r (flags_union fs).
Proof.
  unfold Options_Set. revert r. induction fs as [|f fs IH]; intros r; cbn.
  - symmetry. apply Z.lor_0_r.
  - rewrite IH. fold (flags_union fs). apply eq_sym, Z.lor_assoc.
Qed.

Lemma flags_union_member (fs : list Z) (f : Z) :
  f ∈ fs -> Z.land (flags_union fs) f = f.
Proof.
  induction fs as [|a fs IH]; intros Hin.
  - inversion Hin.
  - cbn. fold (flags_union fs). apply Z.bits_inj'. intros n Hn.
    rewrite Z.land_spec, Z.lor_spec.
    apply elem_of_cons in Hin as [->|Hin].
    + destruct (Z.testbit a n), (Z.testbit (flags_union fs) n); reflexivity.
    + specialize (IH Hin). apply (f_equal (fun z => Z.testbit z n)) in IH.
      rewrite Z.land_spec in IH.
      destruct (Z.testbit a n), (Z.testbit (flags_union fs) n), (Z.testbit f n);
        cbn in *; congruence.
Qed.

Lemma flags_union_disjoint (fs : list Z) (g : Z) :
  (forall f, f ∈ fs -> Z.land f g = 0) -> Z.land (flags_union fs) g = 0.
Proof.
  induction fs as [|a fs IH]; intros H; cbn.
  - reflexivity.
  - fold (flags_union fs). rewrite Z.land_lor_distr_l, (H a), IH.
    + reflexivity.
    + intros f Hf. apply H. now apply elem_of_cons; right.
    + now apply elem_of_cons; left.
Qed.

Lemma flags_union_uint32 (fs : list Z) :
  (forall f, f ∈ fs -> is_uint32 f) -> 0 <= flags_union fs.
Proof.
  induction fs as [|a fs IH]; intros H; cbn; [lia|].
  fold (flags_union fs). apply Z.lor_nonneg. split.
  - apply (H a). now apply elem_of_cons; left.
  - apply IH. intros f Hf. apply H. now apply elem_of_cons; right.
Qed.

Lemma ldiff_ldiff_lor (r f g : Z) : Z.ldiff (Z.ldiff r f) g = Z.ldiff r (Z.lor f g).
Proof.
  apply Z.bits_inj'. intros n Hn.
  rewrite !Z.ldiff_spec, Z.lor_spec.
  destruct (Z.testbit r n), (Z.testbit f n), (Z.testbit g n); reflexivity.
Qed.

Lemma Options_UnSet_union (r : Z) (fs : list Z) :
  is_uint32 r -> (forall f, f ∈ fs -> is_uint32 f) ->
  Options_UnSet r fs = Z.ldiff r (flags_union fs).
Proof.
  revert r. induction fs as [|f fs IH]; intros r Hr Hfs.
  - cbn. symmetry. apply Z.ldiff_0_r.
  - assert (Hf : is_uint32 f) by (apply Hfs; now apply elem_of_cons; left).
    change (Options_UnSet r (f :: fs)) with (Options_UnSet (Options_UnSet r [f]) fs).
    rewrite (Options_UnSet_one r f Hr Hf), IH.
    + cbn. fold (flags_union fs). apply ldiff_ldiff_lor.
    + apply ldiff_uint32; [exact Hr | apply Hf].
    + intros g Hg. apply Hfs. now apply elem_of_cons; right.
Qed.

Lemma land_ldiff_disjoint (r F g : Z) :
  Z.land F g = 0 -> Z.land (Z.ldiff r F) g = Z.land r g.
Proof.
  intros H. apply Z.bits_inj'. intros n Hn.
  apply (f_equal (fun z => Z.testbit z n)) in H.
  rewrite Z.land_spec, Z.bits_0 in H.
  rewrite !Z.land_spec, Z.ldiff_spec.
  destruct (Z.testbit r n), (Z.testbit F n), (Z.testbit g n); cbn in *; congruence.
Qed.

(** X1: [Set] with any list of flags turns every listed flag on, whatever the
    register held (a flag is a non-zero word), and a flag that shares no bit
    with the listed ones reads as it did before. *)
Theorem Options_Set_sets_all (r : Z) (fs : list Z) :
  (forall f, f ∈ fs -> f <> 0 -> Options_IsSet (Options_Set r fs) f = true) /\
  (forall g, (forall f, f ∈ fs -> Z.land f g = 0) ->
             Options_IsSet (Options_Set r fs) g = Options_IsSet r g).
Proof.
  split.
  - intros f Hin Hf. unfold Options_IsSet.
    rewrite Options_Set_union, Z.land_lor_distr_l, (flags_union_member fs f Hin).
    apply negb_true_iff, Z.eqb_neq. intros H.
    apply Z.lor_eq_0_iff in H. tauto.
  - intros g Hg. unfold Options_IsSet.
    rewrite Options_Set_union, Z.land_lor_distr_l, (flags_union_disjoint fs g Hg).
    now rewrite Z.lor_0_r.
Qed.

(** X2: on a 32-bit register, [UnSet] with any list of 32-bit flags clears
    exactly the bits of the listed flags: the subtraction never wraps, every
    listed flag reads as not set afterwards, and a flag that shares no bit
    with the listed ones reads as it did before. *)
Theorem Options_UnSet_clears_all (r : Z) (fs : list Z) :
  is_uint32 r -> (forall f, f ∈ fs -> is_uint32 f) ->
  Options_UnSet r fs = Z.ldiff r (flags_union fs) /\
  is_uint32 (Options_UnSet r fs) /\
  (forall f, f ∈ fs -> Options_IsSet (Options_UnSet r fs) f = false) /\
  (forall g, (forall f, f ∈ fs -> Z.land f g = 0) ->
             Options_IsSet (Options_UnSet r fs) g = Options_IsSet r g).
Proof.
  intros Hr Hfs. rewrite (Options_UnSet_union r fs Hr Hfs).
  split; [reflexivity|]. split; [|split].
  - apply ldiff_uint32; [exact Hr | now apply flags_union_uint32].
  - intros f Hin. unfold Options_IsSet.
    rewrite <- (flags_union_member fs f Hin).
    rewrite Z.land_assoc, ldiff_land_disjoint. reflexivity.
  - intros g Hg. unfold Options_IsSet.
    now rewrite (land_ldiff_disjoint r _ g (flags_union_disjoint fs g Hg)).
Qed.

Lemma Options_UnSet_clears_all_witness :
  Options_UnSet 15 [2; 8] = Z.ldiff 15 (flags_union [2; 8]) /\
  is_uint32 (Options_UnSet 15 [2; 8]) /\
  (forall f, f ∈ [2; 8] -> Options_IsSet (Options_UnSet 15 [2; 8]) f = false) /\
  (forall g, (forall f, f ∈ [2; 8] -> Z.land f g = 0) ->
             Options_IsSet (Options_UnSet 15 [2; 8]) g = Options_IsSet 15 g).
Proof.
  apply (Options_UnSet_clears_all 15 [2; 8]).
  - unfold is_uint32. lia.
  - intros f Hf. unfold is_uint32.
    repeat (apply elem_of_cons in Hf as [->|Hf]; [lia|]). inversion Hf.
Defined.

Lemma flag_blocks_disjoint (fs : list Z) (f g : Z) :
  fs ∈ [request_options; policies] -> f ∈ fs -> g ∈ fs -> f <> g ->
  is_uint32 f /\ f <> 0 /\ Z.land f g = 0.
Proof.
  intros Hfs Hf Hg Hne.
  repeat (apply elem_of_cons in Hfs as [->|Hfs]); [| |inversion Hfs].
  - unfold request_options in Hf, Hg.
    repeat (apply elem_of_cons in Hf as [->|Hf]); try (inversion Hf; fail);
      repeat (apply elem_of_cons in Hg as [->|Hg]); try (inversion Hg; fail);
      try congruence; (split; [unfold is_uint32; vm_compute; intuition congruence|]);
      (split; [discriminate | reflexivity]).
  - unfold policies in Hf, Hg.
    repeat (apply elem_of_cons in Hf as [->|Hf]); try (inversion Hf; fail);
      repeat (apply elem_of_cons in Hg as [->|Hg]); try (inversion Hg; fail);
      try congruence; (split; [unfold is_uint32; vm_compute; intuition congruence|]);
      (split; [discriminate | reflexivity]).
Qed.

Lemma flag_blocks_powers :
  request_options = map (fun i => 2 ^ Z.of_nat i) (seq 0 9) /\
  policies = map (fun i => 2 ^ Z.of_nat i) (seq 0 10).
Proof. split; reflexivity. Qed.

Lemma flag_blocks_NoDup (fs : list Z) :
  fs ∈ [request_options; policies] -> NoDup fs.
Proof.
  intros Hfs.
  repeat (apply elem_of_cons in Hfs as [->|Hfs]); [| |inversion Hfs];
    apply (bool_decide_unpack _); vm_compute; exact I.
Qed.

(** X3: the nine request options are the single bits [2^0 .. 2^8] and the
    ten policies the single bits [2^0 .. 2^9], so that no flag occurs twice
    in its block; on a 32-bit register, setting or clearing one flag of a
    block makes that flag read as set or not set and leaves every other
    flag of the block reading as before. *)
Theorem flags_independent :
  request_options = map (fun i => 2 ^ Z.of_nat i) (seq 0 9) /\
  policies = map (fun i => 2 ^ Z.of_nat i) (seq 0 10) /\
  forall fs : list Z,
    fs ∈ [request_options; policies] ->
    NoDup fs /\
    forall r f g : Z,
      is_uint32 r -> f ∈ fs -> g ∈ fs -> f <> g ->
      Options_IsSet (Options_Set r [f]) f = true /\
      Options_IsSet (Options_Set r [f]) g = Options_IsSet r g /\
      Options_IsSet (Options_UnSet r [f]) f = false /\
      Options_IsSet (Options_UnSet r [f]) g = Options_IsSet r g.
Proof.
  split; [apply flag_blocks_powers|]. split; [apply flag_blocks_powers|].
  intros fs Hfs. split; [now apply flag_blocks_NoDup|].
  intros r f g Hr Hf Hg Hne.
  destruct (flag_blocks_disjoint fs f g Hfs Hf Hg Hne) as (Hu & H0 & Hd).
  unfold Options_IsSet.
  rewrite (Options_UnSet_one r f Hr Hu), ldiff_land_disjoint.
  rewrite (land_ldiff_disjoint r f g Hd).
  change (Options_Set r [f]) with (Z.lor r f).
  rewrite !Z.land_lor_distr_l, Hd, Z.lor_0_r, Z.land_diag.
  repeat split; try reflexivity.
  apply negb_true_iff, Z.eqb_neq. intros H. apply Z.lor_eq_0_iff in H. tauto.
Qed.

Lemma flags_independent_witness :
  Options_IsSet (Options_Set 0 [doDNS]) doDNS = true /\
  Options_IsSet (Options_Set 0 [doDNS]) doConnect = Options_IsSet 0 doConnect /\
  Options_IsSet (Options_UnSet 0 [doDNS]) doDNS = false /\
  Options_IsSet (Options_UnSet 0 [doDNS]) doConnect = Options_IsSet 0 doConnect.
Proof.
  apply (proj2 (proj2 (proj2 flags_independent) request_options
                  ltac:(apply elem_of_cons; now left)) 0 doDNS doConnect).
  - unfold is_uint32. lia.
  - unfold request_options. repeat (apply elem_of_cons; first [now left | right]).
  - unfold request_options. repeat (apply elem_of_cons; first [now left | right]).
  - discriminate.
Defined.

Lemma lor_below_pow2 (a b n : Z) :
  0 <= n -> 0 <= a < 2 ^ n -> 0 <= b < 2 ^ n -> 0 <= Z.lor a b < 2 ^ n.
Proof.
  intros Hn Ha Hb. split; [apply Z.lor_nonneg; lia|].
  destruct (Z.eq_dec (Z.lor a b) 0) as [->|Hne]; [apply Z.pow_pos_nonneg; lia|].
  assert (0 <= Z.lor a b) by (apply Z.lor_nonneg; lia).
  apply Z.log2_lt_pow2; [lia|].
  rewrite Z.log2_lor by lia.
  assert (Hpos : 0 < n).
  { destruct (Z.eq_dec n 0) as [->|]; [|lia].
    exfalso. apply Hne. replace a with 0 by lia. replace b with 0 by lia.
    reflexivity. }
  assert (L : forall c, 0 <= c < 2 ^ n -> Z.log2 c < n).
  { intros c Hc. destruct (Z.eq_dec c 0) as [->|]; [exact Hpos|].
    apply Z.log2_lt_pow2; lia. }
  apply Z.max_lub_lt; apply L; assumption.
Qed.

(** X4: whatever request options are set on an empty register, and in
    whatever order, the register stays below [2^16]: the options fit the
    16-bit field the comment of lines 38-40 reserves for them. *)
Theorem request_options_fit_uint16 (fs : list Z) :
  (forall f, f ∈ fs -> f ∈ request_options) ->
  0 <= Options_Set 0 fs < 2 ^ 16.
Proof.
  intros H. rewrite Options_Set_union, Z.lor_0_l.
  induction fs as [|f fs IH]; cbn; [lia|].
  fold (flags_union fs). apply lor_below_pow2; [lia| |].
  - assert (Hf : f ∈ request_options) by (apply H; now apply elem_of_cons; left).
    unfold request_options in Hf.
    repeat (apply elem_of_cons in Hf as [->|Hf]); try (inversion Hf; fail);
      vm_compute; intuition congruence.
  - apply IH. intros g Hg. apply H. now apply elem_of_cons; right.
Qed.

Lemma request_options_fit_uint16_witness :
  0 <= Options_Set 0 [doLocalRP; doConnect; doLocalRP] < 2 ^ 16.
Proof.
  apply (request_options_fit_uint16 [doLocalRP; doConnect; doLocalRP]).
  intros f Hf. unfold request_options.
  repeat (apply elem_of_cons in Hf as [->|Hf];
          [repeat (apply elem_of_cons; first [now left | right])|]).
  inversion Hf.
Defined.

(** ** The byte buffer *)

Lemma buffer_Writes_two (b v w : string) : buffer_Writes b [v; w] = b +:+ v +:+ w.
Proof. unfold buffer_Writes. cbn [fold_left]. apply app_assoc_s. Qed.

Lemma written_with_app (sep : ascii) (vs : list string) (b : string) :
  written_with sep vs b = b +:+ written_with sep vs "".
Proof.
  unfold written_with. revert b. induction vs as [|v vs IH]; intros b; cbn [fold_left].
  - symmetry. apply app_empty_r.
  - rewrite IH, (IH (buffer_Writes "" _)), !buffer_Writes_two, app_empty_l.
    now rewrite !app_assoc_s.
Qed.

Lemma written_with_cons (sep : ascii) (v : string) (vs : list string) :
  written_with sep (v :: vs) "" = v +:+ String sep (written_with sep vs "").
Proof.
  change (written_with sep (v :: vs) "")
    with (written_with sep vs (buffer_Writes "" [v; String sep ""])).
  rewrite written_with_app, buffer_Writes_two, app_empty_l, app_assoc_s.
  now rewrite app_String, app_empty_l.
Qed.

Lemma written_with_nonempty (sep : ascii) (v : string) (vs : list string) :
  written_with sep (v :: vs) "" <> "".
Proof.
  rewrite written_with_cons. destruct v; [rewrite app_empty_l|rewrite app_String];
    discriminate.
Qed.

Lemma buffer_Trunc_written (sep : ascii) (vs : list string) :
  buffer_Trunc sep (written_with sep vs "") = join_with sep vs.
Proof.
  induction vs as [|v vs IH]; [reflexivity|].
  rewrite written_with_cons. destruct vs as [|w vs].
  - cbn [join_with]. apply buffer_Trunc_last.
  - rewrite buffer_Trunc_app by discriminate.
    change (String sep (written_with sep (w :: vs) ""))
      with (String sep "" +:+ written_with sep (w :: vs) "") at 1.
    rewrite buffer_Trunc_app by apply written_with_nonempty.
    rewrite IH. cbn [join_with]. now rewrite app_String, app_empty_l.
Qed.

(** X5: a buffer into which [Writes(v, sep)] wrote each of the strings [vs]
    and which [Trunc(sep)] then cut holds the strings joined by [sep], with
    no separator at the end, whatever bytes the strings hold; for no strings
    it is empty. *)
Theorem buffer_Writes_Trunc_joins (sep : ascii) (vs : list string) :
  buffer_Trunc sep
    (fold_left (fun b v => buffer_Writes b [v; String sep ""]) vs "")
  = join_with sep vs.
Proof. apply (buffer_Trunc_written sep vs). Qed.

Lemma buffer_Trunc_keeps (t : ascii) (b : string) :
  HasSuffix b (String t "") = false -> buffer_Trunc t b = b.
Proof.
  induction b as [|c b IH]; intros H; [reflexivity|].
  destruct b as [|d b].
  - cbn in *. destruct (Ascii.eqb c t); [discriminate H|reflexivity].
  - cbn [buffer_Trunc]. f_equal. apply IH.
    unfold HasSuffix in *. cbn [String.length] in *.
    replace (S (S (String.length b)) - 1)%nat with (S (S (String.length b) - 1)) in H
      by lia.
    exact H.
Qed.

(** X6: [Trunc(t)] removes the last byte of the buffer when that byte is
    [t], and only then: a buffer that does not end in [t], the empty one
    included, is left as it is, and never more than one byte goes. *)
Theorem buffer_Trunc_spec (t : ascii) (b : string) :
  (forall s : string, b = s +:+ String t "" -> buffer_Trunc t b = s) /\
  (HasSuffix b (String t "") = false -> buffer_Trunc t b = b) /\
  buffer_Trunc t "" = "" /\
  len b - 1 <= len (buffer_Trunc t b) <= len b.
Proof.
  split; [|split; [|split]].
  - intros s ->. apply buffer_Trunc_last.
  - apply buffer_Trunc_keeps.
  - reflexivity.
  - destruct (HasSuffix b (String t "")) eqn:E.
    + apply HasSuffix_split in E as [_ E].
      set (s := str_take _ b) in E. clearbody s. subst b.
      rewrite buffer_Trunc_last, len_app.
      change (len (String t "")) with 1. lia.
    + rewrite (buffer_Trunc_keeps t b E). lia.
Qed.

(** ** genHost *)

Section GenHostProps.
Context {Rand : Type}.
Variable Intn : Rand -> Z -> Z * Rand.

Lemma genHost_tld (n : Z) :
  0 <= n < 3 ->
  exists tld : string,
    tld ∈ [".com"; ".net"; ".org"] /\
    slice ".com.net.org" (n * 4) (n * 4 + 4) = Ret tld.
Proof.
  intros Hn.
  assert (C : n = 0 \/ n = 1 \/ n = 2) by lia.
  destruct C as [->|[->| ->]].
  - exists ".com". split; [|reflexivity]. apply elem_of_cons. now left.
  - exists ".net". split; [|reflexivity].
    apply elem_of_cons. right. apply elem_of_cons. now left.
  - exists ".org". split; [|reflexivity].
    do 2 (apply elem_of_cons; right). apply elem_of_cons. now left.
Qed.

(** X7: [genHost] returns the configured dummy domain when there is one and
    then draws no random number.  Without one it draws [Intn(3)], then a
    [Jibber] word, and returns the word followed by one of [.com], [.net],
    [.org]: for each answer 0, 1 or 2 of [Intn(3)] the slice [tlds[i:i+4]]
    is in range, so the call does not panic. *)
Theorem genHost_spec (proxy : @ProxyClient Rand) (rand : Rand) :
  let n := fst (Intn rand 3) in
  let word := Jibber (pc_Cipher proxy) (snd (Intn rand 3)) in
  (pc_DummyDomain proxy <> "" ->
   genHost Intn proxy rand = Ret (pc_DummyDomain proxy, rand)) /\
  (pc_DummyDomain proxy = "" -> 0 <= n < 3 ->
   exists tld : string,
     tld ∈ [".com"; ".net"; ".org"] /\
     genHost Intn proxy rand = Ret (fst word +:+ tld, snd word)).
Proof.
  cbv zeta. unfold genHost. split.
  - intros H. apply String.eqb_neq in H. now rewrite H.
  - intros -> Hn. cbn [String.eqb].
    destruct (Intn rand 3) as [n rand1]. cbn [fst snd] in *.
    destruct (Jibber (pc_Cipher proxy) rand1) as [j rand2]. cbn [fst snd].
    destruct (genHost_tld n Hn) as (tld & Hin & ->).
    exists tld. split; [exact Hin | reflexivity].
Qed.

End GenHostProps.

(** ** stripURI on an absolute URI *)

Lemma Index_byte_none (c : ascii) (s : string) :
  has_byte c s = false -> Index s (String c "") = -1.
Proof.
  induction s as [|d s IH]; intros H; [reflexivity|].
  cbn [has_byte] in H. apply orb_false_iff in H as [Hd Hs].
  rewrite Index_String, Hd, (IH Hs). reflexivity.
Qed.

Lemma stripURI_after_prefix (pre rest : string) :
  String.length pre = 8%nat -> String.get 0 pre <> Some "/"%char ->
  stripURI (pre +:+ rest) =
  (let idx := Index rest "/" in
   if -1 <? idx then
     u ← slice (pre +:+ rest) (idx + 1 + 8) (len (pre +:+ rest)); Ret (u, [])
   else Ret (pre +:+ rest, ["Unexpected URI: " +:+ pre +:+ rest])).
Proof.
  intros Hlen Hc. unfold stripURI.
  assert (L : len (pre +:+ rest) = 8 + len rest)
    by (rewrite len_app; unfold len; rewrite Hlen; lia).
  pose proof (len_nonneg rest) as Hr.
  replace (len (pre +:+ rest) <? 1) with false by (symmetry; apply Z.ltb_ge; lia).
  destruct pre as [|c pre']; [discriminate Hlen|].
  rewrite app_String, byte_at_0. cbn [mbind go_bind].
  destruct (Ascii.eqb c "/") eqn:E.
  { apply Ascii.eqb_eq in E as ->. now contradiction Hc. }
  cbn [negb]. rewrite <- app_String.
  rewrite slice_to_end by lia.
  change (Z.to_nat 8) with 8%nat. rewrite <- Hlen, str_drop_app.
  reflexivity.
Qed.

Lemma stripURI_cut (pre host path : string) :
  String.length pre = 8%nat -> String.get 0 pre <> Some "/"%char ->
  has_byte "/" host = false ->
  stripURI (pre +:+ host +:+ String "/" path) = Ret (path, []).
Proof.
  intros Hlen Hc Hh.
  rewrite (stripURI_after_prefix pre _ Hlen Hc). cbv zeta.
  rewrite (Index_byte_app "/" host path Hh).
  pose proof (len_nonneg host) as Hn.
  replace (-1 <? len host) with true by (symmetry; apply Z.ltb_lt; lia).
  rewrite slice_to_end.
  - replace (Z.to_nat (len host + 1 + 8))
      with (String.length (pre +:+ host +:+ "/")).
    + replace (pre +:+ host +:+ String "/" path)
        with ((pre +:+ host +:+ "/") +:+ path).
      * now rewrite str_drop_app.
      * rewrite !app_assoc_s. now rewrite app_String, app_empty_l.
    + apply Nat2Z.inj. rewrite Z2Nat.id by lia.
      change (Z.of_nat (String.length (pre +:+ host +:+ "/")))
        with (len (pre +:+ host +:+ "/")).
      rewrite !len_app. unfold len at 1. rewrite Hlen.
      change (len "/") with 1. lia.
  - rewrite !len_app, len_String.
    assert (len pre = 8) by (unfold len; now rewrite Hlen).
    pose proof (len_nonneg path). lia.
Qed.

(** X8: on a URI that does not begin with a slash, [stripURI] skips eight
    bytes (the scheme and, for [http://], one byte of the host) and returns
    what follows the first slash after them; with no slash after the first
    eight bytes it returns the URI as it is and logs one warning. *)
Theorem stripURI_absolute_form (pre rest : string) :
  String.length pre = 8%nat -> String.get 0 pre <> Some "/"%char ->
  (forall host path : string,
     rest = host +:+ String "/" path -> has_byte "/" host = false ->
     stripURI (pre +:+ rest) = Ret (path, [])) /\
  (has_byte "/" rest = false ->
   stripURI (pre +:+ rest) =
     Ret (pre +:+ rest, ["Unexpected URI: " +:+ pre +:+ rest])).
Proof.
  intros Hlen Hc. split.
  - intros host path -> Hh. now apply stripURI_cut.
  - intros Hr. rewrite (stripURI_after_prefix pre _ Hlen Hc). cbv zeta.
    now rewrite (Index_byte_none "/" rest Hr).
Qed.

Lemma stripURI_absolute_form_witness :
  stripURI "https://example.com/a/b" = Ret ("a/b", []) /\
  stripURI "http://example.com" = Ret ("http://example.com",
                                       ["Unexpected URI: http://example.com"]).
Proof.
  split.
  - apply (proj1 (stripURI_absolute_form "https://" "example.com/a/b" eq_refl
                    ltac:(discriminate)) "example.com" "a/b"); reflexivity.
  - apply (proj2 (stripURI_absolute_form "http://e" "xample.com" eq_refl
                    ltac:(discriminate))); reflexivity.
Defined.

(** ** splitHostPort: nothing is lost *)

Lemma str_drop_get (n : nat) (s : string) (c : ascii) :
  String.get n s = Some c -> str_drop n s = String c (str_drop (S n) s).
Proof.
  revert n. induction s as [|d s IH]; intros [|n] H; cbn in *; try discriminate.
  - now injection H as ->.
  - now apply IH.
Qed.

Lemma LastIndex_none (c : ascii) (s : string) :
  LastIndex s (String c "") < 0 -> has_byte c s = false.
Proof.
  induction s as [|d s IH]; intros H; [reflexivity|].
  cbn [LastIndex] in H. cbv zeta in H.
  destruct (0 <=? LastIndex s (String c "")) eqn:E.
  - apply Z.leb_le in E. lia.
  - apply Z.leb_gt in E. rewrite prefix_byte in H.
    cbn [has_byte]. rewrite (IH E).
    destruct (Ascii.eqb d c); [lia | reflexivity].
Qed.

Lemma LastIndex_drop (c : ascii) (s : string) (i : nat) :
  has_byte c (str_drop i s) = true -> Z.of_nat i <= LastIndex s (String c "").
Proof.
  revert i. induction s as [|d s IH]; intros i H.
  - destruct i; discriminate H.
  - cbn [LastIndex]. cbv zeta.
    destruct (0 <=? LastIndex s (String c "")) eqn:E.
    + apply Z.leb_le in E. destruct i as [|i]; [lia|].
      cbn [str_drop] in H. specialize (IH i H). lia.
    + apply Z.leb_gt in E. pose proof (LastIndex_none c s E) as Hs.
      destruct i as [|i].
      * cbn [str_drop has_byte] in H. rewrite Hs, orb_false_r in H.
        rewrite prefix_byte, H. lia.
      * cbn [str_drop] in H. specialize (IH i H). lia.
Qed.

Section SplitHostPortTotal.
Variable ToLower : string -> string.

(** X9: [splitHostPort] never panics and loses no byte: the host is cut in
    two at one place, the first part is handed to [strings.ToLower] and the
    second is returned as it is; the second part is empty or is the last
    colon with what follows it, which then holds no colon and no closing
    bracket. *)
Theorem splitHostPort_lossless (host : string) :
  exists h p : string,
    splitHostPort ToLower host = Ret (ToLower h, p) /\
    h +:+ p = host /\
    (p = "" \/
     exists rest : string,
       p = String ":" rest /\ h <> "" /\
       has_byte ":" rest = false /\ has_byte "]" rest = false).
Proof.
  pose proof (LastIndex_range host ":") as R.
  destruct (Z_lt_dec 0 (LastIndex host ":")) as [Hpos|Hnot];
    [destruct (Z_lt_dec (LastIndex host "]") (LastIndex host ":")) as [Hb|Hb]|].
  - set (idx := LastIndex host ":") in *.
    destruct (LastIndex_byte_spec ":" host idx eq_refl ltac:(lia)) as [Hget Hlast].
    exists (str_take (Z.to_nat idx) host), (str_drop (Z.to_nat idx) host).
    split; [|split].
    + unfold splitHostPort. fold idx.
      replace (0 <? idx) with true by (symmetry; apply Z.ltb_lt; lia).
      replace (LastIndex host "]" <? idx) with true by (symmetry; apply Z.ltb_lt; lia).
      rewrite slice_from_start by lia. rewrite slice_to_end by lia. reflexivity.
    + apply str_take_drop.
    + right. exists (str_drop (S (Z.to_nat idx)) host).
      split; [now apply str_drop_get|]. split; [|split].
      * destruct host as [|c host']; [discriminate Hget|].
        destruct (Z.to_nat idx) eqn:En; [lia|]. discriminate.
      * apply LastIndex_none. change (String ":" "") with ":" . lia.
      * destruct (has_byte "]" (str_drop (S (Z.to_nat idx)) host)) eqn:E;
          [|reflexivity].
        apply LastIndex_drop in E. change (String "]" "") with "]" in E. lia.
  - exists host, "". split; [|split].
    + unfold splitHostPort.
      replace (0 <? LastIndex host ":") with true by (symmetry; apply Z.ltb_lt; lia).
      now replace (LastIndex host "]" <? LastIndex host ":") with false
        by (symmetry; apply Z.ltb_ge; lia).
    + apply app_empty_r.
    + now left.
  - exists host, "". split; [|split].
    + unfold splitHostPort.
      now replace (0 <? LastIndex host ":") with false
        by (symmetry; apply Z.ltb_ge; lia).
    + apply app_empty_r.
    + now left.
Qed.

End SplitHostPortTotal.

(** ** readUntil: what a call returns *)

Lemma byte_at_get (s : string) (i : Z) (e : ascii) :
  byte_at s i = Ret e -> 0 <= i < len s /\ String.get (Z.to_nat i) s = Some e.
Proof.
  unfold byte_at. intros H.
  destruct ((0 <=? i) && (i <? len s)) eqn:E; [|discriminate H].
  apply andb_true_iff in E as [E1 E2]. apply Z.leb_le in E1. apply Z.ltb_lt in E2.
  destruct (String.get (Z.to_nat i) s) as [c|]; [|discriminate H].
  injection H as ->. split; [lia | reflexivity].
Qed.


Lemma str_take_get (n : nat) (s : string) (e : ascii) :
  String.get n s = Some e ->
  list_ascii_of_string (str_take (S n) s) = list_ascii_of_string (str_take n s) ++ [e].
Proof.
  revert n. induction s as [|d s IH]; intros n H; [destruct n; discriminate H|].
  destruct n as [|n].
  - cbn in H. injection H as ->. reflexivity.
  - cbn [String.get] in H.
    change (str_take (S (S n)) (String d s)) with (String d (str_take (S n) s)).
    change (str_take (S n) (String d s)) with (String d (str_take n s)).
    cbn [list_ascii_of_string]. now rewrite (IH n H).
Qed.

Lemma readUntil_loop_found (data eoh : string) (buf0 : ascii)
    (respbuf : list ascii) (eidx : Z) (bs : list ascii) (r' : Reader) :
  0 <= eidx ->
  (exists pre, respbuf = pre ++ list_ascii_of_string (str_take (Z.to_nat eidx) eoh)) ->
  readUntil_loop (reader_of data) eoh buf0 respbuf eidx = Ret (inl bs, r') ->
  r' <> [] ->
  exists pre, bs = pre ++ list_ascii_of_string eoh.
Proof.
  revert buf0 respbuf eidx.
  induction data as [|c data IH]; intros buf0 respbuf eidx H0 [pre Hpre] H Hr.
  - cbn [reader_of list_ascii_of_string map readUntil_loop readUntil_step] in H.
    destruct (byte_at eoh eidx) as [e|]; [|discriminate H].
    rewrite bind_Ret in H.
    destruct (Ascii.eqb buf0 e); [destruct (eidx + 1 =? len eoh)|];
      rewrite bind_Ret in H; cbn in H; injection H as _ <-; now contradiction Hr.
  - change (reader_of (String c data)) with ((Some c, None) :: reader_of data) in H.
    cbn [readUntil_loop readUntil_step] in H.
    destruct (byte_at eoh eidx) as [e|] eqn:Hb; [|discriminate H].
    apply byte_at_get in Hb as [Hi Hget].
    rewrite bind_Ret in H.
    destruct (Ascii.eqb c e) eqn:Ec.
    + apply Ascii.eqb_eq in Ec as ->.
      assert (T : respbuf ++ [e]
                  = pre ++ list_ascii_of_string (str_take (Z.to_nat (eidx + 1)) eoh)).
      { replace (Z.to_nat (eidx + 1)) with (S (Z.to_nat eidx)) by lia.
        rewrite (str_take_get _ _ _ Hget), Hpre. now rewrite <- app_assoc. }
      destruct (eidx + 1 =? len eoh) eqn:El; rewrite bind_Ret in H.
      * apply Z.eqb_eq in El. cbn in H. injection H as <- _.
        exists pre. rewrite T. do 2 f_equal.
        rewrite El. unfold len. rewrite Nat2Z.id. apply str_take_all.
      * cbn beta iota in H. apply (IH _ _ (eidx + 1) ltac:(lia) (ex_intro _ pre T) H Hr).
    + rewrite bind_Ret in H. cbn beta iota in H.
      apply (IH _ _ 0 ltac:(lia)
               (ex_intro _ (respbuf ++ [c]) (eq_sym (app_nil_r _))) H Hr).
Qed.

(** X10: when [readUntil] succeeds on a string reader, the bytes it returns
    are exactly the bytes it took from the reader: followed by what is left
    unread they are the input, so nothing is lost and nothing is read past
    the point of return; and if anything is left unread, the returned bytes
    end with the marker. *)
Theorem readUntil_returns_consumed (data eoh : string) (bs : list ascii)
    (r' : Reader) :
  readUntil (reader_of data) eoh = Ret (inl bs, r') ->
  string_of_list_ascii bs +:+ unread r' = data /\
  (r' <> [] -> exists pre : string, string_of_list_ascii bs = pre +:+ eoh).
Proof.
  intros H. split; [now apply (readUntil_consumed data eoh)|].
  intros Hr.
  destruct (readUntil_loop_found data eoh zero [] 0 bs r' ltac:(lia)
              (ex_intro _ [] eq_refl) H Hr) as [pre ->].
  exists (string_of_list_ascii pre).
  now rewrite string_of_list_ascii_app, string_of_list_ascii_of_string.
Qed.

Lemma readUntil_returns_consumed_witness :
  string_of_list_ascii (list_ascii_of_string ("X: 1" +:+ CRLF +:+ CRLF))
    +:+ unread (reader_of "BODY") = "X: 1" +:+ CRLF +:+ CRLF +:+ "BODY" /\
  (reader_of "BODY" <> [] ->
   exists pre : string,
     string_of_list_ascii (list_ascii_of_string ("X: 1" +:+ CRLF +:+ CRLF))
     = pre +:+ (CRLF +:+ CRLF)).
Proof.
  apply (readUntil_returns_consumed ("X: 1" +:+ CRLF +:+ CRLF +:+ "BODY")
           (CRLF +:+ CRLF)).
  reflexivity.
Defined.







(** ** decryptRequest: the stripping pass on canonical keys, and the early
    return *)

Section DecryptRequestStrip.
Variable ToLower : string -> string.
Local Abbreviation strip_cond := (strip_cond ToLower).

Lemma decryptRequest_strip_lookup (order : list string) (h : Header) :
  (forall k, is_Some (h !! k) -> 3 <= len k /\ CanonicalMIMEHeaderKey k = k) ->
  exists h' : Header,
    decryptRequest_strip ToLower order h = Ret h' /\
    forall k : string,
      h' !! k = if bool_decide (k ∈ order) && strip_cond k then None else h !! k.
Proof.
  revert h. induction order as [|k0 order IH]; intros h Hh.
  - exists h. split; [reflexivity|]. intros k.
    rewrite bool_decide_eq_false_2; [reflexivity | apply not_elem_of_nil].
  - destruct (h !! k0) as [vs|] eqn:E.
    + destruct (Hh k0 (ex_intro _ vs E)) as [Hlen Hcan].
      rewrite (decryptRequest_strip_step ToLower k0 order h (ex_intro _ vs E) Hlen).
      assert (Hdel : Header_Del k0 h = delete k0 h)
        by (unfold Header_Del; now rewrite Hcan).
      destruct (IH (if strip_cond k0 then Header_Del k0 h else h)) as (h' & Hrun & Hl).
      { intros k [ws Hk]. apply Hh. destruct (strip_cond k0); [|now exists ws].
        rewrite Hdel in Hk. apply lookup_delete_Some in Hk as [_ Hk]. now exists ws. }
      exists h'. split; [exact Hrun|]. intros k. rewrite (Hl k).
      destruct (decide (k = k0)) as [->|Hne].
      * rewrite (bool_decide_eq_true_2 (k0 ∈ k0 :: order)) by (apply elem_of_cons; now left).
        destruct (strip_cond k0); cbn [andb].
        -- rewrite Hdel, lookup_delete_eq. now destruct (bool_decide _).
        -- now rewrite andb_false_r.
      * assert (Hmem : bool_decide (k ∈ k0 :: order) = bool_decide (k ∈ order)).
        { apply bool_decide_ext. rewrite elem_of_cons. tauto. }
        rewrite Hmem. destruct (strip_cond k0); [|reflexivity].
        now rewrite Hdel, lookup_delete_ne.
    + cbn [decryptRequest_strip]. rewrite E.
      destruct (IH h Hh) as (h' & Hrun & Hl).
      exists h'. split; [exact Hrun|]. intros k. rewrite (Hl k).
      destruct (decide (k = k0)) as [->|Hne].
      * rewrite E. now destruct (_ && _), (_ && _).
      * replace (bool_decide (k ∈ k0 :: order)) with (bool_decide (k ∈ order));
          [reflexivity|].
        apply bool_decide_ext. rewrite elem_of_cons. tauto.
Qed.

(** X13: on a header whose keys are all canonical and at least three bytes
    long, as net/http parses them, the stripping pass of [decryptRequest]
    returns, in whatever order it ranges over the keys, and its result is
    the header without the entries whose key begins with [Cf-] or is longer
    than twelve bytes and begins, in any case, with [x-forwarded-]; every
    other entry is left as it was. *)
Theorem decryptRequest_strip_canonical (order : list string) (h : Header) :
  range_order order h ->
  (forall k, is_Some (h !! k) -> 3 <= len k /\ CanonicalMIMEHeaderKey k = k) ->
  exists h' : Header,
    decryptRequest_strip ToLower order h = Ret h' /\
    forall k : string, h' !! k = if strip_cond k then None else h !! k.
Proof.
  intros [_ Hord] Hh.
  destruct (decryptRequest_strip_lookup order h Hh) as (h' & Hrun & Hl).
  exists h'. split; [exact Hrun|]. intros k. rewrite (Hl k).
  destruct (decide (k ∈ order)) as [Hin|Hout].
  - now rewrite bool_decide_eq_true_2.
  - rewrite bool_decide_eq_false_2 by exact Hout. cbn [andb].
    destruct (h !! k) eqn:E; [|now destruct (strip_cond k)].
    exfalso. apply Hout, Hord. now rewrite E.
Qed.

End DecryptRequestStrip.

Section DecryptRequestReturn.
Context {Rand : Type}.
Variable ToLower : string -> string.
Variable Cookies : Header -> list Cookie.
Variable Cookie_String : Cookie -> string.
Variable Body : Type.
Variable NewReadCloser : Body -> IV -> Body.

Lemma decrypt_cookies_fails (gc : Cipher Rand) (iv : IV) (cs : list Cookie)
    (c : Cookie) (buf : string) :
  c ∈ cs -> snd (Decrypt gc (Cookie_Value c) iv) <> None ->
  exists e : error, decrypt_cookies Cookie_String gc iv cs buf = inr e.
Proof.
  revert buf. induction cs as [|c0 cs IH]; intros buf Hin Hc; [inversion Hin|].
  cbn [decrypt_cookies].
  destruct (Decrypt gc (Cookie_Value c0) iv) as [v [e|]] eqn:E0; [now exists e|].
  apply elem_of_cons in Hin as [->|Hin].
  - rewrite E0 in Hc. now contradiction Hc.
  - now apply IH.
Qed.

(** X14: when one of the request's cookies does not decrypt,
    [decryptRequest] logs the failure and returns with the request exactly
    as it came: no header is rewritten, the stripping pass does not run (so
    that a short key cannot make it panic) and the body is not wrapped. *)
Theorem decryptRequest_cookie_failure (gc : Cipher Rand) (order : list string)
    (req : Request Body) (iv : IV) (c : Cookie) :
  c ∈ Cookies (req_Header Body req) ->
  snd (Decrypt gc (Cookie_Value c) iv) <> None ->
  exists e : error,
    decryptRequest ToLower Cookies Cookie_String Body NewReadCloser gc order req iv
    = Ret (req, ["Failed to decrypt cookie: " +:+ e]).
Proof.
  intros Hin Hc. unfold decryptRequest.
  destruct (decrypt_cookies_fails gc iv _ c "" Hin Hc) as [e ->].
  now exists e.
Qed.

End DecryptRequestReturn.

Lemma range_order_insert (order : list string) (h : Header) (k : string)
    (vs : list string) :
  range_order order h -> h !! k = None -> range_order (k :: order) (<[k := vs]> h).
Proof.
  intros [Hnd Hord] Hk. split.
  - apply NoDup_cons. split; [|exact Hnd].
    intros Hin. apply Hord in Hin. rewrite Hk in Hin. now destruct Hin.
  - intros k'. rewrite elem_of_cons, lookup_insert_is_Some, Hord.
    destruct (decide (k = k')) as [->|Hne]; [tauto|].
    split; [intros [->|?]; [now contradiction Hne | now right] | intros [->|[_ ?]]; tauto].
Qed.

Lemma decryptRequest_strip_canonical_witness :
  exists h' : Header,
    decryptRequest_strip lower_ascii ["Cf-Ray"; "Host"; "X-Forwarded-For"]
      (<["Cf-Ray" := ["1"]]> (<["Host" := ["a.b"]]>
         (<["X-Forwarded-For" := ["10.0.0.1"]]> ∅)))
    = Ret h' /\
    forall k : string,
      h' !! k =
      if strip_cond lower_ascii k then None
      else (<["Cf-Ray" := ["1"]]> (<["Host" := ["a.b"]]>
              (<["X-Forwarded-For" := ["10.0.0.1"]]> ∅)) : Header) !! k.
Proof.
  apply (decryptRequest_strip_canonical lower_ascii).
  - repeat (apply range_order_insert; [|reflexivity]). apply range_order_empty.
  - intros k Hk.
    repeat (apply lookup_insert_is_Some in Hk as [<-|[_ Hk]]; [now split|]).
    rewrite lookup_empty in Hk. now destruct Hk.
Defined.

Lemma decryptRequest_cookie_failure_witness :
  exists e : error,
    decryptRequest (Rand := nat) lower_ascii
      (fun _ => [{| Cookie_Name := "sid"; Cookie_Value := "not digits" |}])
      Cookie_Value unit (fun b _ => b) (CipherModel.cipher "a1b2c3") ["Te"]
      {| req_Header := {["Te" := ["trailers"]]}; req_Body := tt |} CipherModel.iv
    = Ret ({| req_Header := {["Te" := ["trailers"]]}; req_Body := tt |},
           ["Failed to decrypt cookie: " +:+ e]).
Proof.
  apply (decryptRequest_cookie_failure lower_ascii _ Cookie_Value unit (fun b _ => b)
           (CipherModel.cipher "a1b2c3") ["Te"] _ CipherModel.iv
           {| Cookie_Name := "sid"; Cookie_Value := "not digits" |}).
  - apply elem_of_cons. now left.
  - discriminate.
Defined.

(** ** copyHeaders: the clearing loop, the plain copy and the encrypted
    response *)

Lemma Canonical_idem (k : string) :
  CanonicalMIMEHeaderKey (CanonicalMIMEHeaderKey k) = CanonicalMIMEHeaderKey k.
Proof.
  destruct (str_forallb validHeaderFieldByte k) eqn:E.
  - apply Canonical_of_lower; [apply lower_Canonical | exact E].
  - unfold CanonicalMIMEHeaderKey at 2 3. rewrite E.
    unfold CanonicalMIMEHeaderKey. now rewrite E.
Qed.

Lemma clear_headers_keeps (order : list string) (d : Header) (K : string) :
  CanonicalMIMEHeaderKey K <> K -> clear_headers order d !! K = d !! K.
Proof.
  intros HK. revert d. induction order as [|k order IH]; intros d; [reflexivity|].
  rewrite clear_headers_cons, IH.
  destruct (d !! k); [|reflexivity].
  unfold Header_Del. apply lookup_delete_ne.
  intros E. apply HK. rewrite <- E. apply Canonical_idem.
Qed.

(** X15: the clearing loop at the head of [copyHeaders] removes from the
    destination exactly the entries whose key is in canonical form, in
    whatever order it ranges over the keys; an entry under a key that is not
    canonical (as a caller can store by writing to the map directly) is
    never deleted, because [Del] canonicalizes the key it is given. *)
Theorem clear_headers_spec (order : list string) (d : Header) (K : string) :
  range_order order d ->
  clear_headers order d !! K =
  if bool_decide (CanonicalMIMEHeaderKey K = K) then None else d !! K.
Proof.
  intros [_ Hord]. destruct (decide (CanonicalMIMEHeaderKey K = K)) as [HK|HK].
  - rewrite bool_decide_eq_true_2 by exact HK.
    apply clear_headers_canonical; [exact HK|].
    destruct (d !! K) eqn:E; [left | now right].
    apply Hord. now rewrite E.
  - rewrite bool_decide_eq_false_2 by exact HK. now apply clear_headers_keeps.
Qed.

Lemma clear_headers_spec_witness :
  clear_headers ["Server"; "x-id"] (<["Server" := ["nginx"]]> (<["x-id" := ["7"]]> ∅))
    !! "x-id" = Some ["7"] /\
  clear_headers ["Server"; "x-id"] (<["Server" := ["nginx"]]> (<["x-id" := ["7"]]> ∅))
    !! "Server" = None.
Proof.
  split.
  - rewrite (clear_headers_spec ["Server"; "x-id"] _ "x-id"); [reflexivity|].
    repeat (apply range_order_insert; [|reflexivity]). apply range_order_empty.
  - rewrite (clear_headers_spec ["Server"; "x-id"] _ "Server"); [reflexivity|].
    repeat (apply range_order_insert; [|reflexivity]). apply range_order_empty.
Defined.

Lemma iv_nonzero_zeroIV : iv_nonzero zeroIV = false.
Proof. apply bool_decide_eq_false_2. intros H. now apply H. Qed.

Section PlainCopy.
Context {Rand : Type}.
Variable ToLower : string -> string.

Lemma copy_value_plain (gc gc' : Cipher Rand) (enc : bool) (k v : string)
    (st : Header * string) :
  copy_value ToLower gc enc zeroIV k v st = copy_value ToLower gc' enc zeroIV k v st /\
  forall st', copy_value ToLower gc enc zeroIV k v st = Ret st' -> snd st' = snd st.
Proof.
  destruct st as [dst buf]. unfold copy_value. rewrite iv_nonzero_zeroIV.
  split; [reflexivity|].
  intros st'.
  destruct (String.eqb (ToLower k) "set-cookie");
    [|destruct (_ || _); [|destruct (_ || _)]];
    destruct enc; cbn [negb];
    try (destruct (slice k 2 (len k)); [rewrite bind_Ret|discriminate]);
    intros H; injection H as <-; reflexivity.
Qed.

Lemma copy_values_plain (gc gc' : Cipher Rand) (enc : bool) (k : string)
    (vs : list string) (st : Header * string) :
  copy_values ToLower gc enc zeroIV k vs st = copy_values ToLower gc' enc zeroIV k vs st /\
  forall st', copy_values ToLower gc enc zeroIV k vs st = Ret st' -> snd st' = snd st.
Proof.
  revert st. induction vs as [|v vs IH]; intros st; cbn [copy_values].
  - split; [reflexivity|]. now intros st' [= <-].
  - destruct (copy_value_plain gc gc' enc k v st) as [<- Hb].
    destruct (copy_value ToLower gc enc zeroIV k v st) as [st1|]; [|now split].
    rewrite !bind_Ret. destruct (IH st1) as [E Hb']. split; [exact E|].
    intros st' H. rewrite (Hb' st' H). now apply Hb.
Qed.

Lemma copy_entries_plain (gc gc' : Cipher Rand) (enc : bool)
    (src : list (string * list string)) (st : Header * string) :
  copy_entries ToLower gc enc zeroIV src st = copy_entries ToLower gc' enc zeroIV src st /\
  forall st', copy_entries ToLower gc enc zeroIV src st = Ret st' -> snd st' = snd st.
Proof.
  revert st. induction src as [|[k vs] src IH]; intros st; cbn [copy_entries].
  - split; [reflexivity|]. now intros st' [= <-].
  - destruct (copy_values_plain gc gc' enc k vs st) as [<- Hb].
    destruct (copy_values ToLower gc enc zeroIV k vs st) as [st1|]; [|now split].
    rewrite !bind_Ret. destruct (IH st1) as [E Hb']. split; [exact E|].
    intros st' H. rewrite (Hb' st' H). now apply Hb.
Qed.

(** X16: with the all-zero IV, [copyHeaders] is a plain copy that never uses
    the cipher, in either direction: the call gives the same outcome with
    any two ciphers, leaves the random generator as it found it, and adds no
    combined cookie. *)
Theorem copyHeaders_zero_iv_plain (order : list string) (dst : Header)
    (src : list (string * list string)) (gc gc' : Cipher Rand) (enc : bool)
    (rand : Rand) :
  copyHeaders ToLower order dst src gc enc zeroIV rand
  = copyHeaders ToLower order dst src gc' enc zeroIV rand /\
  (forall (d : Header) (rand' : Rand),
     copyHeaders ToLower order dst src gc enc zeroIV rand = Ret (d, rand') ->
     rand' = rand /\
     copy_entries ToLower gc enc zeroIV src (clear_headers order dst, "") = Ret (d, "")).
Proof.
  unfold copyHeaders.
  destruct (copy_entries_plain gc gc' enc src (clear_headers order dst, "")) as [<- Hb].
  destruct (copy_entries ToLower gc enc zeroIV src (clear_headers order dst, ""))
    as [[d1 buf]|]; [|split; [reflexivity | discriminate]].
  specialize (Hb _ eq_refl). cbn [snd] in Hb. subst buf.
  rewrite !bind_Ret. unfold emit_setcookies. rewrite iv_nonzero_zeroIV, andb_false_r.
  split; [reflexivity|]. intros d rand' [= <- <-]. now split.
Qed.

End PlainCopy.

Section EncryptedResponse.
Context {Rand : Type}.
Variable ToLower : string -> string.
Hypothesis ToLower_ascii :
  forall s : string, is_ascii s = true -> ToLower s = lower_ascii s.
Variable gc : Cipher Rand.
Variable iv : IV.
Hypothesis iv_set : iv_nonzero iv = true.
Variable items : list (string * list string).
Hypothesis items_ascii : forall e, e ∈ items -> is_ascii (fst e) = true.

Lemma emit_enc_hides (lc K XK k v : string) (kv : string * string) :
  content_header lc K XK -> is_ascii k = true ->
  kv ∈ emit_enc ToLower k v -> CanonicalMIMEHeaderKey (fst kv) <> K.
Proof.
  intros HK Hk Hin E.
  destruct (content_header_facts lc K XK HK) as (HcK & _ & Hlc & _ & _).
  apply HcK in E.
  unfold emit_enc in Hin. rewrite (ToLower_ascii k Hk) in Hin.
  destruct (String.eqb (lower_ascii k) "set-cookie"); [now apply elem_of_nil in Hin|].
  destruct (String.eqb (lower_ascii k) "content-encoding"
            || String.eqb (lower_ascii k) "content-type") eqn:C.
  - apply list_elem_of_singleton in Hin as ->. cbn [fst] in E.
    rewrite lower_X in E.
    apply orb_true_iff in C as [C|C]; apply String.eqb_eq in C; rewrite C in E;
      destruct HK; discriminate E.
  - apply list_elem_of_fmap in Hin as (vn & -> & _). cbn [fst] in E.
    rewrite E, Hlc in C. discriminate C.
Qed.

Lemma picks_sent_hidden (lc K XK : string) (rand : Rand) :
  content_header lc K XK -> picks K (sent_adds ToLower gc iv items rand) = [].
Proof.
  intros HK. apply picks_none. intros kv Hin.
  unfold sent_adds in Hin. apply elem_of_app in Hin as [Hin|Hin].
  - unfold emits_enc in Hin. apply elem_of_flat_map in Hin as (e & He & Hin).
    apply elem_of_flat_map in Hin as (v & _ & Hin).
    apply (emit_enc_hides lc K XK (fst e) v kv HK (items_ascii e He) Hin).
  - destruct (bool_decide (source_values ToLower "set-cookie" items = []));
      [now apply elem_of_nil in Hin|].
    apply list_elem_of_singleton in Hin as ->. destruct HK; discriminate.
Qed.

(** X17: in the encrypting direction with a non-zero IV, over a source with
    ASCII keys and a destination with canonical keys, [copyHeaders] always
    returns, and what it leaves in the destination shows no [Content-Type]
    and no [Content-Encoding]; it holds at most one [Set-Cookie] value,
    none when the source had no cookie and otherwise the single combined
    cookie [word=Encrypt(cookies joined by newlines, then the Alias);
    Domain=word.com; HttpOnly]. *)
Theorem copyHeaders_enc_hides (order : list string) (dst : Header) (rand : Rand) :
  range_order order dst ->
  (forall k, is_Some (dst !! k) -> CanonicalMIMEHeaderKey k = k) ->
  exists (dst1 : Header) (rand1 : Rand),
    copyHeaders ToLower order dst items gc true iv rand = Ret (dst1, rand1) /\
    Header_values dst1 "Content-Type" = [] /\
    Header_values dst1 "Content-Encoding" = [] /\
    Header_values dst1 "Set-Cookie" =
      (if bool_decide (source_values ToLower "set-cookie" items = []) then []
       else [combined_cookie gc iv (jibber1 gc rand) (jibber2 gc rand)
               (join_lines (source_values ToLower "set-cookie" items))]).
Proof.
  intros Hord Hcan.
  rewrite (copyHeaders_enc ToLower gc iv iv_set items order dst rand Hord Hcan).
  eexists _, _. split; [reflexivity|].
  rewrite !values_adds. unfold Header_values at 1 2 3. rewrite !lookup_empty.
  cbn [default app].
  rewrite (picks_sent_hidden _ _ _ rand content_type),
    (picks_sent_hidden _ _ _ rand content_encoding).
  split; [reflexivity|]. split; [reflexivity|].
  apply (picks_sent_cookie ToLower ToLower_ascii gc iv items items_ascii rand).
Qed.

End EncryptedResponse.

Lemma copyHeaders_enc_hides_witness :
  exists (dst1 : Header) (rand1 : nat),
    copyHeaders lower_ascii [] ∅ CipherModel.response (CipherModel.cipher "a1b2c3")
      true CipherModel.iv 0%nat = Ret (dst1, rand1) /\
    Header_values dst1 "Content-Type" = [] /\
    Header_values dst1 "Content-Encoding" = [] /\
    Header_values dst1 "Set-Cookie" =
      (if bool_decide (source_values lower_ascii "set-cookie" CipherModel.response = [])
       then []
       else [combined_cookie (CipherModel.cipher "a1b2c3") CipherModel.iv
               (jibber1 (CipherModel.cipher "a1b2c3") 0%nat)
               (jibber2 (CipherModel.cipher "a1b2c3") 0%nat)
               (join_lines (source_values lower_ascii "set-cookie"
                              CipherModel.response))]).
Proof.
  apply (copyHeaders_enc_hides lower_ascii (fun s _ => eq_refl)
           (CipherModel.cipher "a1b2c3") CipherModel.iv eq_refl CipherModel.response).
  - intros e He. unfold CipherModel.response in He.
    repeat (apply elem_of_cons in He as [->|He]; [reflexivity|]).
    now apply elem_of_nil in He.
  - apply range_order_empty.
  - intros k [? H]. now rewrite lookup_empty in H.
Defined.

(** ** encryptRequest and decryptRequest *)

Lemma values_Set (k v K : string) (h : Header) :
  Header_values (Header_Set k v h) K =
  if String.eqb (CanonicalMIMEHeaderKey k) K then [v] else Header_values h K.
Proof.
  unfold Header_values, Header_Set.
  destruct (String.eqb_spec (CanonicalMIMEHeaderKey k) K) as [<-|Hne].
  - now rewrite lookup_insert_eq.
  - now rewrite lookup_insert_ne.
Qed.

Lemma Get_values (h : Header) (k : string) :
  Header_Get h k =
  match Header_values h (CanonicalMIMEHeaderKey k) with v :: _ => v | [] => "" end.
Proof. unfold Header_Get, Header_values. now destruct (h !! _) as [[|]|]. Qed.

Lemma Get_Set (k v k' : string) (h : Header) :
  Header_Get (Header_Set k v h) k' =
  if String.eqb (CanonicalMIMEHeaderKey k) (CanonicalMIMEHeaderKey k') then v
  else Header_Get h k'.
Proof.
  rewrite !Get_values, values_Set. now destruct (String.eqb _ _).
Qed.

Lemma Get_Add_other (k v k' : string) (h : Header) :
  CanonicalMIMEHeaderKey k <> CanonicalMIMEHeaderKey k' ->
  Header_Get (Header_Add k v h) k' = Header_Get h k'.
Proof.
  intros Hne. rewrite !Get_values, values_Add.
  apply String.eqb_neq in Hne. rewrite Hne. now rewrite app_nil_r.
Qed.

Lemma long_keys_Set (k v : string) (h : Header) :
  3 <= len k -> (forall K, is_Some (h !! K) -> 3 <= len K) ->
  forall K, is_Some (Header_Set k v h !! K) -> 3 <= len K.
Proof.
  intros Hk Hh K HK. unfold Header_Set in HK.
  apply lookup_insert_is_Some in HK as [<-|[_ HK]]; [|now apply Hh].
  now rewrite CanonicalMIMEHeaderKey_len.
Qed.

Lemma long_keys_Add (k v : string) (h : Header) :
  3 <= len k -> (forall K, is_Some (h !! K) -> 3 <= len K) ->
  forall K, is_Some (Header_Add k v h !! K) -> 3 <= len K.
Proof.
  intros Hk Hh K HK. unfold Header_Add in HK.
  apply lookup_insert_is_Some in HK as [<-|[_ HK]]; [|now apply Hh].
  now rewrite CanonicalMIMEHeaderKey_len.
Qed.

Lemma lower_ascii_take (n : nat) (s : string) :
  lower_ascii (str_take n s) = str_take n (lower_ascii s).
Proof.
  revert s. induction n as [|n IH]; intros [|c s]; cbn; try reflexivity.
  now rewrite IH.
Qed.

Section StripKeeps.
Variable ToLower : string -> string.

Lemma decryptRequest_strip_keeps (order : list string) (h : Header) :
  (forall k, is_Some (h !! k) -> 3 <= len k) ->
  exists h' : Header,
    decryptRequest_strip ToLower order h = Ret h' /\
    forall K : string,
      (forall k, strip_cond ToLower k = true -> CanonicalMIMEHeaderKey k <> K) ->
      h' !! K = h !! K.
Proof.
  revert h. induction order as [|k0 order IH]; intros h Hh.
  - now exists h.
  - destruct (h !! k0) as [vs|] eqn:E.
    + rewrite (decryptRequest_strip_step ToLower k0 order h (ex_intro _ vs E)
                 (Hh k0 (ex_intro _ vs E))).
      destruct (strip_cond ToLower k0) eqn:C.
      * destruct (IH (Header_Del k0 h)) as (h' & Hrun & Hl).
        { intros k [ws Hk]. apply Hh. unfold Header_Del in Hk.
          apply lookup_delete_Some in Hk as [_ Hk]. now exists ws. }
        exists h'. split; [exact Hrun|]. intros K HK. rewrite (Hl K HK).
        unfold Header_Del. apply lookup_delete_ne. now apply HK.
      * apply (IH h Hh).
    + cbn [decryptRequest_strip]. rewrite E. apply (IH h Hh).
Qed.

Lemma strip_cond_spares (K k : string) :
  len K <= 12 -> str_take 3 (lower_ascii K) <> "cf-" ->
  strip_cond ToLower k = true -> CanonicalMIMEHeaderKey k <> K.
Proof.
  intros HK Hcf C E. unfold strip_cond in C. apply orb_true_iff in C as [C|C].
  - apply String.eqb_eq in C. apply Hcf.
    rewrite <- E, lower_Canonical, <- lower_ascii_take, C. reflexivity.
  - apply andb_true_iff in C as [C _]. apply Z.ltb_lt in C.
    rewrite <- E, CanonicalMIMEHeaderKey_len in HK. lia.
Qed.

End StripKeeps.

Section RequestRoundTrip.
Context {Rand : Type}.
Variable ToLower : string -> string.
Variable Cookies : Header -> list Cookie.
Variable Cookie_String : Cookie -> string.
Variable Body : Type.
(** [Cipher.IO.NewReadCloser] on the server. *)
Variable ServerReadCloser : Body -> IV -> Body.
Variable gc : Cipher Rand.
Variable iv : IV.

Local Abbreviation encrypt_fields := (encrypt_fields Cookies Cookie_String gc iv).
Local Abbreviation cookie_line := (cookie_line Cookie_String).

(** [Decrypt] inverts [Encrypt] under the IV of the request, and the cipher
    text of a non-empty string is not empty. *)
Hypothesis Decrypt_Encrypt :
  forall s : string, Decrypt gc (Encrypt gc s iv) iv = (s, None).
Hypothesis Encrypt_nonempty :
  forall s : string, s <> "" -> Encrypt gc s iv <> "".

Lemma encrypt_cookies_written (cs : list Cookie) (buf : string) :
  encrypt_cookies Cookie_String gc iv cs buf
  = written_with ";" (map Cookie_String (map (encrypt_cookie gc iv) cs)) buf.
Proof.
  unfold encrypt_cookies, written_with. revert buf.
  induction cs as [|c cs IH]; intros buf; [reflexivity|].
  cbn [fold_left map]. apply IH.
Qed.

Lemma decrypt_cookies_written (cs : list Cookie) (buf : string) :
  decrypt_cookies Cookie_String gc iv (map (encrypt_cookie gc iv) cs) buf
  = inl (written_with ";" (map Cookie_String cs) buf).
Proof.
  unfold written_with. revert buf.
  induction cs as [|[n v] cs IH]; intros buf; [reflexivity|].
  cbn [map decrypt_cookies encrypt_cookie Cookie_Name Cookie_Value].
  rewrite Decrypt_Encrypt. cbn [fold_left]. apply IH.
Qed.

Lemma slice_prefix (s t : string) : slice (s +:+ t) 0 (len s) = Ret s.
Proof.
  rewrite slice_from_start.
  - unfold len. now rewrite Nat2Z.id, str_take_app.
  - rewrite len_app. pose proof (len_nonneg s). pose proof (len_nonneg t). lia.
Qed.

Lemma len_pos (s : string) : s <> "" -> 0 < len s.
Proof. destruct s; [congruence|]. rewrite len_String. pose proof (len_nonneg s). lia. Qed.

Lemma Get_lookup (h h' : Header) (k : string) :
  h' !! CanonicalMIMEHeaderKey k = h !! CanonicalMIMEHeaderKey k ->
  Header_Get h' k = Header_Get h k.
Proof. unfold Header_Get. now intros ->. Qed.

Lemma decryptRequest_recovers (order : list string) (g : Header) (b : Body)
    (cs : list Cookie) (o f : string) :
  (forall k, is_Some (g !! k) -> 3 <= len k) ->
  Cookies g = map (encrypt_cookie gc iv) cs ->
  Header_Get g "Origin" = (if String.eqb o "" then "" else Encrypt gc o iv +:+ ".com") ->
  Header_Get g "Referer" = (if String.eqb f "" then "" else Encrypt gc f iv) ->
  exists h' : Header,
    decryptRequest ToLower Cookies Cookie_String Body ServerReadCloser gc order
      {| req_Header := g; req_Body := b |} iv
    = Ret ({| req_Header := h'; req_Body := ServerReadCloser b iv |}, []) /\
    Header_values h' "Cookie" = [cookie_line cs] /\
    Header_Get h' "Origin" = o /\
    Header_Get h' "Referer" = f.
Proof.
  intros Hlong Hcs Ho Hf. unfold decryptRequest. cbn [req_Header req_Body].
  rewrite Hcs, decrypt_cookies_written, buffer_Trunc_written.
  fold (cookie_line cs).
  set (s1 := Header_Set "Cookie" (cookie_line cs) g).
  assert (L1 : forall k, is_Some (s1 !! k) -> 3 <= len k)
    by (apply long_keys_Set; [now vm_compute | exact Hlong]).
  assert (O1 : Header_Get s1 "Origin" = Header_Get g "Origin")
    by (unfold s1; now rewrite Get_Set).
  assert (F1 : Header_Get s1 "Referer" = Header_Get g "Referer")
    by (unfold s1; now rewrite Get_Set).
  assert (C1 : Header_values s1 "Cookie" = [cookie_line cs])
    by (unfold s1; now rewrite values_Set).
  rewrite O1, Ho.
  (* the Origin *)
  assert (Origin : exists s2 : Header,
            (if 4 <? len (if String.eqb o "" then "" else Encrypt gc o iv +:+ ".com")
             then
               o0 ← slice (if String.eqb o "" then "" else Encrypt gc o iv +:+ ".com") 0
                      (len (if String.eqb o "" then ""
                            else Encrypt gc o iv +:+ ".com") - 4);
               let '(origin, err) := Decrypt gc o0 iv in
               match err with
               | Some e => Ret (s1, Some ("Failed to decrypt origin: " +:+ e))
               | None => Ret (Header_Set "Origin" origin s1, None)
               end
             else Ret (s1, None)) = Ret (s2, None) /\
            (forall k, is_Some (s2 !! k) -> 3 <= len k) /\
            Header_values s2 "Cookie" = [cookie_line cs] /\
            Header_Get s2 "Origin" = o /\
            Header_Get s2 "Referer" = Header_Get g "Referer").
  { destruct (String.eqb_spec o "") as [->|Hne].
    - exists s1. cbn [String.eqb] in *. change (4 <? len "") with false. cbv iota.
      repeat split; try assumption. now rewrite O1.
    - exists (Header_Set "Origin" o s1).
      pose proof (len_pos _ (Encrypt_nonempty o Hne)) as Hpos.
      rewrite len_app. change (len ".com") with 4.
      replace (4 <? len (Encrypt gc o iv) + 4) with true
        by (symmetry; apply Z.ltb_lt; lia).
      replace (len (Encrypt gc o iv) + 4 - 4) with (len (Encrypt gc o iv)) by lia.
      rewrite slice_prefix, bind_Ret, Decrypt_Encrypt.
      split; [reflexivity|]. split; [|split; [|split]].
      + apply long_keys_Set; [now vm_compute | exact L1].
      + now rewrite values_Set.
      + now rewrite Get_Set.
      + now rewrite Get_Set. }
  destruct Origin as (s2 & -> & L2 & C2 & O2 & F2).
  rewrite bind_Ret. cbn beta iota. rewrite F2, Hf.
  (* the Referer *)
  assert (Referer : exists s3 : Header,
            (if negb (String.eqb (if String.eqb f "" then "" else Encrypt gc f iv) "")
             then
               let '(referer, err) :=
                 Decrypt gc (if String.eqb f "" then "" else Encrypt gc f iv) iv in
               match err with
               | Some e => (s2, Some ("Failed to decrypt referer: " +:+ e))
               | None => (Header_Set "Referer" referer s2, None)
               end
             else (s2, None)) = (s3, None) /\
            (forall k, is_Some (s3 !! k) -> 3 <= len k) /\
            Header_values s3 "Cookie" = [cookie_line cs] /\
            Header_Get s3 "Origin" = o /\
            Header_Get s3 "Referer" = f).
  { destruct (String.eqb_spec f "") as [->|Hne].
    - exists s2. cbn [String.eqb negb]. repeat split; try assumption.
      now rewrite F2, Hf.
    - exists (Header_Set "Referer" f s2).
      apply Encrypt_nonempty, String.eqb_neq in Hne. rewrite Hne. cbn [negb].
      rewrite Decrypt_Encrypt.
      split; [reflexivity|]. split; [|split; [|split]].
      + apply long_keys_Set; [now vm_compute | exact L2].
      + now rewrite values_Set.
      + now rewrite Get_Set.
      + now rewrite Get_Set. }
  destruct Referer as (s3 & -> & L3 & C3 & O3 & F3).
  (* the stripping pass *)
  destruct (decryptRequest_strip_keeps ToLower order s3 L3) as (h' & -> & Hk).
  rewrite bind_Ret. exists h'. split; [reflexivity|].
  assert (K : forall K0, len K0 <= 12 -> str_take 3 (lower_ascii K0) <> "cf-" ->
                         h' !! K0 = s3 !! K0).
  { intros K0 A B. apply Hk. intros k. now apply strip_cond_spares. }
  split; [|split].
  - rewrite <- C3. unfold Header_values. now rewrite (K "Cookie").
  - rewrite <- O3. apply Get_lookup. now apply K.
  - rewrite <- F3. apply Get_lookup. now apply K.
Qed.

Ltac key_compute :=
  repeat match goal with
  | |- context [String.eqb (CanonicalMIMEHeaderKey ?a) (CanonicalMIMEHeaderKey ?b)] =>
      let x := eval vm_compute in
                 (String.eqb (CanonicalMIMEHeaderKey a) (CanonicalMIMEHeaderKey b)) in
      progress change (String.eqb (CanonicalMIMEHeaderKey a) (CanonicalMIMEHeaderKey b))
        with x
  end;
  cbv iota.

Lemma encrypt_fields_sends (h : Header) :
  Header_values (encrypt_fields h) "Cookie"
  = [cookie_line (map (encrypt_cookie gc iv) (Cookies h))] /\
  Header_Get (encrypt_fields h) "Origin"
  = (if String.eqb (Header_Get h "Origin") "" then ""
     else Encrypt gc (Header_Get h "Origin") iv +:+ ".com") /\
  Header_Get (encrypt_fields h) "Referer"
  = (if String.eqb (Header_Get h "Referer") "" then ""
     else Encrypt gc (Header_Get h "Referer") iv) /\
  ((forall k, is_Some (h !! k) -> 3 <= len k) ->
   forall k, is_Some (encrypt_fields h !! k) -> 3 <= len k) /\
  (forall K : string,
     K <> "Cookie" -> K <> "Origin" -> K <> "Referer" ->
     Header_values (encrypt_fields h) K = Header_values h K).
Proof.
  unfold encrypt_fields.
  rewrite encrypt_cookies_written, buffer_Trunc_written.
  fold (cookie_line (map (encrypt_cookie gc iv) (Cookies h))).
  set (line := cookie_line _).
  rewrite (Get_Set "Cookie" line "Origin").
  change (String.eqb (CanonicalMIMEHeaderKey "Cookie") (CanonicalMIMEHeaderKey "Origin"))
    with false. cbv iota.
  set (o := Header_Get h "Origin"). set (f := Header_Get h "Referer").
  assert (F : forall v, Header_Get
                (if negb (String.eqb o "")
                 then Header_Set "Origin" v (Header_Set "Cookie" line h)
                 else Header_Set "Cookie" line h) "Referer" = f).
  { intros v. destruct (negb (String.eqb o "")); now rewrite ?Get_Set. }
  rewrite F.
  assert (E : forall K, String.eqb "Cookie" K = false ->
                String.eqb "Origin" K = false -> String.eqb "Referer" K = false ->
                forall X,
                Header_values
                  (if negb (String.eqb f "")
                   then Header_Set "Referer" (Encrypt gc f iv)
                          (if negb (String.eqb o "")
                           then Header_Set "Origin" (Encrypt gc o iv +:+ ".com")
                                  (Header_Set "Cookie" line h)
                           else Header_Set "Cookie" line h)
                   else if negb (String.eqb o "")
                        then Header_Set "Origin" (Encrypt gc o iv +:+ ".com")
                               (Header_Set "Cookie" line h)
                        else Header_Set "Cookie" line h) K = X ->
                Header_values h K = X).
  { intros K A B C X <-.
    destruct (negb (String.eqb f "")), (negb (String.eqb o ""));
      rewrite ?values_Set;
      change (CanonicalMIMEHeaderKey "Cookie") with "Cookie";
      change (CanonicalMIMEHeaderKey "Origin") with "Origin";
      change (CanonicalMIMEHeaderKey "Referer") with "Referer";
      now rewrite ?A, ?B, ?C. }
  split; [|split; [|split; [|split]]].
  - destruct (negb (String.eqb f "")), (negb (String.eqb o ""));
      now rewrite ?values_Set.
  - clear F E.
    destruct (String.eqb f ""), (String.eqb_spec o "") as [Eo|Eo]; cbn [negb];
      rewrite ?Get_Set; key_compute; try reflexivity; exact Eo.
  - clear F E.
    destruct (String.eqb_spec f "") as [Ef|Ef], (String.eqb o ""); cbn [negb];
      rewrite ?Get_Set; key_compute; try reflexivity; exact Ef.
  - intros Hlong k.
    destruct (negb (String.eqb f "")), (negb (String.eqb o ""));
      repeat (apply long_keys_Set; [now vm_compute|]); exact Hlong.
  - intros K A B C. symmetry. apply E; [| | |reflexivity];
      apply String.eqb_neq; congruence.
Qed.

Lemma fields_round_trip (order : list string) (h : Header) (b : Body) :
  (forall k, is_Some (h !! k) -> 3 <= len k) ->
  (forall h' : Header,
     Header_values h' "Cookie"
     = [cookie_line (map (encrypt_cookie gc iv) (Cookies h))] ->
     Cookies h' = map (encrypt_cookie gc iv) (Cookies h)) ->
  exists h' : Header,
    decryptRequest ToLower Cookies Cookie_String Body ServerReadCloser gc order
      {| req_Header := encrypt_fields h; req_Body := b |} iv
    = Ret ({| req_Header := h'; req_Body := ServerReadCloser b iv |}, []) /\
    Header_values h' "Cookie" = [cookie_line (Cookies h)] /\
    Header_Get h' "Origin" = Header_Get h "Origin" /\
    Header_Get h' "Referer" = Header_Get h "Referer".
Proof.
  intros Hlong Hback.
  destruct (encrypt_fields_sends h) as (C & O & F & L & _).
  apply decryptRequest_recovers; [now apply L | now apply Hback | exact O | exact F].
Qed.

End RequestRoundTrip.

Section EncryptRequestProps.
Context {Rand : Type}.
Variable Intn : Rand -> Z -> Z * Rand.
Variable Dummies : Type.
Variable dummies_Add : string -> string -> Dummies -> Dummies.
Variable URL : Type.
Variable URL_String : URL -> string.
Variable url_Parse : string -> option URL.
Variable EncodeToString : string -> string.
Variable Cookies : Header -> list Cookie.
Variable Cookie_String : Cookie -> string.
Variable Body : Type.
Variable NewReadCloser : Body -> IV -> Body.
Variable Base41Encode : list ascii -> string.
Variable GCM_Seal : list ascii -> list ascii -> list ascii.
Variable Marshal : clientRequest -> list ascii.

Local Abbreviation encryptRequest :=
  (encryptRequest Intn Dummies dummies_Add URL URL_String url_Parse EncodeToString
     Cookies Cookie_String Body NewReadCloser Base41Encode GCM_Seal Marshal).
Local Abbreviation sealed := (encryptClientRequest Base41Encode GCM_Seal Marshal).
Local Abbreviation encrypt_fields := (encrypt_fields Cookies Cookie_String).
Local Abbreviation add_credentials := (add_credentials EncodeToString).

Lemma buffer_Writes_carrier (host text : string) :
  buffer_Writes "" ["http://"; host; "/"; text] = carrier_URL host text.
Proof.
  unfold buffer_Writes, carrier_URL. cbn [fold_left].
  now rewrite app_empty_l, !app_assoc_s.
Qed.

Lemma encryptRequest_runs (proxy : @ProxyClient Rand) (req : HTTPRequest URL Body)
    (r : clientRequest) (rand : Rand) (dummies : Dummies) (u : URL) (host : string)
    (rand1 : Rand) :
  hr_URL URL Body req = Some u ->
  genHost Intn proxy rand = Ret (host, rand1) ->
  let D := sent_descriptor proxy (URL_String u) r in
  let carrier := carrier_URL host (sealed D) in
  let fwd := Options_IsSet (pc_Policy proxy) PolicyForward in
  encryptRequest proxy req r rand dummies =
  Ret ({| hr_Header :=
            encrypt_fields (pc_Cipher proxy) (cr_IV r)
              (add_credentials proxy
                 (if fwd then Header_Add fwdURLHeader carrier (hr_Header URL Body req)
                  else hr_Header URL Body req));
          hr_Host := if fwd then pc_Upstream proxy else host;
          hr_URL := url_Parse (if fwd then "http://" +:+ pc_Upstream proxy else carrier);
          hr_Body := NewReadCloser (hr_Body URL Body req) (cr_IV r) |},
       D, rand1, addToDummies Dummies dummies_Add (hr_Header URL Body req) dummies,
       cr_IV r).
Proof.
  intros Hu Hg. cbv zeta. unfold encryptRequest. rewrite Hu, Hg.
  cbn [URL_text cr_Auth cr_Real cr_IV cr_Opt].
  destruct (Options_IsSet (pc_Policy proxy) PolicyForward);
    rewrite !bind_Ret; cbn beta iota; rewrite ?bind_Ret, buffer_Writes_carrier;
    reflexivity.
Qed.

Lemma encryptRequest_returns (proxy : @ProxyClient Rand) (req : HTTPRequest URL Body)
    (r : clientRequest) (rand : Rand) (dummies : Dummies)
    (res : HTTPRequest URL Body * clientRequest * Rand * Dummies * IV) :
  encryptRequest proxy req r rand dummies = Ret res ->
  exists (u : URL) (host : string) (rand1 : Rand),
    hr_URL URL Body req = Some u /\ genHost Intn proxy rand = Ret (host, rand1).
Proof.
  unfold encryptRequest. intros H.
  destruct (hr_URL URL Body req) as [u|];
    destruct (genHost Intn proxy rand) as [[host rand1]|];
    try (now exists u, host, rand1);
    destruct (Options_IsSet (pc_Policy proxy) PolicyForward); discriminate H.
Qed.

Lemma add_credentials_keeps (proxy : @ProxyClient Rand) (h : Header) :
  ((forall k, is_Some (h !! k) -> 3 <= len k) ->
   forall k, is_Some (add_credentials proxy h !! k) -> 3 <= len k) /\
  (forall K : string,
     K <> "Authorization" -> K <> "Proxy-Authorization" ->
     Header_values (add_credentials proxy h) K = Header_values h K).
Proof.
  unfold add_credentials.
  destruct (Options_IsSet (pc_Policy proxy) PolicyMITM
            && negb (String.eqb (pc_ProxyAuth proxy) "")); [|now split].
  cbv zeta. split.
  - intros Hlong. now repeat (apply long_keys_Add; [now vm_compute|]).
  - intros K A B. rewrite !values_Add.
    change (CanonicalMIMEHeaderKey "Authorization") with "Authorization".
    change (CanonicalMIMEHeaderKey "Proxy-Authorization") with "Proxy-Authorization".
    apply not_eq_sym, String.eqb_neq in A. apply not_eq_sym, String.eqb_neq in B.
    now rewrite A, B, !app_nil_r.
Qed.

(** The server. *)
Variable ToLower : string -> string.
Variable ServerReadCloser : Body -> IV -> Body.
Variable Base41Decode : string -> list ascii * bool.
Variable GCM_Open : list ascii -> list ascii -> list ascii * option error.
Variable Unmarshal : clientRequest -> list ascii -> clientRequest * option error.

Section Descriptor.
Hypothesis Base41_inverse :
  forall bs : list ascii, Base41Decode (Base41Encode bs) = (bs, true).
Hypothesis GCM_inverse :
  forall nonce pt : list ascii,
    length nonce = 12%nat -> GCM_Open nonce (GCM_Seal nonce pt) = (pt, None).
Hypothesis Marshal_inverse :
  forall D r0 : clientRequest,
    cr_IV r0 = cr_IV D -> Unmarshal r0 (Marshal D) = (D, None).



End Descriptor.

(** X19: a request that [encryptRequest] has obfuscated is restored by
    [decryptRequest] under the IV that [encryptRequest] returned: when the
    cipher decrypts what it encrypts and encrypts no non-empty string to the
    empty one, the cookies are read off the Cookie header alone and read
    back as they were written, and every header key is at least three bytes
    long, [decryptRequest] returns without logging, the Cookie header holds
    the original cookies joined by semicolons, Origin and Referer read as
    they did before the client touched them, and the body is wrapped once on
    each side. *)
Theorem encryptRequest_decryptRequest (proxy : @ProxyClient Rand)
    (req req1 : HTTPRequest URL Body) (r r1 : clientRequest) (rand rand1 : Rand)
    (dummies dummies1 : Dummies) (iv1 : IV) (order : list string) :
  let gc := pc_Cipher proxy in
  let iv := cr_IV r in
  (forall s : string, Decrypt gc (Encrypt gc s iv) iv = (s, None)) ->
  (forall s : string, s <> "" -> Encrypt gc s iv <> "") ->
  (forall h h' : Header,
     Header_values h "Cookie" = Header_values h' "Cookie" -> Cookies h = Cookies h') ->
  (forall h' : Header,
     Header_values h' "Cookie"
     = [cookie_line Cookie_String
          (map (encrypt_cookie gc iv) (Cookies (hr_Header URL Body req)))] ->
     Cookies h' = map (encrypt_cookie gc iv) (Cookies (hr_Header URL Body req))) ->
  (forall k, is_Some (hr_Header URL Body req !! k) -> 3 <= len k) ->
  encryptRequest proxy req r rand dummies = Ret (req1, r1, rand1, dummies1, iv1) ->
  iv1 = iv /\
  exists h' : Header,
    decryptRequest ToLower Cookies Cookie_String Body ServerReadCloser gc order
      (received req1) iv1
    = Ret ({| req_Header := h';
              req_Body := ServerReadCloser (NewReadCloser (hr_Body URL Body req) iv) iv |},
           []) /\
    Header_values h' "Cookie" = [cookie_line Cookie_String (Cookies (hr_Header URL Body req))] /\
    Header_Get h' "Origin" = Header_Get (hr_Header URL Body req) "Origin" /\
    Header_Get h' "Referer" = Header_Get (hr_Header URL Body req) "Referer".
Proof.
  intros gc iv HDE HEn Hfield Hback Hlong Hrun.
  destruct (encryptRequest_returns proxy req r rand dummies _ Hrun)
    as (u & host & rand' & Hu & Hg).
  rewrite (encryptRequest_runs proxy req r rand dummies u host rand' Hu Hg) in Hrun.
  cbv zeta in Hrun. injection Hrun as <- _ _ _ <-.
  split; [reflexivity|]. unfold received. cbn [hr_Header hr_Body].
  set (h0 := hr_Header URL Body req) in *.
  set (hmid := if Options_IsSet (pc_Policy proxy) PolicyForward
               then Header_Add fwdURLHeader _ h0 else h0).
  set (h := add_credentials proxy hmid).
  assert (Lmid : forall k, is_Some (hmid !! k) -> 3 <= len k).
  { unfold hmid. destruct (Options_IsSet _ _); [|exact Hlong].
    apply long_keys_Add; [now vm_compute | exact Hlong]. }
  assert (Vmid : forall K, K <> fwdURLHeader ->
                           Header_values hmid K = Header_values h0 K).
  { intros K HK. unfold hmid. destruct (Options_IsSet _ _); [|reflexivity].
    rewrite values_Add. change (CanonicalMIMEHeaderKey fwdURLHeader) with fwdURLHeader.
    apply not_eq_sym, String.eqb_neq in HK. now rewrite HK, app_nil_r. }
  assert (V : forall K, K <> fwdURLHeader -> K <> "Authorization" ->
                        K <> "Proxy-Authorization" ->
                        Header_values h K = Header_values h0 K).
  { intros K A B C. unfold h.
    rewrite (proj2 (add_credentials_keeps proxy hmid) K B C). now apply Vmid. }
  assert (G : forall k, CanonicalMIMEHeaderKey k <> fwdURLHeader ->
                        CanonicalMIMEHeaderKey k <> "Authorization" ->
                        CanonicalMIMEHeaderKey k <> "Proxy-Authorization" ->
                        Header_Get h k = Header_Get h0 k).
  { intros k A B C. rewrite !Get_values. now rewrite (V _ A B C). }
  assert (HC : Cookies h = Cookies h0) by (apply Hfield, V; discriminate).
  destruct (fields_round_trip ToLower Cookies Cookie_String Body ServerReadCloser
              gc iv HDE HEn order h (NewReadCloser (hr_Body URL Body req) iv))
    as (h' & Hrun & C & O & F).
  - apply (proj1 (add_credentials_keeps proxy hmid) Lmid).
  - rewrite HC. exact Hback.
  - exists h'. split; [exact Hrun|]. rewrite C, O, F, HC.
    split; [reflexivity|]. split; apply G; discriminate.
Qed.

End EncryptRequestProps.

(** *** The client and the request of the examples *)


Lemma encryptRequest_decryptRequest_witness :
  exists (req1 : HTTPRequest string unit) (r1 : clientRequest) (rand1 : nat)
         (dummies1 : RequestModel.Dummies) (iv1 : IV),
    RequestModel.send = Ret (req1, r1, rand1, dummies1, iv1) /\
    iv1 = CipherModel.iv /\
    exists h' : Header,
      RequestModel.receive ["Cookie"; "Origin"; "Referer"] req1 iv1
      = Ret ({| req_Header := h'; req_Body := tt |}, []) /\
      Header_values h' "Cookie" = ["sid=abc;theme=dark"] /\
      Header_Get h' "Origin" = "https://example.com" /\
      Header_Get h' "Referer" = "https://example.com/page".
Proof.
  eexists _, _, _, _, _. split.
  { apply (encryptRequest_runs RequestModel.Intn RequestModel.Dummies
             RequestModel.dummies_Add string (fun u => u) Some (fun s => s)
             RequestModel.Cookies RequestModel.Cookie_String unit (fun b _ => b)
             CodecModel.Base41Encode CodecModel.GCM_Seal CodecModel.Marshal
             RequestModel.proxy RequestModel.request RequestModel.descriptor
             0%nat [] "http://example.com/index.html" "ipsum.com" 2%nat
             eq_refl eq_refl). }
  eapply (encryptRequest_decryptRequest RequestModel.Intn RequestModel.Dummies
           RequestModel.dummies_Add string (fun u => u) Some (fun s => s)
           RequestModel.Cookies RequestModel.Cookie_String unit (fun b _ => b)
           CodecModel.Base41Encode CodecModel.GCM_Seal CodecModel.Marshal
           lower_ascii (fun b _ => b)
           RequestModel.proxy RequestModel.request _ RequestModel.descriptor _
           0%nat _ [] _ _ ["Cookie"; "Origin"; "Referer"]).
  - intros s. cbn. now rewrite CipherFacts.decode_encode_digits.
  - intros [|c s] H; [congruence | discriminate].
  - intros h h' H. unfold RequestModel.Cookies. now rewrite H.
  - intros h' H. unfold RequestModel.Cookies at 1. rewrite H. reflexivity.
  - intros k Hk. unfold RequestModel.request in Hk. cbn [hr_Header] in Hk.
    repeat (apply lookup_insert_is_Some in Hk as [<-|[_ Hk]]; [now vm_compute|]).
    rewrite lookup_empty in Hk. now destruct Hk.
  - apply (encryptRequest_runs RequestModel.Intn RequestModel.Dummies
             RequestModel.dummies_Add string (fun u => u) Some (fun s => s)
             RequestModel.Cookies RequestModel.Cookie_String unit (fun b _ => b)
             CodecModel.Base41Encode CodecModel.GCM_Seal CodecModel.Marshal
             RequestModel.proxy RequestModel.request RequestModel.descriptor
             0%nat [] "http://example.com/index.html" "ipsum.com" 2%nat
             eq_refl eq_refl).
Defined.

(** ** basicAuth: the scheme word *)

Section BasicAuthScheme.
Variable TrimSpace : string -> string.
Variable DecodeString : string -> option string.

(** X20: [basicAuth] looks only at the second of the two space-separated
    parts of the token: a token made of any first word (the empty word
    included), one space and a credential that decodes to the client's
    UserAuth is accepted; and whatever the token, the result is either the
    UserAuth or the empty string. *)
Theorem basicAuth_scheme_unchecked (S : string) :
  (forall scheme cred : string,
     has_byte " " scheme = false -> has_byte " " cred = false ->
     DecodeString (TrimSpace cred) = Some S ->
     basicAuth TrimSpace DecodeString S (scheme +:+ " " +:+ cred) = S) /\
  (forall token : string,
     basicAuth TrimSpace DecodeString S token = S \/
     basicAuth TrimSpace DecodeString S token = "").
Proof.
  split.
  - intros scheme cred Hs Hc Hd.
    apply (basicAuth_accepts TrimSpace DecodeString S _ scheme cred); [|exact Hd].
    change (" " +:+ cred) with (String " " cred).
    now rewrite (split_byte_app " " scheme cred Hs), (split_byte_none " " cred Hc).
  - intros token. unfold basicAuth.
    destruct (split_byte " " token) as [|p0 [|p1 [|p2 ps]]]; try now right.
    destruct (DecodeString (TrimSpace p1)) as [pa|]; [|now right].
    destruct (String.eqb_spec pa S) as [->|_]; [now left | now right].
Qed.

End BasicAuthScheme.
